(** * Document assembly pipeline: [src/services/historyService.ts]

    A shallow embedding of [detectImageType], [processImage] and [mergeFiles],
    of the history log of the same file and of the pure part of [App.tsx],
    together with the properties stated for them.

    Modelling conventions.
    - A [Uint8Array] is a [list byte].
    - A JavaScript number is a value of the type [number] of the class
      [JsNumber], whose fields are the operations the code applies to
      numbers.  IEEE 754 binary64, the arithmetic the code runs in, is
      given twice: [Double], on the primitive floats of the kernel, and
      [Binary64], written out on rationals (the exact result, rounded to the
      nearest number of 53 significant bits, a tie going to the even one);
      the two are compared on samples.  A theorem is stated for every
      arithmetic; where a theorem depends on how the arithmetic rounds, it
      assumes [IEEE754], a list of properties of correctly rounded
      arithmetic, which [Binary64] is proved to have, as is [Exact]
      (rationals that are not rounded).
    - A JavaScript string is a [string] of UTF-8 bytes.
    - [async]/[await] and [Promise] are sequenced: a resolved promise is a
      returned value, a rejected promise is a thrown value.
    - [pdf-lib], the DOM [Image]/[canvas] and the progress callback are
      external: they are the fields of the class [Env] and every theorem
      quantifies over them.  Each call to one of them is recorded in a log of
      [Event]s so that statements can speak of what was called and in which
      order.  [console.error] is not recorded. *)

From Stdlib Require Import List String Ascii Strings.Byte Bool Arith ZArith NArith.
From Stdlib Require Import QArith Qround Qreduction Qpower Lia Lqa.
From Stdlib Require PrimFloat FloatOps SpecFloat Uint63.
From Stdlib Require Import DecimalString Permutation.
Import ListNotations.

Set Implicit Arguments.

(** ** Codec sniffer *)

Definition bytes := list byte.

Inductive ImageType := png | jpg | unknown.

Definition ImageType_eqb (a b : ImageType) : bool :=
  match a, b with
  | png, png | jpg, jpg | unknown, unknown => true
  | _, _ => false
  end.

(** [bytes[i] === v]: an index past the end reads [undefined], which is
    never equal to a number. *)
Definition byte_at_is (b : bytes) (i : nat) (v : byte) : bool :=
  match nth_error b i with
  | Some c => Byte.eqb c v
  | None => false
  end.

Definition detectImageType (b : bytes) : ImageType :=
  if (List.length b <? 4)%nat then unknown
  else if byte_at_is b 0 x89 && byte_at_is b 1 x50
          && byte_at_is b 2 x4e && byte_at_is b 3 x47 then png
  else if byte_at_is b 0 xff && byte_at_is b 1 xd8 then jpg
  else unknown.


(** ** Data model ([types.ts]) *)

Close Scope Q_scope.

Inductive FileType := pdf | image | docx | xlsx.

Inductive CompressionLevel := none | normal | high.

(** A DOM [File]: its [name] and the bytes its [arrayBuffer()] resolves to. *)
Record File := { name : string; arrayBuffer : bytes }.

(** [UploadedFile], restricted to the fields [mergeFiles] reads. *)
Record UploadedFile := {
  file : File;
  type : FileType;
  convertedBlob : option bytes
}.

(** ** Thrown values and results *)

(** What a [catch] clause can receive: an [Error] carrying a [message], or a
    value that is not an instance of [Error], such as a thrown string, given
    by its text. *)
Inductive Thrown := JsError (message : string) | NotAnError (value : string).

Inductive Result (A : Type) := Ok (a : A) | Throw (e : Thrown).
Arguments Throw {A} e.

Definition isOk {A} (r : Result A) : bool :=
  match r with Ok _ => true | Throw _ => false end.

(** ** JavaScript numbers *)

Class JsNumber := {
  number : Type;
  (** the number of a non-negative integer: an integer literal, [i + 1],
      [files.length], [img.width] *)
  ofN : N -> number;
  (** the number a decimal literal denotes *)
  lit : Q -> number;
  (** [a / b], [a * b] and [a > b] *)
  divide : number -> number -> number;
  times : number -> number -> number;
  gtb : number -> number -> bool;
  (** [Math.round(a)] for a finite [a] *)
  Math_round : number -> Z;
  (** what an [unsigned long] attribute such as [canvas.width] holds after
      a number is assigned to it *)
  toUint32 : number -> N;
  (** [a <= b], and the real value of a finite number: the code uses
      neither, the statements do *)
  leqb : number -> number -> bool;
  toQ : number -> option Q
}.

(** *** IEEE 754 binary64 *)

(** An integer as a double; exact below 2^53, which covers every integer
    the code converts. *)
Definition double_ofZ (z : Z) : PrimFloat.float :=
  if (z <? 0)%Z then PrimFloat.opp (PrimFloat.of_uint63 (Uint63.of_Z (- z)))
  else PrimFloat.of_uint63 (Uint63.of_Z z).

(** [Math.round]: the nearest integer, a tie going up; computed on the
    exact value [n * 2^e] of the double.  [NaN] and the infinities, which
    [Math.round] returns as they are, have no integer: [0] stands for
    them. *)
Definition double_round (x : PrimFloat.float) : Z :=
  match FloatOps.Prim2SF x with
  | SpecFloat.S754_finite s m e =>
      let n := if s then Z.neg m else Z.pos m in
      if (0 <=? e)%Z then (n * 2 ^ e)%Z
      else ((2 * n + 2 ^ (- e)) / 2 ^ (- e + 1))%Z
  | _ => 0%Z
  end.

(** Conversion to [unsigned long]: [NaN] and the infinities give 0, any
    other number is truncated towards zero and taken modulo 2^32. *)
Definition double_toUint32 (x : PrimFloat.float) : N :=
  match FloatOps.Prim2SF x with
  | SpecFloat.S754_finite s m e =>
      let a := if (0 <=? e)%Z then (Z.pos m * 2 ^ e)%Z
               else (Z.pos m / 2 ^ (- e))%Z in
      Z.to_N ((if s then - a else a) mod 2 ^ 32)
  | _ => 0%N
  end.

Definition double_toQ (x : PrimFloat.float) : option Q :=
  match FloatOps.Prim2SF x with
  | SpecFloat.S754_zero _ => Some 0%Q
  | SpecFloat.S754_finite s m e =>
      let n := if s then Z.neg m else Z.pos m in
      Some (if (0 <=? e)%Z then inject_Z (n * 2 ^ e)
            else (n # Z.to_pos (2 ^ (- e)))%Q)
  | _ => None
  end.

(** A decimal literal is the double nearest to it: the correctly rounded
    quotient of its numerator and denominator, both below 2^53 for the
    literals of the code. *)
Definition Double : JsNumber := {|
  number := PrimFloat.float;
  ofN := fun n => double_ofZ (Z.of_N n);
  lit := fun q => PrimFloat.div (double_ofZ (Qnum q)) (double_ofZ (Z.pos (Qden q)));
  divide := PrimFloat.div;
  times := PrimFloat.mul;
  gtb := fun a b => PrimFloat.ltb b a;
  Math_round := double_round;
  toUint32 := double_toUint32;
  leqb := PrimFloat.leb;
  toQ := double_toQ
|}.

(** *** Exact arithmetic: rationals, the two infinities and NaN *)

Inductive XQ := Fin (q : Q) | PInf | NInf | NaN.

Definition XQ_div (a b : XQ) : XQ :=
  match a, b with
  | Fin x, Fin y =>
      match (y ?= 0)%Q with
      | Eq => match (x ?= 0)%Q with Eq => NaN | Gt => PInf | Lt => NInf end
      | _ => Fin (Qred (x / y))
      end
  | Fin _, PInf | Fin _, NInf => Fin 0
  | PInf, Fin y => match (y ?= 0)%Q with Lt => NInf | _ => PInf end
  | NInf, Fin y => match (y ?= 0)%Q with Lt => PInf | _ => NInf end
  | _, _ => NaN
  end.

Definition XQ_mul (a b : XQ) : XQ :=
  match a, b with
  | Fin x, Fin y => Fin (Qred (x * y))
  | Fin x, PInf | PInf, Fin x =>
      match (x ?= 0)%Q with Eq => NaN | Gt => PInf | Lt => NInf end
  | Fin x, NInf | NInf, Fin x =>
      match (x ?= 0)%Q with Eq => NaN | Gt => NInf | Lt => PInf end
  | PInf, PInf | NInf, NInf => PInf
  | PInf, NInf | NInf, PInf => NInf
  | _, _ => NaN
  end.

Definition XQ_le (a b : XQ) : bool :=
  match a, b with
  | NaN, _ | _, NaN => false
  | Fin x, Fin y => Qle_bool x y
  | NInf, _ | _, PInf => true
  | _, _ => false
  end.

Definition XQ_gt (a b : XQ) : bool :=
  match a, b with
  | NaN, _ | _, NaN => false
  | Fin x, Fin y => negb (Qle_bool x y)
  | PInf, PInf | NInf, NInf => false
  | PInf, _ | _, NInf => true
  | _, _ => false
  end.

Definition Qtrunc (q : Q) : Z := if Qle_bool 0 q then Qfloor q else Qceiling q.

Definition Exact : JsNumber := {|
  number := XQ;
  ofN := fun n => Fin (Qred (inject_Z (Z.of_N n)));
  lit := fun q => Fin (Qred q);
  divide := XQ_div;
  times := XQ_mul;
  gtb := XQ_gt;
  Math_round := fun a => match a with
                         | Fin q => Qfloor (q + (1 # 2))%Q
                         | _ => 0%Z
                         end;
  toUint32 := fun a => match a with
                       | Fin q => Z.to_N (Qtrunc q mod 2 ^ 32)
                       | _ => 0%N
                       end;
  leqb := XQ_le;
  toQ := fun a => match a with Fin q => Some q | _ => None end
|}.

(** *** IEEE 754 binary64, on rationals

    The same arithmetic as [Double], written out: a number is a rational,
    an infinity or NaN, and the quotient and the product are the exact ones
    rounded to the nearest double, a tie going to the even significand. *)

(** The binary exponent of a positive rational [q]:
    [2 ^ exponent q <= q < 2 ^ (exponent q + 1)]. *)
Definition exponent (q : Q) : Z :=
  let e := (Z.log2 (Qnum q) - Z.log2 (Z.pos (Qden q)))%Z in
  if Qle_bool (2 ^ e) q then e else (e - 1)%Z.

(** The nearest integer, a tie going to the even one. *)
Definition nearestEven (x : Q) : Z :=
  let f := Qfloor x in
  match (x - inject_Z f ?= 1 # 2)%Q with
  | Lt => f
  | Gt => (f + 1)%Z
  | Eq => if Z.even f then f else (f + 1)%Z
  end.

(** The nearest number with a significand of 53 bits and an exponent of at
    least -1022 (below it the numbers are the subnormal ones, evenly spaced
    by 2^-1074). *)
Definition nearest (q : Q) : Q :=
  let e := Z.max (exponent q) (-1022) in
  (inject_Z (nearestEven (q / 2 ^ (e - 52))) * 2 ^ (e - 52))%Q.

Definition XQ_opp (a : XQ) : XQ :=
  match a with
  | Fin q => Fin (Qred (- q))
  | PInf => NInf
  | NInf => PInf
  | NaN => NaN
  end.

(** What reaches 2^1024 is [Infinity]. *)
Definition overflow (r : Q) : XQ :=
  if Qle_bool (2 ^ 1024) r then PInf else Fin (Qred r).

(** The double nearest to a rational. *)
Definition binary64 (q : Q) : XQ :=
  match (q ?= 0)%Q with
  | Eq => Fin 0
  | Gt => overflow (nearest q)
  | Lt => XQ_opp (overflow (nearest (- q)))
  end.

Definition rounded (a : XQ) : XQ :=
  match a with Fin q => binary64 q | _ => a end.

Definition Binary64 : JsNumber := {|
  number := XQ;
  ofN := fun n => binary64 (inject_Z (Z.of_N n));
  lit := binary64;
  divide := fun a b => rounded (XQ_div a b);
  times := fun a b => rounded (XQ_mul a b);
  gtb := XQ_gt;
  Math_round := @Math_round Exact;
  toUint32 := @toUint32 Exact;
  leqb := XQ_le;
  toQ := @toQ Exact
|}.

(** *** Properties of correctly rounded arithmetic

    Every integer below 2^31 is a number; the operations round to the
    nearest number, so they are monotone, exact where the exact result is a
    number, and off by a relative error of at most [ulp] = 2^-53 where the
    exact result stays in the range [tiny]..[huge] of the normal numbers. *)

(** The integers an [unsigned long] attribute of the DOM reflects as they
    are; every size of an image or a canvas and every array length is one. *)
Definition small (a : N) : Prop := (a < 2 ^ 31)%N.

Definition ulp : Q := 1 # 9007199254740992.

Definition tiny : Q := 1 # (2 ^ 1022).

Definition huge : Q := inject_Z (2 ^ 1023).

Class IEEE754 {Nb : JsNumber} : Prop := {
  gtb_ofN : forall a b, small a -> small b ->
    gtb (ofN a) (ofN b) = (b <? a)%N;
  leqb_ofN : forall a b, small a -> small b ->
    leqb (ofN a) (ofN b) = (a <=? b)%N;
  divide_mono : forall a a' b, small a -> small a' -> small b ->
    (a <= a')%N -> (0 < b)%N ->
    leqb (divide (ofN a) (ofN b)) (divide (ofN a') (ofN b)) = true;
  divide_self : forall a, small a -> (0 < a)%N ->
    divide (ofN a) (ofN a) = ofN 1;
  divide_zero_l : forall b, small b -> (0 < b)%N ->
    divide (ofN 0) (ofN b) = ofN 0;
  (** a positive number over zero is [Infinity] *)
  divide_by_zero : forall a, small a -> (0 < a)%N ->
    leqb (ofN 1) (divide (ofN a) (ofN 0)) = true;
  divide_by_ge_1 : forall m r, small m -> leqb (ofN 1) r = true ->
    leqb (ofN 0) (divide (ofN m) r) = true
    /\ leqb (divide (ofN m) r) (ofN m) = true;
  times_unit : forall m r, small m ->
    leqb (ofN 0) r = true -> leqb r (ofN 1) = true ->
    leqb (ofN 0) (times (ofN m) r) = true
    /\ leqb (times (ofN m) r) (ofN m) = true;
  times_mono : forall x y c, small c -> (0 < c)%N -> leqb x y = true ->
    leqb (times x (ofN c)) (times y (ofN c)) = true;
  times_ofN : forall a c, small a -> small c -> small (a * c) ->
    times (ofN a) (ofN c) = ofN (a * c);
  round_mono : forall x y c, small c ->
    leqb (ofN 0) x = true -> leqb x y = true -> leqb y (ofN c) = true ->
    (Math_round x <= Math_round y)%Z;
  round_ofN : forall a, small a -> Math_round (ofN a) = Z.of_N a;
  toUint32_ofN : forall a, small a -> toUint32 (ofN a) = a;
  toUint32_le : forall x m, small m ->
    leqb (ofN 0) x = true -> leqb x (ofN m) = true ->
    (toUint32 x <= m)%N;
  lit_accurate : forall q,
    (0 < Qnum q < 2 ^ 53)%Z -> (Z.pos (Qden q) < 2 ^ 53)%Z ->
    exists t, toQ (lit q) = Some t
              /\ ((1 - ulp) * q <= t)%Q /\ (t <= (1 + ulp) * q)%Q;
  divide_accurate : forall x y a b, toQ x = Some a -> toQ y = Some b ->
    (0 < a)%Q -> (0 < b)%Q -> (tiny <= a / b)%Q -> (a / b <= huge)%Q ->
    exists c, toQ (divide x y) = Some c
              /\ ((1 - ulp) * (a / b) <= c)%Q /\ (c <= (1 + ulp) * (a / b))%Q;
  times_accurate : forall x y a b, toQ x = Some a -> toQ y = Some b ->
    (0 < a)%Q -> (0 < b)%Q -> (tiny <= a * b)%Q -> (a * b <= huge)%Q ->
    exists c, toQ (times x y) = Some c
              /\ ((1 - ulp) * (a * b) <= c)%Q /\ (c <= (1 + ulp) * (a * b))%Q
}.

(** *** The properties, tried on doubles

    [IEEE754] is proved of [Binary64], not of [Double].  The properties
    that speak of integers are decided here on the doubles of
    given integers [a], [b], [m]: the order, the monotony and the exact
    cases of the quotient, the bounds of [m / (a / b)] and [m * (a / b)],
    of their whole parts and of the rounded percentage. *)
Definition double_laws_on (samples : list N) : bool :=
  let o := @ofN Double in
  let le := @leqb Double in
  let quotients :=
    map (fun p => @divide Double (o (fst p)) (o (snd p))) (list_prod samples samples) in
  forallb (fun p =>
    let a := fst p in
    let b := snd p in
    Bool.eqb (@gtb Double (o a) (o b)) (b <? a)%N
    && Bool.eqb (le (o a) (o b)) (a <=? b)%N
    && forallb (fun c =>
         implb ((a <=? b)%N && (0 <? c)%N)
               (le (@divide Double (o a) (o c)) (@divide Double (o b) (o c)))
         && implb (a * c <? 2 ^ 31)%N
               (PrimFloat.Leibniz.eqb (@times Double (o a) (o c)) (o (a * c)%N)))
         samples)
    (list_prod samples samples)
  && forallb (fun a =>
       implb (0 <? a)%N
         (PrimFloat.Leibniz.eqb (@divide Double (o a) (o a)) (o 1%N)
          && PrimFloat.Leibniz.eqb (@divide Double (o 0%N) (o a)) (o 0%N)
          && le (o 1%N) (@divide Double (o a) (o 0%N)))
       && (@Math_round Double (o a) =? Z.of_N a)%Z
       && (@toUint32 Double (o a) =? a)%N)
       samples
  && forallb (fun m =>
       forallb (fun r =>
         implb (le (o 1%N) r)
           (le (o 0%N) (@divide Double (o m) r) && le (@divide Double (o m) r) (o m)
            && (@toUint32 Double (@divide Double (o m) r) <=? m)%N)
         && implb (le (o 0%N) r && le r (o 1%N))
              (le (o 0%N) (@times Double (o m) r) && le (@times Double (o m) r) (o m)
               && (@toUint32 Double (@times Double (o m) r) <=? m)%N
               && (0 <=? @Math_round Double (@times Double r (o 100%N)))%Z
               && (@Math_round Double (@times Double r (o 100%N)) <=? 100)%Z))
         quotients)
       samples.

(** *** The two renderings of binary64, compared

    [Double] and [Binary64] are decided to give the same numbers on the
    integers of [samples]: the quotient and the product of any two, what
    the resize rule and the percentage compute from them, and the literals
    of the code. *)
Definition same_number (x : PrimFloat.float) (y : XQ) : bool :=
  match double_toQ x, y with
  | Some a, Fin b => Qeq_bool a b
  | None, PInf => PrimFloat.eqb x PrimFloat.infinity
  | None, NInf => PrimFloat.eqb x PrimFloat.neg_infinity
  | None, NaN => negb (PrimFloat.eqb x x)
  | _, _ => false
  end.

Definition renderings_agree_on (samples : list N) : bool :=
  let d := @ofN Double in
  let b := @ofN Binary64 in
  forallb (fun p =>
    let i := fst p in
    let j := snd p in
    let x := @divide Double (d i) (d j) in
    let y := @divide Binary64 (b i) (b j) in
    same_number x y
    && same_number (@times Double (d i) (d j)) (@times Binary64 (b i) (b j))
    && Bool.eqb (@gtb Double (d i) (d j)) (@gtb Binary64 (b i) (b j))
    && (@Math_round Double (@times Double x (d 100%N))
        =? @Math_round Binary64 (@times Binary64 y (b 100%N)))%Z
    && same_number (@times Double (d i) (@divide Double (@lit Double 595.28) (d j)))
                   (@times Binary64 (b i) (@divide Binary64 (@lit Binary64 595.28) (b j)))
    && forallb (fun m =>
         same_number (@divide Double (d m) x) (@divide Binary64 (b m) y)
         && same_number (@times Double (d m) x) (@times Binary64 (b m) y)
         && (@toUint32 Double (@divide Double (d m) x)
             =? @toUint32 Binary64 (@divide Binary64 (b m) y))%N
         && (@toUint32 Double (@times Double (d m) x)
             =? @toUint32 Binary64 (@times Binary64 (b m) y))%N)
         samples)
    (list_prod samples samples)
  && forallb (fun q => same_number (@lit Double q) (@lit Binary64 q))
       [0.5; 0.75; 1.0; 595.28]%Q.

(** ** Geometry records *)

Module Size.
Record t {Nb : JsNumber} := mk { width : number; height : number }.
Arguments mk {Nb} width height.
End Size.

(** The whole pixels of an image or of a canvas ([unsigned long]). *)
Module Pixels.
Record t := mk { width : N; height : N }.
End Pixels.

Module DrawOptions.
Record t {Nb : JsNumber} :=
  mk { x : number; y : number; width : number; height : number }.
Arguments mk {Nb} x y width height.
End DrawOptions.

Inductive Drawing {Nb : JsNumber} (EP IM : Type) :=
| DrawPage (embeddedPage : EP) (options : DrawOptions.t)
| DrawImage (image : IM) (options : DrawOptions.t).
Arguments DrawPage {Nb EP IM} embeddedPage options.
Arguments DrawImage {Nb EP IM} image options.

(** A page of the output document: the size given to [addPage] and what was
    drawn on it since. *)
Record PDFPage {Nb : JsNumber} (EP IM : Type) := {
  pageSize : number * number;
  drawings : list (Drawing EP IM)
}.

Inductive MimeType := image_png | image_jpeg.

Definition MimeType_eqb (a b : MimeType) : bool :=
  match a, b with
  | image_png, image_png | image_jpeg, image_jpeg => true
  | _, _ => false
  end.

(** ** External collaborators *)

Class Env := {
  (** the arithmetic of the engine *)
  JsNum :: JsNumber;
  SourcePdf : Type;
  SourcePage : Type;
  PDFEmbeddedPage : Type;
  PDFImage : Type;
  (** [PDFDocument.load(arrayBuffer)] *)
  PDFDocument_load : bytes -> Result SourcePdf;
  (** [sourcePdf.getPages()] *)
  getPages : SourcePdf -> list SourcePage;
  (** [mergedPdf.embedPages(pages)] *)
  embedPages : list SourcePage -> Result (list PDFEmbeddedPage);
  (** the [width] and [height] of an embedded page *)
  embeddedPage_size : PDFEmbeddedPage -> Size.t;
  (** [mergedPdf.embedPng(bytes)] and [mergedPdf.embedJpg(bytes)] *)
  embedPng : bytes -> Result PDFImage;
  embedJpg : bytes -> Result PDFImage;
  (** [image.scale(factor)] *)
  scale : PDFImage -> number -> Size.t;
  (** [img.src = url]: [onload] with [img.width], [img.height], or [onerror] *)
  Image_load : bytes -> option Pixels.t;
  (** whether [canvas.getContext('2d')] is non-null *)
  getContext_2d : bool;
  (** [canvas.toBlob(cb, mimeType, quality)] on a canvas of the given
      pixels, on which the image was drawn at the given width and height;
      [None] is the [null] blob *)
  toBlob : bytes -> Pixels.t -> Size.t -> MimeType -> number -> option bytes;
  (** the size of the page [mergedPdf.addPage()] makes when it is given
      none *)
  blankPageSize : number * number;
  (** what [mergedPdf.save()] writes for a document of the given pages *)
  serialize : list (PDFPage PDFEmbeddedPage PDFImage) -> Result bytes
}.

Section Pipeline.

Context {E : Env}.

Definition Page := PDFPage PDFEmbeddedPage PDFImage.

(** Calls that leave the module, in the order they are made. *)
Inductive Event :=
| OnProgress (msg : string) (progress : Z)
| CallLoad (arrayBuffer : bytes)
| CallEmbedPages (pages : list SourcePage)
| CallEmbedPng (imageBytes : bytes)
| CallEmbedJpg (imageBytes : bytes)
| CallImageLoad (src : bytes)
| CallToBlob (canvas : Pixels.t) (mimeType : MimeType) (quality : number)
| CallSave (pages : list Page).

(** The state the code runs in: the document under construction and the
    log of calls. *)
Record World := { mergedPdf : list Page; log : list Event }.

Definition M (A : Type) := World -> Result A * World.

Definition ret {A} (a : A) : M A := fun w => (Ok a, w).

Definition throw {A} (e : Thrown) : M A := fun w => (Throw e, w).

Definition bind {A B} (m : M A) (k : A -> M B) : M B :=
  fun w => match m w with
           | (Ok a, w') => k a w'
           | (Throw e, w') => (Throw e, w')
           end.

(** [try { m } catch (e) { handler e }] *)
Definition try_catch {A} (m : M A) (handler : Thrown -> M A) : M A :=
  fun w => match m w with
           | (Ok a, w') => (Ok a, w')
           | (Throw e, w') => handler e w'
           end.

Definition emit (e : Event) : M unit :=
  fun w => (Ok tt, {| mergedPdf := mergedPdf w; log := log w ++ [e] |}).

Definition lift {A} (r : Result A) : M A := fun w => (r, w).

End Pipeline.

Declare Scope js_scope.
Delimit Scope js_scope with js.
Notation "x <- m ;; k" := (bind m (fun x => k))
  (at level 61, m at next level, right associativity) : js_scope.
Notation "m ;; k" := (bind m (fun _ => k))
  (at level 61, right associativity) : js_scope.

Section Program.

Context {E : Env}.

Local Open Scope js_scope.

(** ** Raster normalizer: [processImage] *)

(** [file: File | Uint8Array] *)
Inductive ImageInput := IsFile (f : File) | IsUint8Array (b : bytes).

Record Processed := { data : bytes; isPng : bool }.

Definition maxDimension (level : CompressionLevel) : N :=
  match level with
  | high => 1500
  | normal => 2500
  | none => 0
  end.

(** The variables [width] and [height] after the resize, from [img.width]
    and [img.height]. *)
Definition resize (level : CompressionLevel) (img : Pixels.t) : Size.t :=
  let width := ofN (Pixels.width img) in
  let height := ofN (Pixels.height img) in
  let maxDimension := ofN (maxDimension level) in
  if gtb maxDimension (ofN 0) && (gtb width maxDimension || gtb height maxDimension)
  then
    let ratio := divide width height in
    if gtb width height
    then Size.mk maxDimension (divide maxDimension ratio)
    else Size.mk (times maxDimension ratio) maxDimension
  else Size.mk width height.

(** What a reflected [unsigned long] attribute of an element holds after
    [value] is assigned to it: the number converted to an unsigned long
    when that is at most 2^31 - 1, else the default of the attribute. *)
Definition reflected (default : N) (value : number) : N :=
  if (toUint32 value <=? 2147483647)%N then toUint32 value else default.

(** [canvas.width = width; canvas.height = height]: the canvas keeps whole
    pixels; the defaults of the two attributes are 300 and 150. *)
Definition canvasSize (level : CompressionLevel) (img : Pixels.t) : Pixels.t :=
  Pixels.mk (reflected 300 (Size.width (resize level img)))
            (reflected 150 (Size.height (resize level img))).

Definition mimeType (level : CompressionLevel) : MimeType :=
  match level with
  | high => image_jpeg
  | normal => image_jpeg
  | none => image_png
  end.

Definition quality (level : CompressionLevel) : number :=
  match level with
  | high => lit 0.5
  | normal => lit 0.75
  | none => lit 1.0
  end.

(** The [new Promise(...)] part of [processImage]: decode, resize, re-encode. *)
Definition canvasPath (input : ImageInput) (level : CompressionLevel)
  : M Processed :=
  let src := match input with
             | IsFile f => arrayBuffer f
             | IsUint8Array b => b
             end in
  emit (CallImageLoad src) ;;
  match Image_load src with
  | None => throw (JsError "Failed to load image for processing.")
  | Some img =>
      let size := resize level img in
      let canvas := canvasSize level img in
      if negb getContext_2d
      then throw (JsError "Browser canvas context not available")
      else
        emit (CallToBlob canvas (mimeType level) (quality level)) ;;
        match toBlob src canvas size (mimeType level) (quality level) with
        | Some blob =>
            ret {| data := blob;
                   isPng := MimeType_eqb (mimeType level) image_png |}
        | None => throw (JsError "Failed to process image")
        end
  end.

Definition processImage (input : ImageInput) (level : CompressionLevel)
  : M Processed :=
  match level, input with
  | none, IsFile f =>
      let bytes := arrayBuffer f in
      let type := detectImageType bytes in
      if negb (ImageType_eqb type unknown)
      then ret {| data := bytes; isPng := ImageType_eqb type png |}
      else canvasPath input level
  | _, _ => canvasPath input level
  end.

(** ** Page compositor *)

Definition TARGET_WIDTH : number := lit 595.28.

Fixpoint modify_nth {A} (n : nat) (f : A -> A) (l : list A) : list A :=
  match l, n with
  | [], _ => []
  | a :: l', O => f a :: l'
  | a :: l', S n' => a :: modify_nth n' f l'
  end.

(** [mergedPdf.addPage([w, h])]: the new page is appended; the result
    designates it by its index. *)
Definition addPage (size : number * number) : M nat :=
  fun w => (Ok (List.length (mergedPdf w)),
            {| mergedPdf := mergedPdf w ++ [ {| pageSize := size; drawings := [] |} ];
               log := log w |}).

(** [page.drawPage(...)] and [page.drawImage(...)] on a page of the document. *)
Definition draw (page : nat) (d : Drawing PDFEmbeddedPage PDFImage) : M unit :=
  fun w => (Ok tt,
            {| mergedPdf :=
                 modify_nth page
                   (fun p => {| pageSize := pageSize p;
                                drawings := drawings p ++ [d] |})
                   (mergedPdf w);
               log := log w |}).

(** The body of [embeddedPages.forEach]. *)
Definition placeEmbeddedPage (embeddedPage : PDFEmbeddedPage) : M unit :=
  let width := Size.width (embeddedPage_size embeddedPage) in
  let height := Size.height (embeddedPage_size embeddedPage) in
  let scaleFactor := divide TARGET_WIDTH width in
  let scaledHeight := times height scaleFactor in
  page <- addPage (TARGET_WIDTH, scaledHeight) ;;
  draw page (DrawPage embeddedPage
               (DrawOptions.mk (ofN 0) (ofN 0) TARGET_WIDTH scaledHeight)).

(** The [if (image) { ... }] block; a [PDFImage] object is always truthy. *)
Definition placeImage (image : PDFImage) : M unit :=
  let width := Size.width (scale image (ofN 1)) in
  let height := Size.height (scale image (ofN 1)) in
  let scaleFactor := divide TARGET_WIDTH width in
  let scaledHeight := times height scaleFactor in
  page <- addPage (TARGET_WIDTH, scaledHeight) ;;
  draw page (DrawImage image
               (DrawOptions.mk (ofN 0) (ofN 0) TARGET_WIDTH scaledHeight)).

Fixpoint forEach {A} (f : A -> M unit) (l : list A) : M unit :=
  match l with
  | [] => ret tt
  | a :: l' => f a ;; forEach f l'
  end.

(** ** Source adapter *)

Definition call_load (b : bytes) : M SourcePdf :=
  emit (CallLoad b) ;; lift (PDFDocument_load b).

Definition call_embedPages (ps : list SourcePage) : M (list PDFEmbeddedPage) :=
  emit (CallEmbedPages ps) ;; lift (embedPages ps).

Definition call_embedPng (b : bytes) : M PDFImage :=
  emit (CallEmbedPng b) ;; lift (embedPng b).

Definition call_embedJpg (b : bytes) : M PDFImage :=
  emit (CallEmbedJpg b) ;; lift (embedJpg b).

(** The nested [try]/[catch] around the embedding of an image. *)
Definition embedImage (imageBytes : bytes) (isPng : bool) : M PDFImage :=
  try_catch
    (if isPng then call_embedPng imageBytes else call_embedJpg imageBytes)
    (fun _ =>
       try_catch (call_embedJpg imageBytes)
                 (fun _ => call_embedPng imageBytes)).

(** The body of the outer [try] for one input. *)
Definition processFile (fileData : UploadedFile) (level : CompressionLevel)
  : M unit :=
  match type fileData with
  | pdf =>
      let arrayBuffer := arrayBuffer (file fileData) in
      sourcePdf <- call_load arrayBuffer ;;
      embeddedPages <- call_embedPages (getPages sourcePdf) ;;
      forEach placeEmbeddedPage embeddedPages
  | _ =>
      let inputData := match convertedBlob fileData with
                       | Some blob => IsUint8Array blob
                       | None => IsFile (file fileData)
                       end in
      r <- processImage inputData level ;;
      image <- embedImage (data r) (isPng r) ;;
      placeImage image
  end.

(** ** Orchestrator: [mergeFiles] *)

(** Decimal rendering of a count inside a template string. *)
Definition decimal (n : nat) : string := NilZero.string_of_uint (Nat.to_uint n).

(** [Math.round(((i + 1) / totalFiles) * 100)] *)
Definition progressOf (i totalFiles : nat) : Z :=
  Math_round (times (divide (ofN (N.of_nat (i + 1))) (ofN (N.of_nat totalFiles)))
                    (ofN 100)).

Definition processingMessage (i : nat) (name : string) : string :=
  ("正在处理第 " ++ decimal (i + 1) ++ " 个文件: " ++ name ++ "...")%string.

(** [error instanceof Error ? error.message : '未知错误'] *)
Definition errorText (error : Thrown) : string :=
  match error with
  | JsError message => message
  | NotAnError _ => "未知错误"
  end.

Definition mergeError (name : string) (error : Thrown) : Thrown :=
  JsError ("合并文件 " ++ name ++ " 时出错: " ++ errorText error)%string.

Definition finalMessage : string := "正在打包生成最终文件...".

(** The [for] loop from index [i] on, over the files not yet visited. *)
Fixpoint loop (level : CompressionLevel) (totalFiles i : nat)
  (files : list UploadedFile) : M unit :=
  match files with
  | [] => ret tt
  | fileData :: rest =>
      let file := file fileData in
      let progress := progressOf i totalFiles in
      emit (OnProgress (processingMessage i (name file)) progress) ;;
      try_catch (processFile fileData level)
                (fun error => throw (mergeError (name file) error)) ;;
      loop level totalFiles (S i) rest
  end.

(** The page [addPage()] makes when it is given no size: a page of the
    size pdf-lib chooses, without any drawing. *)
Definition defaultPage : Page :=
  {| pageSize := blankPageSize; drawings := [] |}.

(** [save()] of a document with the given pages.  With the options left at
    their defaults, as here, pdf-lib first adds a blank page to a document
    that has none ([addDefaultPage]), then writes the document. *)
Definition save (pages : list Page) : Result bytes :=
  serialize (match pages with
             | [] => [defaultPage]
             | _ => pages
             end).

(** [mergedPdf.save()] on the document as it stands.  The document is not
    used after the call; the world keeps the pages [mergeFiles] appended. *)
Definition call_save : M bytes :=
  fun w => (emit (CallSave (mergedPdf w)) ;; lift (save (mergedPdf w))) w.

(** The document is created empty by [PDFDocument.create()]; only the log is
    inherited from the caller's world. *)
Definition mergeFiles (files : list UploadedFile) (level : CompressionLevel)
  : M bytes :=
  fun w0 =>
    (let totalFiles := List.length files in
     loop level totalFiles 0 files ;;
     emit (OnProgress finalMessage 100) ;;
     call_save)
      {| mergedPdf := []; log := log w0 |}.

End Program.
(** ** Vocabulary of the statements *)

Definition PNG_SIGNATURE : bytes := [x89; x50; x4e; x47].

Definition JPEG_SOI : bytes := [xff; xd8].

(** [sub] occurs in [s]. *)
Definition contains (sub s : string) : Prop :=
  exists before after, s = (before ++ sub ++ after)%string.

Section Vocabulary.

Context {E : Env}.

(** The bytes [processImage] decodes on its general path. *)
Definition sourceOf (input : ImageInput) : bytes :=
  match input with
  | IsFile f => arrayBuffer f
  | IsUint8Array b => b
  end.

(** The general path of [processImage] is the one taken: the policy
    compresses, or the input is a converted raster, or the sniffer does not
    know the codec. *)
Definition generalPath (input : ImageInput) (level : CompressionLevel) : Prop :=
  level <> none
  \/ (exists b, input = IsUint8Array b)
  \/ (exists f, input = IsFile f /\ detectImageType (arrayBuffer f) = unknown).

(** The empty world and the extension of a world by what a computation
    adds to it. *)
Definition W0 : World := {| mergedPdf := []; log := [] |}.

Definition Wapp (w d : World) : World :=
  {| mergedPdf := mergedPdf w ++ mergedPdf d; log := log w ++ log d |}.

(** [m] does the same in every world: its result does not depend on the
    world it starts in, and it only appends pages and events, the same ones
    everywhere. *)
Definition framed {A} (m : M A) : Prop :=
  forall w, m w = (fst (m W0), Wapp w (snd (m W0))).

(** What processing one input does, read off a run in the empty world. *)
Definition fileResult (f : UploadedFile) (level : CompressionLevel) : Result unit :=
  fst (processFile f level W0).

Definition filePages (f : UploadedFile) (level : CompressionLevel) : list Page :=
  mergedPdf (snd (processFile f level W0)).

Definition fileEvents (f : UploadedFile) (level : CompressionLevel) : list Event :=
  log (snd (processFile f level W0)).

Definition isOnProgress (e : Event) : bool :=
  match e with OnProgress _ _ => true | _ => false end.

Definition isCallSave (e : Event) : bool :=
  match e with CallSave _ => true | _ => false end.

(** The finalize-stage progress event. *)
Definition isFinalize (e : Event) : bool :=
  match e with
  | OnProgress msg percent => String.eqb msg finalMessage && (percent =? 100)%Z
  | _ => false
  end.

(** The codecs of the embed calls in a log, in call order. *)
Definition embedCalls (l : list Event) : list MimeType :=
  flat_map (fun e => match e with
                     | CallEmbedPng _ => [image_png]
                     | CallEmbedJpg _ => [image_jpeg]
                     | _ => []
                     end) l.

(** The codec [processImage] reports through [isPng], and the other one. *)
Definition reportedCodec (isPng : bool) : MimeType :=
  if isPng then image_png else image_jpeg.

Definition opposite (c : MimeType) : MimeType :=
  match c with image_png => image_jpeg | image_jpeg => image_png end.

Definition embedWith (c : MimeType) (b : bytes) : Result PDFImage :=
  match c with image_png => embedPng b | image_jpeg => embedJpg b end.

Definition callEmbed (c : MimeType) (b : bytes) : Event :=
  match c with image_png => CallEmbedPng b | image_jpeg => CallEmbedJpg b end.


(** The intrinsic size of what a drawing places, and where it places it. *)
Definition intrinsicSize (d : Drawing PDFEmbeddedPage PDFImage) : Size.t :=
  match d with
  | DrawPage ep _ => embeddedPage_size ep
  | DrawImage im _ => scale im (ofN 1)
  end.

Definition optionsOf (d : Drawing PDFEmbeddedPage PDFImage) : DrawOptions.t :=
  match d with
  | DrawPage _ o => o
  | DrawImage _ o => o
  end.

(** The geometry rule for one page of the output document, in the
    operations of the code. *)
Definition normalizedPage (p : Page) : Prop :=
  exists d,
    drawings p = [d]
    /\ fst (pageSize p) = lit 595.28
    /\ snd (pageSize p)
       = times (Size.height (intrinsicSize d))
               (divide (lit 595.28) (Size.width (intrinsicSize d)))
    /\ DrawOptions.x (optionsOf d) = ofN 0
    /\ DrawOptions.y (optionsOf d) = ofN 0
    /\ DrawOptions.width (optionsOf d) = fst (pageSize p)
    /\ DrawOptions.height (optionsOf d) = snd (pageSize p).

(** Sizes far from overflow and underflow: between 2^-500 and 2^500. *)
Definition moderate (a : Q) : Prop :=
  ((1 # (2 ^ 500)) <= a)%Q /\ (a <= inject_Z (2 ^ 500))%Q.

(** The height of [p] over its width is the intrinsic height over the
    intrinsic width up to two roundings. *)
Definition ratioKept (p : Page) : Prop :=
  forall d a b,
    drawings p = [d] ->
    toQ (Size.width (intrinsicSize d)) = Some a ->
    toQ (Size.height (intrinsicSize d)) = Some b ->
    moderate a -> moderate b ->
    exists t c,
      toQ (fst (pageSize p)) = Some t
      /\ toQ (snd (pageSize p)) = Some c
      /\ ((1 - ulp) * (1 - ulp) * (b / a) <= c / t)%Q
      /\ (c / t <= (1 + ulp) * (1 + ulp) * (b / a))%Q.

(** Events an input's processing may emit: neither progress reports nor the
    final serialization. *)
Definition perFileEvent (e : Event) : Prop :=
  isOnProgress e = false /\ isCallSave e = false.

(** [m] does the same in every world, emits only per-input events and
    appends only pages that obey the geometry rule. *)
Definition tame {A} (m : M A) : Prop :=
  framed m
  /\ Forall perFileEvent (log (snd (m W0)))
  /\ Forall normalizedPage (mergedPdf (snd (m W0))).

(** What one turn of the loop adds to the world for input [f] at index [i]. *)
Definition turn (level : CompressionLevel) (totalFiles i : nat)
  (f : UploadedFile) : World :=
  {| mergedPdf := filePages f level;
     log := OnProgress (processingMessage i (name (file f)))
                       (progressOf i totalFiles)
            :: fileEvents f level |}.

(** The events of the loop over [files], the first of which has index [i],
    when every input is processed to the end of its turn. *)
Definition loopLog (level : CompressionLevel) (totalFiles i : nat)
  (files : list UploadedFile) : list Event :=
  List.concat (map (fun p => log (turn level totalFiles (fst p) (snd p)))
              (combine (seq i (List.length files)) files)).

(** The pages contributed by each input, input by input. *)
Definition contributions (level : CompressionLevel) (files : list UploadedFile)
  : list (list Page) :=
  map (fun f => filePages f level) files.

(** The resized edge, for an image larger than the cap [m]: the width is
    [m] and the height [m / (w / h)] when the image is wider than high,
    else the height is [m] and the width [m * (w / h)]; the canvas keeps
    the whole pixels of each. *)
Definition fitted (m : N) (img : Pixels.t) : Pixels.t :=
  let w := ofN (Pixels.width img) in
  let h := ofN (Pixels.height img) in
  if (Pixels.height img <? Pixels.width img)%N
  then Pixels.mk (toUint32 (ofN m)) (toUint32 (divide (ofN m) (divide w h)))
  else Pixels.mk (toUint32 (times (ofN m) (divide w h))) (toUint32 (ofN m)).

End Vocabulary.

(** What was thrown, as text: the cause of a failure. *)
Definition thrownText (e : Thrown) : string :=
  match e with
  | JsError message => message
  | NotAnError value => value
  end.

(** ** Small concrete environments

    Used to run the code on concrete inputs.  A toy PDF is the four bytes
    [%PDF] followed by one (width, height) byte pair per page; a toy image is
    a four byte signature followed by a (width, height) byte pair; sizes are
    in hundreds.  The environments differ in the arithmetic and in the
    collaborators named by the arguments of [toyEnvWith]. *)

Definition toy_magic : bytes := [x25; x50; x44; x46].

Definition bytes_eqb (a b : bytes) : bool :=
  if list_eq_dec byte_eq_dec a b then true else false.

Definition toy_load (b : bytes) : Result bytes :=
  if bytes_eqb (firstn 4 b) toy_magic then Ok (skipn 4 b)
  else Throw (JsError "Failed to parse PDF document").

Definition toy_pixels (b : bytes) : Pixels.t :=
  Pixels.mk (100 * Byte.to_N (nth 4 b x00)) (100 * Byte.to_N (nth 5 b x00)).

Definition toy_Image_load (b : bytes) : option Pixels.t :=
  if (List.length b <? 6)%nat then None else Some (toy_pixels b).

Definition toy_byte (n : N) : byte :=
  match Byte.of_N (n / 100) with
  | Some b => b
  | None => xff
  end.

Section ToyParts.

Context {Nb : JsNumber}.

Definition toy_dim (b : byte) : number := ofN (100 * Byte.to_N b).

Fixpoint toy_pages (fuel : nat) (b : bytes) : list Size.t :=
  match fuel, b with
  | S fuel', w :: h :: rest => Size.mk (toy_dim w) (toy_dim h) :: toy_pages fuel' rest
  | _, _ => []
  end.

Definition toy_getPages (b : bytes) : list Size.t := toy_pages (List.length b) b.

Definition toy_image (b : bytes) : Size.t :=
  Size.mk (toy_dim (nth 4 b x00)) (toy_dim (nth 5 b x00)).

Definition toy_embedPng (b : bytes) : Result Size.t :=
  match detectImageType b with
  | png => Ok (toy_image b)
  | _ => Throw (JsError "The input is not a PNG file!")
  end.

Definition toy_embedJpg (b : bytes) : Result Size.t :=
  match detectImageType b with
  | jpg => Ok (toy_image b)
  | _ => Throw (JsError "SOI not found in JPEG")
  end.

Definition toy_toBlob (src : bytes) (canvas : Pixels.t) (size : Size.t)
  (m : MimeType) (q : number) : option bytes :=
  Some ((match m with
         | image_png => [x89; x50; x4e; x47]
         | image_jpeg => [xff; xd8; xff; xe0]
         end)
        ++ [toy_byte (Pixels.width canvas); toy_byte (Pixels.height canvas)]).

Definition toy_save (pages : list (PDFPage Size.t Size.t)) : Result bytes :=
  Ok (toy_magic ++ repeat x01 (List.length pages)).

Definition toyEnvWith
  (getPages_ : bytes -> list Size.t)
  (embedPng_ embedJpg_ : bytes -> Result Size.t)
  (Image_load_ : bytes -> option Pixels.t)
  (serialize_ : list (PDFPage Size.t Size.t) -> Result bytes) : Env := {|
  JsNum := Nb;
  SourcePdf := bytes;
  SourcePage := Size.t;
  PDFEmbeddedPage := Size.t;
  PDFImage := Size.t;
  PDFDocument_load := toy_load;
  getPages := getPages_;
  embedPages := fun ps => Ok ps;
  embeddedPage_size := fun p => p;
  embedPng := embedPng_;
  embedJpg := embedJpg_;
  scale := fun im factor =>
             Size.mk (times (Size.width im) factor) (times (Size.height im) factor);
  Image_load := Image_load_;
  getContext_2d := true;
  toBlob := toy_toBlob;
  blankPageSize := (lit 595.28, lit 841.89);
  serialize := serialize_
|}.

End ToyParts.

(** The toy environment in the arithmetic of the code, in either
    rendering, and in exact arithmetic. *)
Definition toyEnv : Env :=
  @toyEnvWith Double toy_getPages toy_embedPng toy_embedJpg toy_Image_load toy_save.

Definition toyEnv64 : Env :=
  @toyEnvWith Binary64 toy_getPages toy_embedPng toy_embedJpg toy_Image_load toy_save.

Definition exactEnv : Env :=
  @toyEnvWith Exact toy_getPages toy_embedPng toy_embedJpg toy_Image_load toy_save.

(** The toy environment with a serializer that always throws. *)
Definition toyEnvFailingSave : Env :=
  @toyEnvWith Double toy_getPages toy_embedPng toy_embedJpg toy_Image_load
    (fun _ => Throw (JsError "Out of memory")).

(** An environment in which every PDF has one US Letter page, 612 by 792
    points. *)
Definition letterEnv : Env :=
  @toyEnvWith Double (fun _ => [Size.mk (ofN 612) (ofN 792)])
    toy_embedPng toy_embedJpg toy_Image_load toy_save.

Definition letterEnv64 : Env :=
  @toyEnvWith Binary64 (fun _ => [Size.mk (ofN 612) (ofN 792)])
    toy_embedPng toy_embedJpg toy_Image_load toy_save.

(** An environment in which every image decodes to 3000 by 62 pixels. *)
Definition stripEnv : Env :=
  @toyEnvWith Double toy_getPages toy_embedPng toy_embedJpg
    (fun _ => Some (Pixels.mk 3000 62)) toy_save.

Definition stripEnv64 : Env :=
  @toyEnvWith Binary64 toy_getPages toy_embedPng toy_embedJpg
    (fun _ => Some (Pixels.mk 3000 62)) toy_save.

(** An environment whose codecs reject every image the way those of
    pdf-lib do: the PNG decoder throws a string, the JPEG decoder an
    [Error]. *)
Definition rejectingEnv : Env :=
  @toyEnvWith Double toy_getPages
    (fun _ => Throw (NotAnError "The input is not a PNG file!"))
    (fun _ => Throw (JsError "SOI not found in JPEG"))
    toy_Image_load toy_save.

(** Inputs for the toy environment: [A.pdf], one page of 300 by 300;
    [B.png], 600 by 300; a PDF without pages; an image whose bytes neither
    codec accepts; an image too short to decode; a large BMP. *)
Definition A_pdf : UploadedFile :=
  {| file := {| name := "A.pdf"; arrayBuffer := toy_magic ++ [x03; x03] |};
     type := pdf; convertedBlob := None |}.

Definition B_png : UploadedFile :=
  {| file := {| name := "B.png";
                arrayBuffer := [x89; x50; x4e; x47; x06; x03] |};
     type := image; convertedBlob := None |}.

Definition empty_pdf : UploadedFile :=
  {| file := {| name := "empty.pdf"; arrayBuffer := toy_magic |};
     type := pdf; convertedBlob := None |}.

Definition broken_img : UploadedFile :=
  {| file := {| name := "broken.gif"; arrayBuffer := [x47; x49; x46] |};
     type := image; convertedBlob := None |}.

Definition big_bmp : File :=
  {| name := "big.bmp"; arrayBuffer := [x42; x4d; x00; x00; x28; x14] |}.

(** The run of the end-to-end scenario and the bytes it returns. *)
Definition toy_run : Result bytes * @World toyEnv :=
  @mergeFiles toyEnv [A_pdf; B_png] none (@W0 toyEnv).

Definition toy_out : bytes := toy_magic ++ [x01; x01].

(** ** More vocabulary *)

Section MoreVocabulary.

Context {E : Env}.

(** The two calls the PDF branch makes. *)
Definition isPdfCall (e : Event) : bool :=
  match e with
  | CallLoad _ | CallEmbedPages _ => true
  | _ => false
  end.

(** The page [mergeFiles] composes for an image. *)
Definition imagePage (im : PDFImage) : Page :=
  {| pageSize := (lit 595.28,
                  times (Size.height (scale im (ofN 1)))
                        (divide (lit 595.28) (Size.width (scale im (ofN 1)))));
     drawings :=
       [DrawImage im
          (DrawOptions.mk (ofN 0) (ofN 0) (lit 595.28)
             (times (Size.height (scale im (ofN 1)))
                    (divide (lit 595.28) (Size.width (scale im (ofN 1))))))] |}.

End MoreVocabulary.

(** * The history log ([historyService.ts], first part)

    [localStorage] is the string stored under each key; access to it is taken
    to be granted.  [JSON.stringify] and [JSON.parse] are external.
    [JSON.parse] returns a JSON value of any shape, or throws: the annotation
    [HistoryItem[]] of [getHistory] is not checked at run time, so what
    [getHistory] returns is whatever was parsed.  [localStorage.setItem]
    stores the value or throws (quota); which of the two is external as
    well, and so is the message of the [TypeError] the engine throws when a
    value is used in a way it does not support. *)

#[local] Unset Elimination Schemes.

Inductive Json :=
| JNull
| JBool (b : bool)
| JNumber (n : Q)
| JString (s : string)
| JArray (elements : list Json)
| JObject (properties : list (string * Json)).

#[local] Set Elimination Schemes.

Module HistoryItem.
Record t := mk {
  id : string;
  timestamp : Z;
  outputFilename : string;
  fileCount : nat;
  fileNames : list string;
  totalSize : string
}.
End HistoryItem.

(** The object of a [HistoryItem]. *)
Definition itemJson (item : HistoryItem.t) : Json :=
  JObject [("id", JString (HistoryItem.id item));
           ("timestamp", JNumber (inject_Z (HistoryItem.timestamp item)));
           ("outputFilename", JString (HistoryItem.outputFilename item));
           ("fileCount", JNumber (inject_Z (Z.of_nat (HistoryItem.fileCount item))));
           ("fileNames", JArray (map JString (HistoryItem.fileNames item)));
           ("totalSize", JString (HistoryItem.totalSize item))]%string.

Definition STORAGE_KEY : string := "pdf_merger_history".

Definition MAX_HISTORY_ITEMS : nat := 50.

Definition Storage := string -> option string.

Class HistoryEnv := {
  JSON_stringify : Json -> string;
  JSON_parse : string -> Result Json;
  (** [Some e]: [localStorage.setItem(key, value)] throws [e] *)
  setItem_throws : Storage -> string -> string -> option Thrown;
  (** the message of the [TypeError] raised on a value that is not
      iterable, has no [filter], or is [null] where a property is read *)
  TypeError_message : Json -> string
}.

(** ** Values at run time *)

(** [0x80]..[0xBF]: a byte that continues a character of the UTF-8 text. *)
Definition isContinuation (c : ascii) : bool :=
  (128 <=? nat_of_ascii c)%nat && (nat_of_ascii c <? 192)%nat.

(** The continuation bytes [s] starts with, and the characters after
    them. *)
Fixpoint characters (s : string) : string * list string :=
  match s with
  | EmptyString => (EmptyString, [])
  | String c r =>
      let '(pending, chars) := characters r in
      if isContinuation c then (String c pending, chars)
      else (EmptyString, String c pending :: chars)
  end.

(** The strings a string yields when it is iterated: one per character. *)
Definition codePoints (s : string) : list string :=
  match characters s with
  | (EmptyString, chars) => chars
  | (stray, chars) => stray :: chars
  end.

(** [object[key]] on the properties of an object; a later property of the
    same name wins. *)
Fixpoint property (key : string) (properties : list (string * Json))
  : option Json :=
  match properties with
  | [] => None
  | (k, v) :: rest =>
      match property key rest with
      | Some v' => Some v'
      | None => if String.eqb k key then Some v else None
      end
  end.

Section HistoryService.

Context {H : HistoryEnv}.

Definition TypeError (v : Json) : Thrown := JsError (TypeError_message v).

(** [...current]: the elements of an array, the characters of a string;
    no other JSON value is iterable. *)
Definition spread (current : Json) : Result (list Json) :=
  match current with
  | JArray elements => Ok elements
  | JString s => Ok (map JString (codePoints s))
  | _ => Throw (TypeError current)
  end.

(** [item.id !== id]: reading a property of [null] throws; a value without
    an [id] has the id [undefined], which differs from every string. *)
Definition idDiffers (id : string) (item : Json) : Result bool :=
  match item with
  | JNull => Throw (TypeError item)
  | JObject properties =>
      Ok (match property "id" properties with
          | Some (JString s) => negb (String.eqb s id)
          | _ => true
          end)
  | _ => Ok true
  end.

(** [elements.filter(item => item.id !== id)] *)
Fixpoint filterItems (id : string) (elements : list Json) : Result (list Json) :=
  match elements with
  | [] => Ok []
  | item :: rest =>
      match idDiffers id item with
      | Throw e => Throw e
      | Ok keep =>
          match filterItems id rest with
          | Throw e => Throw e
          | Ok kept => Ok (if keep then item :: kept else kept)
          end
      end
  end.

(** [current.filter(...)]: only an array has a [filter]. *)
Definition filterById (id : string) (current : Json) : Result (list Json) :=
  match current with
  | JArray elements => filterItems id elements
  | _ => Throw (TypeError current)
  end.

(** ** The service *)

Definition getItem (s : Storage) (key : string) : option string := s key.

Definition store (s : Storage) (key value : string) : Storage :=
  fun k => if String.eqb k key then Some value else s k.

Definition setItem (s : Storage) (key value : string) : Result unit * Storage :=
  match setItem_throws s key value with
  | Some e => (Throw e, s)
  | None => (Ok tt, store s key value)
  end.

Definition removeItem (s : Storage) (key : string) : Storage :=
  fun k => if String.eqb k key then None else s k.

(** [json ? JSON.parse(json) : []] inside [try]/[catch]: [null] and the
    empty string are falsy. *)
Definition getHistory (s : Storage) : Json :=
  match getItem s STORAGE_KEY with
  | None => JArray []
  | Some json =>
      if String.eqb json "" then JArray []
      else match JSON_parse json with
           | Ok value => value
           | Throw _ => JArray []
           end
  end.

(** The whole body is inside [try]/[catch]: whatever is thrown, by the
    spread or by [setItem], the result is the empty array. *)
Definition addHistoryItem (item : HistoryItem.t) (s : Storage)
  : Json * Storage :=
  let current := getHistory s in
  match spread current with
  | Throw _ => (JArray [], s)
  | Ok elements =>
      let updated := JArray (firstn MAX_HISTORY_ITEMS (itemJson item :: elements)) in
      match setItem s STORAGE_KEY (JSON_stringify updated) with
      | (Ok _, s') => (updated, s')
      | (Throw _, s') => (JArray [], s')
      end
  end.

Definition clearHistory (s : Storage) : Storage := removeItem s STORAGE_KEY.

(** Nothing is caught here. *)
Definition deleteHistoryItem (id : string) (s : Storage)
  : Result Json * Storage :=
  let current := getHistory s in
  match filterById id current with
  | Throw e => (Throw e, s)
  | Ok kept =>
      let updated := JArray kept in
      match setItem s STORAGE_KEY (JSON_stringify updated) with
      | (Ok _, s') => (Ok updated, s')
      | (Throw e, s') => (Throw e, s')
      end
  end.

End HistoryService.

(** The id of an element when it is an object with a string [id]. *)
Definition idOf (item : Json) : option string :=
  match item with
  | JObject properties =>
      match property "id" properties with
      | Some (JString s) => Some s
      | _ => None
      end
  | _ => None
  end.

Definition hasId (id : string) (item : Json) : bool :=
  match idOf item with
  | Some s => String.eqb s id
  | None => false
  end.

(** The values [...] can spread. *)
Definition iterable (value : Json) : bool :=
  match value with
  | JArray _ | JString _ => true
  | _ => false
  end.

Definition isArray (value : Json) : bool :=
  match value with
  | JArray _ => true
  | _ => false
  end.

(** * The application ([App.tsx])

    The pure part of the component: how an upload is classified, how the
    list is reordered, how conversions and a merge change the state.  React
    state setters are assignments to the fields of [State]; object URLs are
    represented by what they were created from; [Date.now()],
    [Math.random()] and [formatSize] (floating point) are inputs. *)

Module App.

(** ** String helpers *)

Definition isDot (c : ascii) : bool := Ascii.eqb c "."%char.

(** [s.split('.')] *)
Fixpoint split_dot (s : string) : list string :=
  match s with
  | EmptyString => [EmptyString]
  | String c r =>
      if isDot c then EmptyString :: split_dot r
      else match split_dot r with
           | seg :: segs => String c seg :: segs
           | [] => [String c EmptyString]
           end
  end.

(** [array.pop()]: the last element, [undefined] on an empty array *)
Definition pop (l : list string) : option string :=
  match l with
  | [] => None
  | _ => Some (last l EmptyString)
  end.

(** [toLowerCase], on the letters A to Z.  The results are only compared
    with lower-case ASCII literals without a [k], which no other character
    lower-cases into. *)
Definition lowerChar (c : ascii) : ascii :=
  let n := nat_of_ascii c in
  if (65 <=? n)%nat && (n <=? 90)%nat then ascii_of_nat (n + 32) else c.

Fixpoint toLowerCase (s : string) : string :=
  match s with
  | EmptyString => EmptyString
  | String c r => String (lowerChar c) (toLowerCase r)
  end.

(** [name.split('.').pop()?.toLowerCase()] *)
Definition typeStrOf (name : string) : option string :=
  option_map toLowerCase (pop (split_dot name)).

(** [typeStr === literal] *)
Definition typeIs (typeStr : option string) (literal : string) : bool :=
  match typeStr with
  | Some t => String.eqb t literal
  | None => false
  end.

(** [s.lastIndexOf('.')], [None] for -1 *)
Fixpoint lastIndexOf_dot (s : string) : option nat :=
  match s with
  | EmptyString => None
  | String c r =>
      match lastIndexOf_dot r with
      | Some i => Some (S i)
      | None => if isDot c then Some 0 else None
      end
  end.

(** [name.substring(0, name.lastIndexOf('.')) || name] *)
Definition baseNameOf (name : string) : string :=
  let cut := match lastIndexOf_dot name with
             | Some i => substring 0 i name
             | None => EmptyString
             end in
  if String.eqb cut "" then name else cut.

(** ** Uploaded files as the component holds them *)

Inductive PreviewSource :=
| PreviewOfFile (f : File)
| PreviewOfBlob (b : bytes) (mime : string).

(** [UploadedFile] with the fields only the component reads; [mime] is
    [file.type]. *)
Record AppFile := {
  uploaded : UploadedFile;
  id : string;
  mime : string;
  previewUrl : option PreviewSource;
  isConverting : bool
}.

(** [processFile] of [App.tsx], given the identifier it draws. *)
Definition processFile (newId : string) (file : File) (fileMime : string)
  : AppFile :=
  let typeStr := typeStrOf (name file) in
  let '(type, isConverting) :=
    if String.eqb fileMime "application/pdf" || typeIs typeStr "pdf"
    then (pdf, false)
    else if typeIs typeStr "docx" || typeIs typeStr "doc"
    then (docx, true)
    else if typeIs typeStr "xlsx" || typeIs typeStr "xls"
    then (xlsx, true)
    else if typeIs typeStr "heic" || typeIs typeStr "heif"
            || String.eqb fileMime "image/heic"
            || String.eqb fileMime "image/heif"
    then (image, true)
    else (image, false) in
  let previewUrl :=
    match type, isConverting with
    | image, false => Some (PreviewOfFile file)
    | _, _ => None
    end in
  {| uploaded := {| file := file; type := type; convertedBlob := None |};
     id := newId;
     mime := fileMime;
     previewUrl := previewUrl;
     isConverting := isConverting |}.

(** ** Conversions *)

Class ConvertEnv := {
  convertDocxToImage : File -> Result bytes;
  convertXlsxToImage : File -> Result bytes;
  (** [heic2any(...)] followed by [arrayBuffer()] of its first result *)
  heic2any : File -> Result bytes
}.

Section Conversions.

Context {C : ConvertEnv}.

(** The [blob] one turn of the loop of [processConversions] ends with
    ([None] for [null]), or what the outer [catch] receives. *)
Definition convertedBytes (f : AppFile) : Result (option bytes) :=
  let typeStr := typeStrOf (name (file (uploaded f))) in
  match type (uploaded f) with
  | docx =>
      match convertDocxToImage (file (uploaded f)) with
      | Ok blob => Ok (Some blob)
      | Throw e => Throw e
      end
  | xlsx =>
      match convertXlsxToImage (file (uploaded f)) with
      | Ok blob => Ok (Some blob)
      | Throw e => Throw e
      end
  | _ =>
      if typeIs typeStr "heic" || typeIs typeStr "heif"
      then match heic2any (file (uploaded f)) with
           | Ok blob => Ok (Some blob)
           | Throw _ => Ok None
           end
      else Ok None
  end.

(** One turn of the loop: the object [f] after it. *)
Definition convertOne (f : AppFile) : AppFile :=
  match isConverting f, convertedBlob (uploaded f) with
  | true, None =>
      let typeStr := typeStrOf (name (file (uploaded f))) in
      match convertedBytes f with
      | Ok (Some blob) =>
          let mimeType := if typeIs typeStr "heic" || typeIs typeStr "heif"
                          then "image/jpeg"%string else "image/png"%string in
          {| uploaded := {| file := file (uploaded f);
                            type := type (uploaded f);
                            convertedBlob := Some blob |};
             id := id f;
             mime := mime f;
             previewUrl := Some (PreviewOfBlob blob mimeType);
             isConverting := false |}
      | Ok None => f
      | Throw _ =>
          {| uploaded := uploaded f;
             id := id f;
             mime := mime f;
             previewUrl := previewUrl f;
             isConverting := false |}
      end
  | _, _ => f
  end.

(** The objects of [fileList] after [processConversions]; the re-render it
    requests is not represented. *)
Definition processConversions (fileList : list AppFile) : list AppFile :=
  map convertOne fileList.

End Conversions.

(** ** List handlers *)

(** The state updater of [handleReorder]: [splice(fromIndex, 1)] then
    [splice(toIndex, 0, removed)], for indices that are not negative.  An
    entry [None] is [undefined], which is what is inserted when nothing was
    removed. *)
Definition handleReorder {A} (fromIndex toIndex : nat) (prevFiles : list A)
  : list (option A) :=
  let removed := nth_error prevFiles fromIndex in
  let result := firstn fromIndex prevFiles ++ skipn (S fromIndex) prevFiles in
  map Some (firstn toIndex result) ++ removed :: map Some (skipn toIndex result).

(** ** Merging *)

Record MergeStatus := {
  isProcessing : bool;
  message : string;
  progress : Z
}.

(** [downloadUrl], the object URL of [mergedBlob], is not kept apart from
    it. *)
Record State := {
  files : list AppFile;
  compressionLevel : CompressionLevel;
  status : MergeStatus;
  mergedBlob : option bytes;
  outputFilename : string;
  history : Json
}.

Class AppEnv := {
  formatSize : Z -> string
}.

Section Merging.

Context {E : Env} {H : HistoryEnv} {A : AppEnv}.

(** What [handleMerge] leaves behind: the state, the storage, the world of
    the pipeline and the alerts shown. *)
Record Outcome := {
  state : State;
  storage : Storage;
  world : World;
  alerts : list string
}.

(** [file.size] is the number of bytes of the file. *)
Definition size (f : File) : Z := Z.of_nat (List.length (arrayBuffer f)).

Definition handleMerge (st : State) (nowId nowTimestamp : nat)
  (s : Storage) (w : World) : Outcome :=
  match files st with
  | [] => {| state := st; storage := s; world := w; alerts := [] |}
  | first :: _ =>
      if existsb isConverting (files st)
      then {| state := st; storage := s; world := w;
              alerts := ["部分文件 (Word/Excel/HEIC) 正在进行格式转换，请稍候..."%string] |}
      else
        match mergeFiles (map uploaded (files st)) (compressionLevel st) w with
        | (Ok pdfBytes, w') =>
            let firstFileName := name (file (uploaded first)) in
            let baseName := baseNameOf firstFileName in
            let finalName :=
              if String.eqb (outputFilename st) "merged-document"
              then (baseName ++ "_merged")%string
              else outputFilename st in
            let totalSize :=
              fold_left (fun acc f => (acc + size (file (uploaded f)))%Z)
                        (files st) 0%Z in
            let newItem :=
              HistoryItem.mk (decimal nowId) (Z.of_nat nowTimestamp) finalName
                (List.length (files st))
                (map (fun f => name (file (uploaded f))) (files st))
                (formatSize totalSize) in
            let '(updatedHistory, s') := addHistoryItem newItem s in
            {| state := {| files := files st;
                           compressionLevel := compressionLevel st;
                           status := {| isProcessing := false;
                                        message := "合并成功！";
                                        progress := 100 |};
                           mergedBlob := Some pdfBytes;
                           outputFilename := finalName;
                           history := updatedHistory |};
               storage := s';
               world := w';
               alerts := [] |}
        | (Throw error, w') =>
            let errorMessage :=
              match error with
              | JsError m => m
              | NotAnError _ => "合并过程中发生未知错误"%string
              end in
            {| state := {| files := files st;
                           compressionLevel := compressionLevel st;
                           status := {| isProcessing := false;
                                        message := ("失败: " ++ errorMessage)%string;
                                        progress := 0 |};
                           mergedBlob := None;
                           outputFilename := outputFilename st;
                           history := history st |};
               storage := s;
               world := w';
               alerts := [("合并失败: " ++ errorMessage)%string] |}
        end
  end.

End Merging.

End App.

(** ** Vocabulary of the application statements *)

(** [s] contains a dot. *)
Fixpoint hasDot (s : string) : bool :=
  match s with
  | EmptyString => false
  | String c r => App.isDot c || hasDot r
  end.

(** The extension literals [processFile] and [processConversions] know. *)
Definition knownExtensions : list string :=
  ["pdf"; "docx"; "doc"; "xlsx"; "xls"; "heic"; "heif"]%string.


(** ** Concrete environments for the history log and the application *)

Definition item_a : HistoryItem.t :=
  HistoryItem.mk "a" 1 "first_merged" 1 ["first.pdf"%string] "6 B".

Definition item_b : HistoryItem.t :=
  HistoryItem.mk "b" 2 "second_merged" 2
    ["second.pdf"%string; "third.png"%string] "12 B".

(** A codec that knows the histories made of [item_a] and [item_b], written
    as the list of their ids, the empty object and [null]; storing fails
    while the key [quota] is set. *)
Definition toy_idText (item : Json) : string :=
  match idOf item with
  | Some s => s
  | None => "?"
  end.

Definition toy_stringify (value : Json) : string :=
  match value with
  | JArray elements =>
      ("[" ++ String.concat "," (map toy_idText elements) ++ "]")%string
  | JObject _ => "{}"
  | JNull => "null"
  | _ => "?"
  end.

Definition toy_parse (json : string) : Result Json :=
  if String.eqb json "[]" then Ok (JArray [])
  else if String.eqb json "[a]" then Ok (JArray [itemJson item_a])
  else if String.eqb json "[b]" then Ok (JArray [itemJson item_b])
  else if String.eqb json "[b,a]" then Ok (JArray [itemJson item_b; itemJson item_a])
  else if String.eqb json "{}" then Ok (JObject [])
  else if String.eqb json "null" then Ok JNull
  else if String.eqb json "[null]" then Ok (JArray [JNull])
  else Throw (JsError "Unexpected token in JSON").

Definition toyHistoryEnv : HistoryEnv := {|
  JSON_stringify := toy_stringify;
  JSON_parse := toy_parse;
  setItem_throws := fun s _ _ =>
    match s "quota"%string with
    | Some _ => Some (JsError "QuotaExceededError")
    | None => None
    end;
  TypeError_message := fun _ => "current is not iterable"%string
|}.

Definition noStorage : Storage := fun _ => None.

Definition storage_of (json : string) : Storage :=
  fun k => if String.eqb k STORAGE_KEY then Some json else None.

Definition storage_a : Storage := storage_of "[a]".

Definition storage_ba : Storage := storage_of "[b,a]".

Definition storage_corrupt : Storage := storage_of "{oops".

(** Stored texts that parse, but not to an array of items. *)
Definition storage_object : Storage := storage_of "{}".

Definition storage_null_item : Storage := storage_of "[null]".

Definition storage_full : Storage :=
  fun k => if String.eqb k "quota" then Some "1"%string else storage_a k.

(** Converters: the office renderers return a PNG of 200 by 300 for a file
    that has bytes and throw for an empty one; the HEIC codec always throws. *)
Definition toy_render (f : File) : Result bytes :=
  match arrayBuffer f with
  | [] => Throw (JsError "Canvas conversion failed")
  | _ => Ok [x89; x50; x4e; x47; x02; x03]
  end.

Definition toyConvertEnv : App.ConvertEnv := {|
  App.convertDocxToImage := toy_render;
  App.convertXlsxToImage := toy_render;
  App.heic2any := fun _ => Throw (JsError "ERR_LIBHEIF format not supported")
|}.

Definition toyAppEnv : App.AppEnv := {|
  App.formatSize := fun z => (decimal (Z.to_nat z) ++ " B")%string
|}.

(** More inputs: [B.png] declared as an office document; two inputs that
    carry the same converted bytes; uploads as the component holds them. *)
Definition B_as_docx : UploadedFile :=
  {| file := file B_png; type := docx; convertedBlob := None |}.

Definition converted_1 : UploadedFile :=
  {| file := {| name := "report.docx"; arrayBuffer := [x50; x4b] |};
     type := docx;
     convertedBlob := Some [x89; x50; x4e; x47; x02; x03] |}.

Definition converted_2 : UploadedFile :=
  {| file := {| name := "report.docx"; arrayBuffer := [x00] |};
     type := image;
     convertedBlob := Some [x89; x50; x4e; x47; x02; x03] |}.

Definition app_A : App.AppFile :=
  App.processFile "id-a" (file A_pdf) "application/pdf".

Definition app_B : App.AppFile :=
  App.processFile "id-b" (file B_png) "image/png".

Definition app_broken : App.AppFile :=
  App.processFile "id-x" (file broken_img) "image/gif".

Definition docx_file : File :=
  {| name := "Report.DOCX"; arrayBuffer := [x50; x4b; x03; x04] |}.

Definition empty_docx_file : File :=
  {| name := "empty.docx"; arrayBuffer := [] |}.

Definition heic_by_mime : File :=
  {| name := "IMG_0001.photo"; arrayBuffer := [x00; x00; x00; x18] |}.

Definition heic_file : File :=
  {| name := "IMG_0002.HEIC"; arrayBuffer := [x00; x00; x00; x18] |}.

Definition toy_state (fs : list App.AppFile) (outName : string) : App.State :=
  {| App.files := fs;
     App.compressionLevel := none;
     App.status := {| App.isProcessing := false; App.message := "";
                      App.progress := 0 |};
     App.mergedBlob := None;
     App.outputFilename := outName;
     App.history := JArray [] |}.
(** * Properties *)

Section Sniffer.

Lemma detect_png b :
  detectImageType b = png <-> firstn 4 b = PNG_SIGNATURE.
Proof.
  unfold detectImageType, PNG_SIGNATURE.
  destruct b as [|b0 [|b1 [|b2 [|b3 r]]]]; simpl;
    try (split; discriminate).
  unfold byte_at_is; simpl.
  destruct (Byte.eqb b0 x89) eqn:H0; simpl.
  2:{ split.
      - destruct (Byte.eqb b0 xff && Byte.eqb b1 xd8); discriminate.
      - intros H. injection H as -> _ _ _. discriminate. }
  destruct (Byte.eqb b1 x50) eqn:H1; simpl.
  2:{ apply byte_dec_bl in H0. subst b0. simpl. split; try discriminate.
      intros H. injection H as ->. discriminate. }
  destruct (Byte.eqb b2 x4e) eqn:H2; simpl.
  2:{ apply byte_dec_bl in H0. subst b0. simpl. split; try discriminate.
      intros H. injection H as _ ->. discriminate. }
  destruct (Byte.eqb b3 x47) eqn:H3; simpl.
  2:{ apply byte_dec_bl in H0. subst b0. simpl. split; try discriminate.
      intros H. injection H as _ _ ->. discriminate. }
  apply byte_dec_bl in H0, H1, H2, H3. subst. split; reflexivity.
Qed.

Lemma detect_jpg b :
  detectImageType b = jpg <->
  (4 <= List.length b)%nat /\ firstn 2 b = JPEG_SOI.
Proof.
  unfold detectImageType, JPEG_SOI.
  destruct b as [|b0 [|b1 [|b2 [|b3 r]]]]; simpl;
    try (split; [discriminate | intros [H _]; lia]).
  unfold byte_at_is; simpl.
  destruct (Byte.eqb b0 xff) eqn:H0; simpl.
  - apply byte_dec_bl in H0. subst b0. simpl.
    destruct (Byte.eqb b1 xd8) eqn:H1.
    + apply byte_dec_bl in H1. subst b1. split; [intros _; split; [lia|reflexivity] | reflexivity].
    + split; [discriminate|]. intros [_ H]. injection H as ->. discriminate.
  - split.
    + destruct (Byte.eqb b0 x89 && Byte.eqb b1 x50 && Byte.eqb b2 x4e && Byte.eqb b3 x47);
        discriminate.
    + intros [_ H]. injection H as -> _. discriminate.
Qed.

Lemma detect_short b :
  (List.length b < 4)%nat -> detectImageType b = unknown.
Proof.
  intros H. unfold detectImageType.
  destruct (Nat.ltb_spec (List.length b) 4); [reflexivity | lia].
Qed.

(** ** Contract of the sniffer (C8) *)

(** C8, as it is worded, at a three byte input: the first two bytes are the
    JPEG start-of-image marker, yet the answer is not [jpg], because inputs
    shorter than four bytes are [unknown] before any byte is looked at. *)
Lemma detectImageType_short_jpeg :
  ~ (detectImageType [xff; xd8; x00] = jpg
     <-> firstn 2 [xff; xd8; x00] = JPEG_SOI).
Proof.
  intros [_ H]. specialize (H eq_refl). discriminate.
Qed.

(** C8, amended. [detectImageType] is a total function of the bytes alone.
    It answers [png] exactly when the first four bytes are the PNG
    signature, [jpg] exactly when there are at least four bytes and the first
    two are FF D8, and [unknown] exactly in the remaining cases; every input
    shorter than four bytes is [unknown]. *)
Theorem detectImageType_spec (b : bytes) :
  (detectImageType b = png <-> firstn 4 b = PNG_SIGNATURE)
  /\ (detectImageType b = jpg
      <-> (4 <= List.length b)%nat /\ firstn 2 b = JPEG_SOI)
  /\ (detectImageType b = unknown
      <-> firstn 4 b <> PNG_SIGNATURE
          /\ ~ ((4 <= List.length b)%nat /\ firstn 2 b = JPEG_SOI))
  /\ ((List.length b < 4)%nat -> detectImageType b = unknown).
Proof.
  pose proof (detect_png b) as P. pose proof (detect_jpg b) as J.
  split; [exact P|]. split; [exact J|]. split; [|apply detect_short].
  destruct (detectImageType b) eqn:T.
  - split; [discriminate|]. intros [N _]. exfalso. apply N, P. reflexivity.
  - split; [discriminate|]. intros [_ N]. exfalso. apply N, J. reflexivity.
  - split; [|reflexivity]. intros _. split.
    + intros C. apply P in C. discriminate.
    + intros C. apply J in C. discriminate.
Qed.

End Sniffer.

(** * The exact arithmetic rounds correctly *)

Section ExactLaws.

#[local] Arguments Qred : simpl never.
#[local] Arguments Qdiv : simpl never.
#[local] Arguments Qmult : simpl never.
#[local] Arguments Qplus : simpl never.
#[local] Arguments Qcompare : simpl never.
#[local] Arguments Qle_bool : simpl never.
#[local] Arguments inject_Z : simpl never.

Lemma Qred_eq (p q : Q) : (p == q)%Q -> Qred p = Qred q.
Proof. apply Qred_complete. Qed.

Lemma inject_lt0 (a : N) : (0 < a)%N -> (0 < inject_Z (Z.of_N a))%Q.
Proof. intros H. unfold Qlt, inject_Z. simpl. lia. Qed.

Lemma inject_le0 (a : N) : (0 <= inject_Z (Z.of_N a))%Q.
Proof. unfold Qle, inject_Z. simpl. lia. Qed.

Lemma Qcompare_pos (q : Q) : (0 < q)%Q -> (q ?= 0)%Q = Gt.
Proof. intros H. apply Qgt_alt. exact H. Qed.

Lemma XQ_le_Fin (x y : Q) : XQ_le (Fin x) (Fin y) = true <-> (x <= y)%Q.
Proof. simpl. apply Qle_bool_iff. Qed.

Lemma exact_div_pos (a b : N) : (0 < b)%N ->
  @divide Exact (ofN a) (ofN b)
  = Fin (Qred (inject_Z (Z.of_N a) / inject_Z (Z.of_N b))).
Proof.
  intros Hb. simpl. rewrite Qcompare_pos.
  - f_equal. apply Qred_eq. now rewrite !Qred_correct.
  - rewrite Qred_correct. now apply inject_lt0.
Qed.

Lemma Qdiv_le_mono (x y z : Q) : (0 < z)%Q -> (x <= y)%Q -> (x / z <= y / z)%Q.
Proof.
  intros Hz H. unfold Qdiv. apply Qmult_le_compat_r; [exact H|].
  apply Qlt_le_weak, Qinv_lt_0_compat, Hz.
Qed.

(** The constants 0 and 1 as the arithmetic tactics know them. *)
Ltac qconst :=
  change (inject_Z (Z.of_N 0)) with (0 # 1)%Q in *;
  change (inject_Z (Z.of_N 1)) with (1 # 1)%Q in *;
  change (inject_Z 0) with (0 # 1)%Q in *;
  change (inject_Z 1) with (1 # 1)%Q in *.

Lemma Exact_IEEE754 : @IEEE754 Exact.
Proof.
  constructor.
  - (* gtb_ofN *)
    intros a b _ _. simpl. rewrite !Qred_correct.
    destruct (N.ltb_spec b a) as [H|H].
    + apply negb_true_iff. destruct (Qle_bool _ _) eqn:C; [|reflexivity].
      apply Qle_bool_iff in C. unfold Qle, inject_Z in C. simpl in C. lia.
    + apply negb_false_iff, Qle_bool_iff. unfold Qle, inject_Z. simpl. lia.
  - (* leqb_ofN *)
    intros a b _ _. simpl. rewrite !Qred_correct.
    destruct (N.leb_spec a b) as [H|H].
    + apply Qle_bool_iff. unfold Qle, inject_Z. simpl. lia.
    + destruct (Qle_bool _ _) eqn:C; [|reflexivity].
      apply Qle_bool_iff in C. unfold Qle, inject_Z in C. simpl in C. lia.
  - (* divide_mono *)
    intros a a' b _ _ _ Ha Hb. rewrite !exact_div_pos by exact Hb.
    apply XQ_le_Fin. rewrite !Qred_correct.
    apply Qdiv_le_mono; [now apply inject_lt0|].
    unfold Qle, inject_Z. simpl. lia.
  - (* divide_self *)
    intros a _ Ha. rewrite exact_div_pos by exact Ha. simpl. f_equal.
    apply Qred_eq. rewrite ?Qred_correct.
    field; intros C; apply inject_lt0 in Ha; rewrite C in Ha; discriminate.
  - (* divide_zero_l *)
    intros b _ Hb. rewrite exact_div_pos by exact Hb. cbn [ofN Exact].
    f_equal; apply Qred_eq; unfold Qeq, Qdiv, Qmult; simpl; reflexivity.
  - (* divide_by_zero *)
    intros a _ Ha. simpl.
    rewrite (Qcompare_pos (q:=Qred (inject_Z (Z.of_N a)))); [reflexivity|].
    rewrite Qred_correct. now apply inject_lt0.
  - (* divide_by_ge_1 *)
    intros m r _ Hr. destruct r as [q| | |]; simpl in Hr; try discriminate.
    + apply Qle_bool_iff in Hr. rewrite Qred_correct in Hr. qconst.
      assert (Hq : (0 < q)%Q) by lra.
      cbn [divide Exact XQ_div ofN]. rewrite (Qcompare_pos Hq).
      rewrite !XQ_le_Fin. rewrite !Qred_correct.
      pose proof (inject_le0 m) as Hm.
      split.
      * apply Qle_shift_div_l; [exact Hq|]. qconst. lra.
      * apply Qle_shift_div_r; [exact Hq|]. qconst. nra.
    + simpl. split; apply Qle_bool_iff; rewrite ?Qred_correct;
        unfold Qle, inject_Z; simpl; lia.
  - (* times_unit *)
    intros m r _ H0 H1. destruct r as [q| | |]; simpl in H0, H1; try discriminate.
    apply Qle_bool_iff in H0, H1. rewrite Qred_correct in H0, H1.
    cbn [times Exact XQ_mul ofN]. rewrite !XQ_le_Fin, !Qred_correct.
    pose proof (inject_le0 m) as Hm.
    qconst. split; nra.
  - (* times_mono *)
    intros x y c _ Hc H.
    assert (C : (0 < Qred (inject_Z (Z.of_N c)))%Q)
      by (rewrite Qred_correct; now apply inject_lt0).
    pose proof (Qcompare_pos C) as Cc.
    destruct x as [p| | |], y as [q| | |]; simpl in H; try discriminate;
      cbn [times Exact XQ_mul ofN]; rewrite ?Cc; try reflexivity.
    apply Qle_bool_iff in H. apply XQ_le_Fin. rewrite !Qred_correct.
    rewrite Qred_correct in C. nra.
  - (* times_ofN *)
    intros a c _ _ _. simpl. f_equal. apply Qred_eq. rewrite !Qred_correct.
    rewrite N2Z.inj_mul, inject_Z_mult. reflexivity.
  - (* round_mono *)
    intros x y c _ H0 H1 H2.
    destruct x as [p| | |], y as [q| | |]; simpl in H0, H1, H2; try discriminate.
    apply Qle_bool_iff in H1. cbn [Math_round Exact].
    apply Qfloor_resp_le. lra.
  - (* round_ofN *)
    intros a _. cbn [Math_round Exact ofN].
    rewrite (Qfloor_comp _ ((2 * Z.of_N a + 1) # 2)).
    + unfold Qfloor. symmetry. apply Z.div_unique with 1%Z; lia.
    + rewrite Qred_correct. unfold Qeq, Qplus, inject_Z.
      cbn [Qnum Qden]. lia.
  - (* toUint32_ofN *)
    intros a Ha. cbn [toUint32 Exact ofN]. unfold Qtrunc.
    assert (P : Qle_bool 0 (Qred (inject_Z (Z.of_N a))) = true).
    { apply Qle_bool_iff. rewrite Qred_correct. apply inject_le0. }
    rewrite P, (Qfloor_comp _ (inject_Z (Z.of_N a))) by apply Qred_correct.
    rewrite Qfloor_Z. unfold small in Ha.
    rewrite Z.mod_small by lia. apply N2Z.id.
  - (* toUint32_le *)
    intros x m Hm H0 H1. destruct x as [q| | |]; simpl in H0, H1; try discriminate.
    apply Qle_bool_iff in H0, H1. rewrite Qred_correct in H0, H1.
    cbn [toUint32 Exact]. unfold Qtrunc.
    assert (P : Qle_bool 0 q = true) by now apply Qle_bool_iff.
    rewrite P.
    assert (F0 : (0 <= Qfloor q)%Z).
    { change 0%Z with (Qfloor 0). now apply Qfloor_resp_le. }
    assert (F1 : (Qfloor q <= Z.of_N m)%Z).
    { rewrite <- (Qfloor_Z (Z.of_N m)). now apply Qfloor_resp_le. }
    unfold small in Hm. rewrite Z.mod_small by lia. lia.
  - (* lit_accurate *)
    intros q Hn Hd. exists (Qred q). split; [reflexivity|].
    assert (Hq : (0 < q)%Q) by (unfold Qlt; simpl; lia).
    rewrite Qred_correct. unfold ulp. split; nra.
  - (* divide_accurate *)
    intros x y a b Hx Hy Ha Hb _ _.
    destruct x as [p| | |], y as [q| | |]; simpl in Hx, Hy; try discriminate.
    injection Hx as ->. injection Hy as ->.
    exists (Qred (a / b)). cbn [divide Exact XQ_div]. rewrite (Qcompare_pos Hb).
    split; [reflexivity|]. rewrite Qred_correct.
    assert (Hab : (0 < a / b)%Q) by (apply Qlt_shift_div_l; lra).
    unfold ulp. split; nra.
  - (* times_accurate *)
    intros x y a b Hx Hy Ha Hb _ _.
    destruct x as [p| | |], y as [q| | |]; simpl in Hx, Hy; try discriminate.
    injection Hx as ->. injection Hy as ->.
    exists (Qred (a * b)). split; [reflexivity|]. rewrite Qred_correct.
    assert (Hab : (0 < a * b)%Q) by nra.
    unfold ulp. split; nra.
Qed.

End ExactLaws.

(** * The binary64 arithmetic rounds correctly *)

Section Binary64Laws.

#[local] Open Scope Q_scope.

Lemma pow2_pos (e : Z) : 0 < 2 ^ e.
Proof. apply Qpower_0_lt. reflexivity. Qed.

Lemma pow2_le (a b : Z) : (a <= b)%Z -> 2 ^ a <= 2 ^ b.
Proof. intros H. apply Qpower_le_compat_l; [exact H|discriminate]. Qed.

Lemma pow2_lt_inv (a b : Z) : 2 ^ a < 2 ^ b -> (a < b)%Z.
Proof. intros H. apply (Qpower_lt_compat_l_inv 2); [exact H|reflexivity]. Qed.

Lemma pow2_add (a b : Z) : 2 ^ (a + b) == 2 ^ a * 2 ^ b.
Proof. apply Qpower_plus. discriminate. Qed.

Lemma pow2_Z (n : Z) : (0 <= n)%Z -> 2 ^ n == inject_Z (2 ^ n).
Proof. intros H. symmetry. apply (Zpower_Qpower 2 n H). Qed.

Lemma sandwich_lt (q d n A B C : Q) :
  0 < q -> q * d == n -> A <= d -> n < C -> C == B * A -> 0 < A -> q < B.
Proof. intros. nra. Qed.

Lemma sandwich_gt (q d n A B C : Q) :
  0 < q -> q * d == n -> d < A -> C <= n -> C == B * A -> 0 < A -> B < q.
Proof. intros. nra. Qed.

Lemma exponent_spec (q : Q) :
  0 < q -> 2 ^ exponent q <= q /\ q < 2 ^ (exponent q + 1).
Proof.
  intros Hq. unfold exponent.
  assert (Hn : (0 < Qnum q)%Z) by (unfold Qlt in Hq; simpl in Hq; lia).
  assert (Hd : (0 < Z.pos (Qden q))%Z) by lia.
  assert (E : q * inject_Z (Z.pos (Qden q)) == inject_Z (Qnum q)).
  { destruct q as [n d]. unfold Qeq, Qmult, inject_Z. simpl. lia. }
  destruct (Z.log2_spec _ Hn) as [N1 N2].
  destruct (Z.log2_spec _ Hd) as [D1 D2].
  pose proof (Z.log2_nonneg (Qnum q)) as Ln.
  pose proof (Z.log2_nonneg (Z.pos (Qden q))) as Ld.
  set (ln := Z.log2 (Qnum q)) in *. set (ld := Z.log2 (Z.pos (Qden q))) in *.
  rewrite Zle_Qle, <- pow2_Z in N1, D1 by lia.
  rewrite Zlt_Qlt, <- pow2_Z in N2, D2 by lia.
  assert (U : q < 2 ^ (ln - ld + 1)).
  { apply (sandwich_lt (d:=inject_Z (Z.pos (Qden q))) (n:=inject_Z (Qnum q))
             (A:=2 ^ ld) (C:=2 ^ Z.succ ln)); auto using pow2_pos.
    rewrite <- pow2_add. replace (ln - ld + 1 + ld)%Z with (Z.succ ln) by lia.
    reflexivity. }
  assert (W : 2 ^ (ln - ld - 1) < q).
  { apply (sandwich_gt (d:=inject_Z (Z.pos (Qden q))) (n:=inject_Z (Qnum q))
             (A:=2 ^ Z.succ ld) (C:=2 ^ ln)); auto using pow2_pos.
    rewrite <- pow2_add. replace (ln - ld - 1 + Z.succ ld)%Z with ln by lia.
    reflexivity. }
  destruct (Qle_bool (2 ^ (ln - ld)) q) eqn:T.
  - apply Qle_bool_iff in T. split; assumption.
  - replace (ln - ld - 1 + 1)%Z with (ln - ld)%Z by lia.
    split; [apply Qlt_le_weak, W|].
    apply Qnot_le_lt. intros C. apply Qle_bool_iff in C. congruence.
Qed.

Lemma exponent_mono (p q : Q) : 0 < p -> p <= q -> (exponent p <= exponent q)%Z.
Proof.
  intros Hp H.
  destruct (exponent_spec Hp) as [P1 _].
  destruct (exponent_spec (q:=q)) as [_ Q2]; [lra|].
  assert (L : 2 ^ exponent p < 2 ^ (exponent q + 1)) by lra.
  apply pow2_lt_inv in L. lia.
Qed.

Lemma nearestEven_close (x : Q) :
  inject_Z (nearestEven x) - x <= 1 # 2 /\ x - inject_Z (nearestEven x) <= 1 # 2.
Proof.
  unfold nearestEven.
  pose proof (Qfloor_le x) as F1. pose proof (Qlt_floor x) as F2.
  rewrite inject_Z_plus in F2. change (inject_Z 1) with 1 in F2.
  destruct (Qcompare_spec (x - inject_Z (Qfloor x)) (1 # 2)) as [C|C|C].
  - destruct (Z.even (Qfloor x)); rewrite ?inject_Z_plus;
      change (inject_Z 1) with 1; lra.
  - lra.
  - rewrite inject_Z_plus. change (inject_Z 1) with 1. lra.
Qed.

Lemma nearestEven_Z (x : Q) (z : Z) : x == inject_Z z -> nearestEven x = z.
Proof.
  intros H. unfold nearestEven.
  rewrite (Qfloor_comp _ _ H), Qfloor_Z.
  destruct (Qcompare_spec (x - inject_Z z) (1 # 2)) as [C|C|C]; [lra|reflexivity|lra].
Qed.

Lemma nearestEven_mono (x y : Q) : x <= y -> (nearestEven x <= nearestEven y)%Z.
Proof.
  intros H. pose proof (Qfloor_resp_le _ _ H) as F. unfold nearestEven.
  destruct (Z.eq_dec (Qfloor x) (Qfloor y)) as [E|E].
  - rewrite <- E.
    destruct (Qcompare_spec (x - inject_Z (Qfloor x)) (1 # 2)) as [C|C|C];
      destruct (Qcompare_spec (y - inject_Z (Qfloor x)) (1 # 2)) as [D|D|D];
      destruct (Z.even (Qfloor x)); try lia; lra.
  - assert (L : (Qfloor x + 1 <= Qfloor y)%Z) by lia.
    destruct (x - inject_Z (Qfloor x) ?= 1 # 2), (y - inject_Z (Qfloor y) ?= 1 # 2),
      (Z.even (Qfloor x)), (Z.even (Qfloor y)); lia.
Qed.

Lemma scaled_le (s p q : Q) : 0 < s -> p <= q ->
  inject_Z (nearestEven (p / s)) * s <= inject_Z (nearestEven (q / s)) * s.
Proof.
  intros Hs H. apply Qmult_le_compat_r; [|lra].
  rewrite <- Zle_Qle. apply nearestEven_mono, Qdiv_le_mono; assumption.
Qed.

Lemma scaled_Z (s q : Q) (k : Z) : 0 < s -> q == inject_Z k * s ->
  inject_Z (nearestEven (q / s)) * s == q.
Proof.
  intros Hs H. rewrite (@nearestEven_Z (q / s) k).
  - symmetry. exact H.
  - rewrite H. field. lra.
Qed.

Lemma scaled_upper (s q : Q) (k : Z) : 0 < s -> q <= inject_Z k * s ->
  inject_Z (nearestEven (q / s)) * s <= inject_Z k * s.
Proof.
  intros Hs H.
  apply Qle_trans with (inject_Z (nearestEven (inject_Z k * s / s)) * s).
  - apply scaled_le; assumption.
  - rewrite (@scaled_Z s (inject_Z k * s) k Hs) by reflexivity. apply Qle_refl.
Qed.

Lemma scaled_lower (s q : Q) (k : Z) : 0 < s -> inject_Z k * s <= q ->
  inject_Z k * s <= inject_Z (nearestEven (q / s)) * s.
Proof.
  intros Hs H.
  apply Qle_trans with (inject_Z (nearestEven (inject_Z k * s / s)) * s).
  - rewrite (@scaled_Z s (inject_Z k * s) k Hs) by reflexivity. apply Qle_refl.
  - apply scaled_le; assumption.
Qed.

Lemma scaled_close (s q : Q) : 0 < s ->
  q - s * (1 # 2) <= inject_Z (nearestEven (q / s)) * s
  /\ inject_Z (nearestEven (q / s)) * s <= q + s * (1 # 2).
Proof.
  intros Hs. destruct (nearestEven_close (q / s)) as [A B].
  assert (E : q == q / s * s) by (field; lra).
  set (x := q / s) in *. set (m := inject_Z (nearestEven x)) in *.
  split; nra.
Qed.

Lemma pow2_split (e k : Z) : (0 <= k)%Z -> 2 ^ e == inject_Z (2 ^ k) * 2 ^ (e - k).
Proof.
  intros H. rewrite <- pow2_Z, <- pow2_add by exact H.
  replace (k + (e - k))%Z with e by lia. reflexivity.
Qed.

Lemma nearest_nonneg (q : Q) : 0 < q -> 0 <= nearest q.
Proof.
  intros H. unfold nearest.
  set (s := 2 ^ (Z.max (exponent q) (-1022) - 52)).
  assert (Hs : 0 < s) by apply pow2_pos.
  pose proof (@scaled_lower s q 0 Hs) as L.
  change (inject_Z 0) with 0 in L. rewrite Qmult_0_l in L. apply L. lra.
Qed.

Lemma nearest_le (p q : Q) : 0 < p -> p <= q -> nearest p <= nearest q.
Proof.
  intros Hp H. assert (Hq : 0 < q) by lra.
  pose proof (exponent_mono Hp H) as M.
  destruct (exponent_spec Hp) as [_ P2]. destruct (exponent_spec Hq) as [Q1 _].
  unfold nearest.
  set (ep := Z.max (exponent p) (-1022)). set (eq := Z.max (exponent q) (-1022)).
  destruct (Z.eq_dec ep eq) as [E|E].
  - rewrite E. apply scaled_le; [apply pow2_pos|exact H].
  - assert (L : (ep + 1 <= eq)%Z) by lia.
    assert (Eq : eq = exponent q) by lia.
    apply Qle_trans with (2 ^ (ep + 1)).
    + assert (S : 2 ^ (ep + 1) == inject_Z (2 ^ 53) * 2 ^ (ep - 52)).
      { rewrite (@pow2_split (ep + 1) 53) by lia.
        replace (ep + 1 - 53)%Z with (ep - 52)%Z by lia. reflexivity. }
      rewrite S. apply scaled_upper; [apply pow2_pos|]. rewrite <- S.
      apply Qle_trans with (2 ^ (exponent p + 1)); [lra|apply pow2_le; lia].
    + apply Qle_trans with (2 ^ eq); [apply pow2_le, L|].
      rewrite (@pow2_split eq 52) at 1 by lia.
      apply scaled_lower; [apply pow2_pos|].
      rewrite <- pow2_split by lia. rewrite Eq. exact Q1.
Qed.

Lemma tiny_pow2 : tiny == 2 ^ (-1022).
Proof. vm_compute. reflexivity. Qed.

Lemma nearest_accurate (q : Q) : tiny <= q ->
  (1 - ulp) * q <= nearest q /\ nearest q <= (1 + ulp) * q.
Proof.
  intros T. rewrite tiny_pow2 in T.
  assert (Hq : 0 < q) by (pose proof (pow2_pos (-1022)); lra).
  destruct (exponent_spec Hq) as [Q1 Q2].
  assert (L : 2 ^ (-1022) < 2 ^ (exponent q + 1)) by lra.
  apply pow2_lt_inv in L.
  unfold nearest. replace (Z.max (exponent q) (-1022)) with (exponent q) by lia.
  rewrite (@pow2_split (exponent q) 52) in Q1 by lia.
  pose proof (pow2_pos (exponent q - 52)) as Hs.
  destruct (@scaled_close (2 ^ (exponent q - 52)) q Hs) as [A B].
  set (s := 2 ^ (exponent q - 52)) in *.
  set (r := inject_Z (nearestEven (q / s)) * s) in *.
  change (inject_Z (2 ^ 52)) with (4503599627370496 # 1) in Q1.
  unfold ulp. split; lra.
Qed.

Lemma nearest_Z (q : Q) (z : Z) : (0 < z < 2 ^ 53)%Z -> q == inject_Z z ->
  nearest q == inject_Z z.
Proof.
  intros Hz H.
  assert (Hq : 0 < q) by (rewrite H; unfold Qlt, inject_Z; simpl; lia).
  destruct (exponent_spec Hq) as [Q1 Q2].
  assert (U : q < 2 ^ 53).
  { rewrite H, (@pow2_Z 53) by lia. rewrite <- Zlt_Qlt. lia. }
  assert (D : 2 ^ 0 <= q).
  { rewrite H. change (2 ^ 0) with (inject_Z 1). rewrite <- Zle_Qle. lia. }
  assert (L1 : 2 ^ exponent q < 2 ^ 53) by lra.
  assert (L2 : 2 ^ 0 < 2 ^ (exponent q + 1)) by lra.
  apply pow2_lt_inv in L1, L2.
  unfold nearest. replace (Z.max (exponent q) (-1022)) with (exponent q) by lia.
  rewrite <- H.
  apply (@scaled_Z _ q (z * 2 ^ (52 - exponent q))); [apply pow2_pos|].
  rewrite inject_Z_mult, <- pow2_Z, <- Qmult_assoc, <- pow2_add by lia.
  replace (52 - exponent q + (exponent q - 52))%Z with 0%Z by lia.
  rewrite H. change (2 ^ 0) with 1. ring.
Qed.

Lemma below_overflow (r : Q) : r < 2 ^ 1024 -> overflow r = Fin (Qred r).
Proof.
  intros H. unfold overflow.
  destruct (Qle_bool (2 ^ 1024) r) eqn:A; [|reflexivity].
  apply Qle_bool_iff in A. set (M := 2 ^ 1024) in *. lra.
Qed.

Lemma overflow_cases (r : Q) :
  overflow r = PInf \/ overflow r = Fin (Qred r) /\ r < 2 ^ 1024.
Proof.
  unfold overflow. destruct (Qle_bool (2 ^ 1024) r) eqn:A; [now left|right].
  split; [reflexivity|]. apply Qnot_le_lt. intros C.
  apply Qle_bool_iff in C. congruence.
Qed.

Lemma overflow_mono (r1 r2 : Q) :
  r1 <= r2 -> XQ_le (overflow r1) (overflow r2) = true.
Proof.
  intros H.
  destruct (overflow_cases r1) as [A|[A A']], (overflow_cases r2) as [B|[B B']];
    rewrite A, B; try reflexivity.
  - rewrite below_overflow in A by (apply Qle_lt_trans with r2; assumption).
    discriminate A.
  - apply XQ_le_Fin. rewrite !Qred_correct. exact H.
Qed.

Lemma overflow_nonneg (r : Q) : 0 <= r -> XQ_le (Fin 0) (overflow r) = true.
Proof.
  intros H. destruct (overflow_cases r) as [A|[A _]]; rewrite A; [reflexivity|].
  apply XQ_le_Fin. rewrite Qred_correct. exact H.
Qed.

Lemma XQ_opp_le (a b : XQ) :
  XQ_le a b = true -> XQ_le (XQ_opp b) (XQ_opp a) = true.
Proof.
  destruct a as [p| | |], b as [q| | |]; cbn [XQ_opp]; intros H;
    try discriminate H; try reflexivity.
  apply XQ_le_Fin in H. apply XQ_le_Fin. rewrite !Qred_correct. lra.
Qed.

Lemma opp_overflow_le (r1 r2 : Q) : 0 <= r1 -> 0 <= r2 ->
  XQ_le (XQ_opp (overflow r1)) (overflow r2) = true.
Proof.
  intros H1 H2.
  destruct (overflow_cases r1) as [A|[A _]], (overflow_cases r2) as [B|[B _]];
    rewrite A, B; cbn [XQ_opp]; try reflexivity.
  apply XQ_le_Fin. rewrite !Qred_correct. lra.
Qed.

Lemma opp_overflow_nonpos (r : Q) : 0 <= r ->
  XQ_le (XQ_opp (overflow r)) (Fin 0) = true.
Proof.
  intros H. destruct (overflow_cases r) as [A|[A _]]; rewrite A; cbn [XQ_opp];
    [reflexivity|].
  apply XQ_le_Fin. rewrite !Qred_correct. lra.
Qed.

Lemma binary64_mono (p q : Q) :
  p <= q -> XQ_le (binary64 p) (binary64 q) = true.
Proof.
  intros H. unfold binary64.
  destruct (Qcompare_spec p 0) as [P|P|P], (Qcompare_spec q 0) as [C|C|C];
    try (exfalso; lra).
  - reflexivity.
  - apply overflow_nonneg, nearest_nonneg, C.
  - apply opp_overflow_nonpos, nearest_nonneg; lra.
  - apply XQ_opp_le, overflow_mono, nearest_le; lra.
  - apply opp_overflow_le; apply nearest_nonneg; lra.
  - apply overflow_mono, nearest_le; lra.
Qed.

Lemma binary64_number (q : Q) : binary64 q <> NaN.
Proof.
  unfold binary64.
  destruct (q ?= 0); [discriminate| |];
    [destruct (overflow_cases (nearest (- q))) as [A|[A _]]
    |destruct (overflow_cases (nearest q)) as [A|[A _]]];
    rewrite A; discriminate.
Qed.

Lemma binary64_Z (q : Q) (z : Z) : (0 <= z < 2 ^ 53)%Z -> q == inject_Z z ->
  binary64 q = Fin (Qred (inject_Z z)).
Proof.
  intros Hz H. unfold binary64.
  destruct (Z.eq_dec z 0) as [->|N].
  - change (inject_Z 0) with 0 in H. apply Qeq_alt in H. rewrite H. reflexivity.
  - assert (P : 0 < q) by (rewrite H; unfold Qlt, inject_Z; simpl; lia).
    apply Qgt_alt in P. rewrite P.
    assert (R : nearest q == inject_Z z) by (apply nearest_Z; [lia|exact H]).
    rewrite below_overflow.
    + f_equal. apply Qred_complete, R.
    + rewrite R. apply Qlt_le_trans with (2 ^ 53).
      * rewrite (@pow2_Z 53) by lia. rewrite <- Zlt_Qlt. lia.
      * apply pow2_le. lia.
Qed.

Lemma huge_pow2 : 2 ^ 1024 == 2 * huge.
Proof.
  unfold huge. rewrite <- (@pow2_Z 1023) by lia.
  change 1024%Z with (1 + 1023)%Z. apply pow2_add.
Qed.

Lemma binary64_accurate (q : Q) : tiny <= q -> q <= huge ->
  exists c, binary64 q = Fin c /\ (1 - ulp) * q <= c /\ c <= (1 + ulp) * q.
Proof.
  intros T H. destruct (nearest_accurate T) as [A B].
  assert (P : 0 < q) by (rewrite tiny_pow2 in T; pose proof (pow2_pos (-1022)); lra).
  exists (Qred (nearest q)). unfold binary64.
  apply Qgt_alt in P. rewrite P.
  split; [|rewrite Qred_correct; split; assumption].
  apply below_overflow. rewrite huge_pow2.
  assert (Hh : 0 < huge) by (vm_compute; reflexivity).
  set (h := huge) in *. unfold ulp in B. lra.
Qed.

Lemma rounded_mono (a b : XQ) :
  XQ_le a b = true -> XQ_le (rounded a) (rounded b) = true.
Proof.
  destruct a as [p| | |], b as [q| | |]; intros H; try discriminate H;
    cbn [rounded]; try reflexivity.
  - apply binary64_mono. apply XQ_le_Fin, H.
  - pose proof (@binary64_number p). destruct (binary64 p); try reflexivity; congruence.
  - pose proof (@binary64_number q). destruct (binary64 q); try reflexivity; congruence.
Qed.

Lemma small_below (a : N) : small a -> (0 <= Z.of_N a < 2 ^ 53)%Z.
Proof. unfold small. lia. Qed.

Lemma Binary64_ofN (a : N) : small a -> @ofN Binary64 a = @ofN Exact a.
Proof.
  intros H. cbn [ofN Binary64 Exact].
  apply binary64_Z; [apply small_below, H|reflexivity].
Qed.

Lemma rounded_ofN (a : N) : small a -> rounded (@ofN Exact a) = @ofN Exact a.
Proof.
  intros H. cbn [ofN rounded Exact].
  apply binary64_Z; [apply small_below, H|apply Qred_correct].
Qed.

Lemma rounded_le_ofN (x : XQ) (a : N) : small a ->
  XQ_le x (@ofN Exact a) = true -> XQ_le (rounded x) (@ofN Exact a) = true.
Proof.
  intros H L. rewrite <- (rounded_ofN H). apply rounded_mono, L.
Qed.

Lemma ofN_le_rounded (x : XQ) (a : N) : small a ->
  XQ_le (@ofN Exact a) x = true -> XQ_le (@ofN Exact a) (rounded x) = true.
Proof.
  intros H L. rewrite <- (rounded_ofN H). apply rounded_mono, L.
Qed.

Lemma Binary64_IEEE754 : @IEEE754 Binary64.
Proof.
  pose proof Exact_IEEE754 as E.
  assert (S0 : small 0) by reflexivity. assert (S1 : small 1) by reflexivity.
  constructor.
  - (* gtb_ofN *)
    intros a b Ha Hb. rewrite !Binary64_ofN by assumption.
    exact (@gtb_ofN _ E a b Ha Hb).
  - (* leqb_ofN *)
    intros a b Ha Hb. rewrite !Binary64_ofN by assumption.
    exact (@leqb_ofN _ E a b Ha Hb).
  - (* divide_mono *)
    intros a a' b Ha Ha' Hb L P. rewrite !Binary64_ofN by assumption.
    apply rounded_mono. exact (@divide_mono _ E a a' b Ha Ha' Hb L P).
  - (* divide_self *)
    intros a Ha P. rewrite !Binary64_ofN by assumption.
    change (@divide Binary64 ?x ?y) with (rounded (@divide Exact x y)).
    rewrite (@divide_self _ E a Ha P).
    apply rounded_ofN, S1.
  - (* divide_zero_l *)
    intros b Hb P. rewrite !Binary64_ofN by assumption.
    change (@divide Binary64 ?x ?y) with (rounded (@divide Exact x y)).
    rewrite (@divide_zero_l _ E b Hb P).
    apply rounded_ofN, S0.
  - (* divide_by_zero *)
    intros a Ha P. rewrite !Binary64_ofN by assumption.
    apply ofN_le_rounded; [exact S1|]. exact (@divide_by_zero _ E a Ha P).
  - (* divide_by_ge_1 *)
    intros m r Hm Hr. rewrite !Binary64_ofN in * by assumption.
    destruct (@divide_by_ge_1 _ E m r Hm Hr) as [A B].
    split; [apply ofN_le_rounded|apply rounded_le_ofN]; assumption.
  - (* times_unit *)
    intros m r Hm H0 H1. rewrite !Binary64_ofN in * by assumption.
    destruct (@times_unit _ E m r Hm H0 H1) as [A B].
    split; [apply ofN_le_rounded|apply rounded_le_ofN]; assumption.
  - (* times_mono *)
    intros x y c Hc P H. rewrite !Binary64_ofN by assumption.
    apply rounded_mono. exact (@times_mono _ E x y c Hc P H).
  - (* times_ofN *)
    intros a c Ha Hc H. rewrite !Binary64_ofN by assumption.
    change (@times Binary64 ?x ?y) with (rounded (@times Exact x y)).
    rewrite (@times_ofN _ E a c Ha Hc H).
    apply rounded_ofN, H.
  - (* round_mono *)
    intros x y c Hc H0 H1 H2. rewrite !Binary64_ofN in * by assumption.
    exact (@round_mono _ E x y c Hc H0 H1 H2).
  - (* round_ofN *)
    intros a Ha. rewrite !Binary64_ofN by assumption.
    exact (@round_ofN _ E a Ha).
  - (* toUint32_ofN *)
    intros a Ha. rewrite !Binary64_ofN by assumption.
    exact (@toUint32_ofN _ E a Ha).
  - (* toUint32_le *)
    intros x m Hm H0 H1. rewrite !Binary64_ofN in * by assumption.
    exact (@toUint32_le _ E x m Hm H0 H1).
  - (* lit_accurate *)
    intros q Hn Hd. cbn [lit Binary64].
    destruct (@binary64_accurate q) as (c & C1 & C2 & C3).
    + assert (P : (2 ^ 53 <= Z.pos (2 ^ 1022))%Z) by (vm_compute; discriminate).
      unfold tiny, Qle. cbn [Qnum Qden]. nia.
    + assert (P : (2 ^ 53 <= 2 ^ 1023)%Z) by (vm_compute; discriminate).
      unfold huge, Qle, inject_Z. cbn [Qnum Qden].
      set (h := (2 ^ 1023)%Z) in *. nia.
    + exists c. rewrite C1. auto.
  - (* divide_accurate *)
    intros x y a b Hx Hy Ha Hb T H.
    destruct x as [p| | |], y as [q| | |]; simpl in Hx, Hy; try discriminate.
    injection Hx as ->. injection Hy as ->.
    cbn [divide Binary64 XQ_div]. rewrite (Qcompare_pos Hb). cbn [rounded].
    destruct (@binary64_accurate (Qred (a / b))) as (c & C1 & C2 & C3);
      try (rewrite Qred_correct; assumption).
    exists c. rewrite C1. rewrite Qred_correct in C2, C3. auto.
  - (* times_accurate *)
    intros x y a b Hx Hy Ha Hb T H.
    destruct x as [p| | |], y as [q| | |]; simpl in Hx, Hy; try discriminate.
    injection Hx as ->. injection Hy as ->.
    cbn [times Binary64 XQ_mul rounded].
    destruct (@binary64_accurate (Qred (a * b))) as (c & C1 & C2 & C3);
      try (rewrite Qred_correct; assumption).
    exists c. rewrite C1. rewrite Qred_correct in C2, C3. auto.
Qed.

End Binary64Laws.

(** * The two renderings of binary64 agree on samples *)

Example renderings_agree_on_samples :
  renderings_agree_on [0; 1; 2; 3; 7; 10; 40; 62; 100; 333; 612; 792; 1500;
                       2500; 3000; 4000; 65535; 2147483647]%N = true.
Proof. vm_compute. reflexivity. Qed.

(** * The properties of rounding, on sample doubles *)

Example IEEE754_on_samples :
  double_laws_on [0; 1; 2; 3; 7; 10; 40; 62; 100; 333; 1500; 2500; 3000;
                  4000; 65535; 2147483647]%N = true.
Proof. vm_compute. reflexivity. Qed.

Section Raster.

Context {E : Env}.

Lemma processImage_general input level :
  generalPath input level -> processImage input level = canvasPath input level.
Proof.
  intros G. destruct level, input; try reflexivity.
  simpl. destruct G as [G | [[b G] | [f' [G U]]]]; try congruence.
  injection G as <-. rewrite U. reflexivity.
Qed.

(** ** Fast path (C5) *)

(** C5. An original upload (a [File], not converted bytes) whose bytes the
    sniffer classifies as png or jpeg is returned by [processImage] under
    policy [none] byte for byte, tagged with the sniffed codec; the world is
    left as it was, so neither the decoder nor the encoder is called. *)
Theorem processImage_fast_path (f : File) (w : World) :
  detectImageType (arrayBuffer f) <> unknown ->
  exists r,
    processImage (IsFile f) none w = (Ok r, w)
    /\ data r = arrayBuffer f
    /\ (isPng r = true <-> detectImageType (arrayBuffer f) = png)
    /\ (isPng r = false <-> detectImageType (arrayBuffer f) = jpg).
Proof.
  intros H. simpl.
  destruct (detectImageType (arrayBuffer f)) eqn:T; try congruence; simpl;
    eexists; (split; [reflexivity|]); simpl;
    repeat split; congruence.
Qed.

(** ** Resizing *)

Section Rounding.

Context {L : IEEE754}.

Lemma small_0 : small 0.
Proof. reflexivity. Qed.

Lemma small_1 : small 1.
Proof. reflexivity. Qed.

Lemma small_cap level : small (maxDimension level).
Proof. destruct level; reflexivity. Qed.

Lemma small_le (a m : N) : (a <= m)%N -> small m -> small a.
Proof. unfold small. lia. Qed.

Lemma leqb_refl_ofN (a : N) : small a -> leqb (ofN a) (ofN a) = true.
Proof. intros Ha. rewrite leqb_ofN by assumption. apply N.leb_refl. Qed.

(** A quotient of integers, the larger one above, is at least 1. *)
Lemma quotient_ge_1 (a b : N) :
  small a -> small b -> (b < a)%N ->
  leqb (ofN 1) (divide (ofN a) (ofN b)) = true.
Proof.
  intros Ha Hb Hab. destruct (N.eq_dec b 0) as [->|Nb].
  - apply divide_by_zero; [exact Ha | lia].
  - rewrite <- (@divide_self _ L b) by (try assumption; lia).
    apply divide_mono; try assumption; lia.
Qed.

(** A quotient of integers, the larger one below, lies between 0 and 1. *)
Lemma quotient_in_unit (a b : N) :
  small a -> small b -> (a <= b)%N -> (0 < b)%N ->
  leqb (ofN 0) (divide (ofN a) (ofN b)) = true
  /\ leqb (divide (ofN a) (ofN b)) (ofN 1) = true.
Proof.
  intros Ha Hb Hab Pb. split.
  - rewrite <- (@divide_zero_l _ L b) by assumption.
    apply divide_mono; try assumption; [apply small_0 | lia].
  - rewrite <- (@divide_self _ L b) by assumption.
    apply divide_mono; assumption.
Qed.

Lemma resize_none img :
  resize none img = Size.mk (ofN (Pixels.width img)) (ofN (Pixels.height img)).
Proof.
  unfold resize. simpl maxDimension.
  rewrite (@gtb_ofN _ L 0 0 small_0 small_0). reflexivity.
Qed.

Lemma resize_within level img :
  small (Pixels.width img) -> small (Pixels.height img) ->
  (Pixels.width img <= maxDimension level)%N ->
  (Pixels.height img <= maxDimension level)%N ->
  resize level img = Size.mk (ofN (Pixels.width img)) (ofN (Pixels.height img)).
Proof.
  intros Sw Sh Hw Hh. unfold resize.
  rewrite (@gtb_ofN _ L _ _ Sw (small_cap level)).
  rewrite (@gtb_ofN _ L _ _ Sh (small_cap level)).
  apply N.ltb_ge in Hw, Hh. rewrite Hw, Hh. simpl.
  now rewrite andb_false_r.
Qed.

Lemma resize_beyond level img :
  small (Pixels.width img) -> small (Pixels.height img) ->
  (0 < maxDimension level)%N ->
  (maxDimension level < N.max (Pixels.width img) (Pixels.height img))%N ->
  resize level img
  = if (Pixels.height img <? Pixels.width img)%N
    then Size.mk (ofN (maxDimension level))
           (divide (ofN (maxDimension level))
                   (divide (ofN (Pixels.width img)) (ofN (Pixels.height img))))
    else Size.mk
           (times (ofN (maxDimension level))
                  (divide (ofN (Pixels.width img)) (ofN (Pixels.height img))))
           (ofN (maxDimension level)).
Proof.
  intros Sw Sh Hm Hb. unfold resize.
  rewrite (@gtb_ofN _ L _ _ (small_cap level) small_0).
  rewrite (@gtb_ofN _ L _ _ Sw (small_cap level)).
  rewrite (@gtb_ofN _ L _ _ Sh (small_cap level)).
  rewrite (@gtb_ofN _ L _ _ Sw Sh).
  apply N.ltb_lt in Hm. rewrite Hm. simpl.
  assert (X : ((maxDimension level <? Pixels.width img)
               || (maxDimension level <? Pixels.height img))%N = true).
  { apply orb_true_iff. rewrite !N.ltb_lt. lia. }
  rewrite X. reflexivity.
Qed.

(** An assigned number whose whole part is small is reflected as that
    whole part. *)
Lemma reflected_small (default : N) (x : number) (m : N) :
  small m -> (toUint32 x <= m)%N -> reflected default x = toUint32 x.
Proof.
  intros Sm Hx. unfold reflected, small in *.
  destruct (N.leb_spec (toUint32 x) 2147483647); [reflexivity | lia].
Qed.

Lemma reflected_ofN (default a : N) : small a -> reflected default (ofN a) = a.
Proof.
  intros Sa. rewrite (@reflected_small default (ofN a) a Sa);
    rewrite toUint32_ofN by exact Sa; [reflexivity | lia].
Qed.

Lemma canvasSize_none img :
  small (Pixels.width img) -> small (Pixels.height img) ->
  canvasSize none img = img.
Proof.
  intros Sw Sh. unfold canvasSize. rewrite resize_none. simpl.
  rewrite !reflected_ofN by assumption. destruct img. reflexivity.
Qed.

Lemma canvasSize_within level img :
  small (Pixels.width img) -> small (Pixels.height img) ->
  (Pixels.width img <= maxDimension level)%N ->
  (Pixels.height img <= maxDimension level)%N ->
  canvasSize level img = img.
Proof.
  intros Sw Sh Hw Hh. unfold canvasSize.
  rewrite resize_within by assumption. simpl.
  rewrite !reflected_ofN by assumption. destruct img. reflexivity.
Qed.

(** Neither edge of the fitted canvas exceeds the cap. *)
Lemma fitted_cap (m : N) img :
  small m -> small (Pixels.width img) -> small (Pixels.height img) ->
  (m < N.max (Pixels.width img) (Pixels.height img))%N ->
  (Pixels.width (fitted m img) <= m)%N /\ (Pixels.height (fitted m img) <= m)%N.
Proof.
  intros Sm Sw Sh Hb. unfold fitted.
  destruct (N.ltb_spec (Pixels.height img) (Pixels.width img)) as [Hwh|Hwh];
    simpl; rewrite toUint32_ofN by assumption.
  - split; [lia|].
    destruct (@divide_by_ge_1 _ L m
                (divide (ofN (Pixels.width img)) (ofN (Pixels.height img))) Sm)
      as (P0 & P1); [now apply quotient_ge_1|].
    now apply toUint32_le.
  - split; [|lia].
    destruct (@quotient_in_unit (Pixels.width img) (Pixels.height img))
      as (Q0 & Q1); try assumption; [lia|].
    destruct (@times_unit _ L m _ Sm Q0 Q1) as (P0 & P1).
    now apply toUint32_le.
Qed.

Lemma canvasSize_beyond level img :
  small (Pixels.width img) -> small (Pixels.height img) ->
  (0 < maxDimension level)%N ->
  (maxDimension level < N.max (Pixels.width img) (Pixels.height img))%N ->
  canvasSize level img = fitted (maxDimension level) img.
Proof.
  intros Sw Sh Hm Hb.
  destruct (@fitted_cap (maxDimension level) img) as (P0 & P1);
    try assumption; [apply small_cap|].
  revert P0 P1. unfold canvasSize, fitted.
  rewrite resize_beyond by assumption.
  destruct (Pixels.height img <? Pixels.width img)%N; simpl; intros P0 P1;
    rewrite !(@reflected_small _ _ (maxDimension level))
      by (try apply small_cap; assumption);
    reflexivity.
Qed.

Lemma canvasSize_cap level img :
  small (Pixels.width img) -> small (Pixels.height img) ->
  (0 < maxDimension level)%N ->
  (N.max (Pixels.width (canvasSize level img))
         (Pixels.height (canvasSize level img)) <= maxDimension level)%N.
Proof.
  intros Sw Sh Hm.
  destruct (N.le_gt_cases (N.max (Pixels.width img) (Pixels.height img))
                          (maxDimension level)) as [Hin|Hout].
  - rewrite canvasSize_within by (try assumption; lia). exact Hin.
  - rewrite canvasSize_beyond by assumption.
    destruct (@fitted_cap (maxDimension level) img) as (P0 & P1);
      try assumption; [apply small_cap|]. lia.
Qed.

(** ** General path (C6) *)

(** C6, amended. On the general path, once the image decodes, a 2d context
    exists and the encoder returns a blob, [processImage] returns that blob;
    the encoder is called once, for JPEG at quality 0.5 on a canvas whose
    longer edge is at most 1500 under [high], for JPEG at quality 0.75 on a
    canvas whose longer edge is at most 2500 under [normal], for PNG on a
    canvas of the decoded size under [none]; a decoded size within the cap
    is the canvas size, and a larger one gives the canvas [fitted]: the cap
    on the longer edge and, on the other, the whole pixels of the cap
    divided or multiplied by the rounded quotient of width and height. *)
Theorem processImage_general_path
  (input : ImageInput) (level : CompressionLevel) (img : Pixels.t)
  (blob : bytes) (w : World) :
  generalPath input level ->
  Image_load (sourceOf input) = Some img ->
  small (Pixels.width img) -> small (Pixels.height img) ->
  getContext_2d = true ->
  toBlob (sourceOf input) (canvasSize level img) (resize level img)
         (mimeType level) (quality level) = Some blob ->
  exists canvas mime q png_,
    processImage input level w
    = (Ok {| data := blob; isPng := png_ |},
       {| mergedPdf := mergedPdf w;
          log := log w ++ [CallImageLoad (sourceOf input);
                           CallToBlob canvas mime q] |})
    /\ match level with
       | high => mime = image_jpeg /\ q = lit 0.5 /\ png_ = false
                 /\ (N.max (Pixels.width canvas) (Pixels.height canvas) <= 1500)%N
       | normal => mime = image_jpeg /\ q = lit 0.75 /\ png_ = false
                 /\ (N.max (Pixels.width canvas) (Pixels.height canvas) <= 2500)%N
       | none => mime = image_png /\ png_ = true /\ canvas = img
       end
    /\ (forall cap,
          (level = high /\ cap = 1500%N) \/ (level = normal /\ cap = 2500%N) ->
          ((N.max (Pixels.width img) (Pixels.height img) <= cap)%N ->
           canvas = img)
          /\ ((cap < N.max (Pixels.width img) (Pixels.height img))%N ->
              canvas = fitted cap img)).
Proof.
  intros G Ld Sw Sh C B.
  exists (canvasSize level img), (mimeType level), (quality level),
    (MimeType_eqb (mimeType level) image_png).
  split; [|split].
  - rewrite (processImage_general G). unfold canvasPath, bind, emit.
    fold (sourceOf input). rewrite Ld, C. simpl. rewrite B. unfold ret. simpl.
    rewrite <- app_assoc. reflexivity.
  - destruct level.
    + repeat split. now apply canvasSize_none.
    + repeat split. now apply (@canvasSize_cap normal img).
    + repeat split. now apply (@canvasSize_cap high img).
  - intros cap Hc.
    assert (Hcap : cap = maxDimension level /\ (0 < maxDimension level)%N)
      by (destruct Hc as [[-> ->] | [-> ->]]; split; reflexivity).
    destruct Hcap as [-> Hm]. split; intros Hb.
    + apply canvasSize_within; try assumption; lia.
    + now apply canvasSize_beyond.
Qed.

End Rounding.

(** C6, as it is worded, in the arithmetic of the code: an image of 3000
    by 62 pixels under [high] is drawn on a canvas of 1500 by 30 pixels,
    since 1500 / (3000 / 62) is 30.999999999999996 in doubles and the canvas
    keeps whole pixels; the canvas is 50 times wider than high, the image
    48.38...; the same size computed exactly is 1500 by 31, in the ratio of
    the image. *)
Lemma resize_loses_the_ratio :
  @processImage stripEnv (IsFile big_bmp) high W0
  = (Ok {| data := [xff; xd8; xff; xe0; x0f; x00]; isPng := false |},
     {| mergedPdf := [];
        log := [CallImageLoad (arrayBuffer big_bmp);
                CallToBlob (Pixels.mk 1500 30) image_jpeg (lit 0.5)] |})
  /\ (1500 * 62 <> 30 * 3000)%N
  /\ @canvasSize exactEnv high (Pixels.mk 3000 62) = Pixels.mk 1500 31.
Proof.
  split; [reflexivity|]. split; [discriminate | reflexivity].
Qed.

End Raster.

Section Assembly.

Context {E : Env}.

Local Open Scope js_scope.

(** ** Worlds *)

Lemma Wapp_W0_r w : Wapp w W0 = w.
Proof. destruct w. unfold Wapp. simpl. now rewrite !app_nil_r. Qed.

Lemma Wapp_assoc a b c : Wapp a (Wapp b c) = Wapp (Wapp a b) c.
Proof. unfold Wapp. simpl. now rewrite !app_assoc. Qed.

(** ** The combinators are tame *)

Lemma tame_ret {A} (a : A) : tame (ret a).
Proof.
  repeat split; simpl; auto. intros w. unfold ret. simpl. now rewrite Wapp_W0_r.
Qed.

Lemma tame_throw {A} (e : Thrown) : tame (@throw E A e).
Proof.
  repeat split; simpl; auto. intros w. unfold throw. simpl. now rewrite Wapp_W0_r.
Qed.

Lemma tame_lift {A} (r : Result A) : tame (lift r).
Proof.
  repeat split; simpl; auto. intros w. unfold lift. simpl. now rewrite Wapp_W0_r.
Qed.

Lemma tame_emit (e : Event) : perFileEvent e -> tame (emit e).
Proof.
  intros H. split; [|split]; simpl.
  - intros w. unfold emit, Wapp. simpl. now rewrite app_nil_r.
  - constructor; [exact H | constructor].
  - constructor.
Qed.

Lemma bind_W0 {A B} (m : M A) (k : A -> M B) :
  bind m k W0
  = match fst (m W0) with
    | Ok a => k a (snd (m W0))
    | Throw e => (Throw e, snd (m W0))
    end.
Proof. unfold bind. destruct (m W0) as [[a|e] d]; reflexivity. Qed.

Lemma try_catch_W0 {A} (m : M A) (handler : Thrown -> M A) :
  try_catch m handler W0
  = match fst (m W0) with
    | Ok a => (Ok a, snd (m W0))
    | Throw e => handler e (snd (m W0))
    end.
Proof. unfold try_catch. destruct (m W0) as [[a|e] d]; reflexivity. Qed.

Lemma tame_bind {A B} (m : M A) (k : A -> M B) :
  tame m -> (forall a, tame (k a)) -> tame (bind m k).
Proof.
  intros (Fm & Em & Pm) Hk. unfold tame, framed. rewrite bind_W0.
  split; [|split].
  - intros w. unfold bind. rewrite (Fm w).
    destruct (fst (m W0)) as [a|e]; [|reflexivity].
    destruct (Hk a) as (Fk & _).
    rewrite (Fk (Wapp w (snd (m W0)))), (Fk (snd (m W0))). simpl.
    now rewrite Wapp_assoc.
  - destruct (fst (m W0)) as [a|e]; [|exact Em].
    destruct (Hk a) as (Fk & Ek & _).
    rewrite (Fk (snd (m W0))). simpl. apply Forall_app. split; assumption.
  - destruct (fst (m W0)) as [a|e]; [|exact Pm].
    destruct (Hk a) as (Fk & _ & Pk).
    rewrite (Fk (snd (m W0))). simpl. apply Forall_app. split; assumption.
Qed.

Lemma tame_try_catch {A} (m : M A) (handler : Thrown -> M A) :
  tame m -> (forall e, tame (handler e)) -> tame (try_catch m handler).
Proof.
  intros (Fm & Em & Pm) Hk. unfold tame, framed. rewrite try_catch_W0.
  split; [|split].
  - intros w. unfold try_catch. rewrite (Fm w).
    destruct (fst (m W0)) as [a|e]; [reflexivity|].
    destruct (Hk e) as (Fk & _).
    rewrite (Fk (Wapp w (snd (m W0)))), (Fk (snd (m W0))). simpl.
    now rewrite Wapp_assoc.
  - destruct (fst (m W0)) as [a|e]; [exact Em|].
    destruct (Hk e) as (Fk & Ek & _).
    rewrite (Fk (snd (m W0))). simpl. apply Forall_app. split; assumption.
  - destruct (fst (m W0)) as [a|e]; [exact Pm|].
    destruct (Hk e) as (Fk & _ & Pk).
    rewrite (Fk (snd (m W0))). simpl. apply Forall_app. split; assumption.
Qed.

(** ** Page compositor *)

Lemma modify_nth_last {A} (f : A -> A) (l : list A) (a : A) :
  modify_nth (List.length l) f (l ++ [a]) = l ++ [f a].
Proof. induction l; simpl; [reflexivity | now rewrite IHl]. Qed.

Lemma normalized_geometry (d : Drawing PDFEmbeddedPage PDFImage) :
  optionsOf d
  = DrawOptions.mk (ofN 0) (ofN 0) TARGET_WIDTH
      (times (Size.height (intrinsicSize d))
             (divide TARGET_WIDTH (Size.width (intrinsicSize d)))) ->
  normalizedPage
    {| pageSize := (TARGET_WIDTH,
                    times (Size.height (intrinsicSize d))
                          (divide TARGET_WIDTH (Size.width (intrinsicSize d))));
       drawings := [d] |}.
Proof.
  intros Ho. exists d. simpl. rewrite Ho. simpl.
  repeat split; reflexivity.
Qed.

Lemma placeEmbeddedPage_run (ep : PDFEmbeddedPage) (w : World) :
  placeEmbeddedPage ep w
  = (Ok tt,
     {| mergedPdf :=
          mergedPdf w
          ++ [ {| pageSize :=
                    (TARGET_WIDTH,
                     times (Size.height (embeddedPage_size ep))
                           (divide TARGET_WIDTH (Size.width (embeddedPage_size ep))));
                  drawings :=
                    [DrawPage ep
                       (DrawOptions.mk (ofN 0) (ofN 0) TARGET_WIDTH
                          (times (Size.height (embeddedPage_size ep))
                                 (divide TARGET_WIDTH
                                         (Size.width (embeddedPage_size ep)))))]
               |} ];
        log := log w |}).
Proof.
  unfold placeEmbeddedPage, bind, addPage, draw. simpl.
  now rewrite modify_nth_last.
Qed.

Lemma placeImage_run (im : PDFImage) (w : World) :
  placeImage im w
  = (Ok tt,
     {| mergedPdf :=
          mergedPdf w
          ++ [ {| pageSize :=
                    (TARGET_WIDTH,
                     times (Size.height (scale im (ofN 1)))
                           (divide TARGET_WIDTH (Size.width (scale im (ofN 1)))));
                  drawings :=
                    [DrawImage im
                       (DrawOptions.mk (ofN 0) (ofN 0) TARGET_WIDTH
                          (times (Size.height (scale im (ofN 1)))
                                 (divide TARGET_WIDTH
                                         (Size.width (scale im (ofN 1))))))]
               |} ];
        log := log w |}).
Proof.
  unfold placeImage, bind, addPage, draw. simpl.
  now rewrite modify_nth_last.
Qed.

Lemma tame_placeEmbeddedPage ep : tame (placeEmbeddedPage ep).
Proof.
  repeat split.
  - intros w. rewrite !placeEmbeddedPage_run. unfold Wapp. simpl.
    now rewrite app_nil_r.
  - rewrite placeEmbeddedPage_run. constructor.
  - rewrite placeEmbeddedPage_run. simpl. constructor; [|constructor].
    apply (normalized_geometry (DrawPage ep _)). reflexivity.
Qed.

Lemma tame_placeImage im : tame (placeImage im).
Proof.
  repeat split.
  - intros w. rewrite !placeImage_run. unfold Wapp. simpl.
    now rewrite app_nil_r.
  - rewrite placeImage_run. constructor.
  - rewrite placeImage_run. simpl. constructor; [|constructor].
    apply (normalized_geometry (DrawImage im _)). reflexivity.
Qed.

Lemma tame_forEach {A} (f : A -> M unit) (l : list A) :
  (forall a, tame (f a)) -> tame (forEach f l).
Proof.
  intros Hf. induction l as [|a l IH]; simpl.
  - apply tame_ret.
  - apply tame_bind; auto.
Qed.

(** ** One input *)

(** An external call: its event, then its result. *)
Ltac tame_call :=
  apply tame_bind; [apply tame_emit; now split | intros; apply tame_lift].

Lemma tame_canvasPath input level : tame (canvasPath input level).
Proof.
  unfold canvasPath. apply tame_bind; [apply tame_emit; now split|].
  intros _. destruct (Image_load _); [|apply tame_throw].
  destruct (negb getContext_2d); [apply tame_throw|].
  apply tame_bind; [apply tame_emit; now split|].
  intros _. destruct (toBlob _ _ _ _ _); [apply tame_ret | apply tame_throw].
Qed.

Lemma tame_processImage input level : tame (processImage input level).
Proof.
  destruct level, input; simpl; try apply tame_canvasPath.
  destruct (negb _); [apply tame_ret | apply tame_canvasPath].
Qed.

Lemma tame_call_embedPng b : tame (call_embedPng b).
Proof. tame_call. Qed.

Lemma tame_call_embedJpg b : tame (call_embedJpg b).
Proof. tame_call. Qed.

Lemma tame_embedImage b isPng_ : tame (embedImage b isPng_).
Proof.
  unfold embedImage. apply tame_try_catch.
  - destruct isPng_; [apply tame_call_embedPng | apply tame_call_embedJpg].
  - intros _. apply tame_try_catch;
      [apply tame_call_embedJpg | intros; apply tame_call_embedPng].
Qed.

Lemma tame_processFile f level : tame (processFile f level).
Proof.
  unfold processFile.
  assert (I : tame (r <- processImage
                          match convertedBlob f with
                          | Some blob => IsUint8Array blob
                          | None => IsFile (file f)
                          end level ;;
                    image <- embedImage (data r) (isPng r) ;;
                    placeImage image)).
  { apply tame_bind; [apply tame_processImage|]. intros r.
    apply tame_bind; [apply tame_embedImage|]. intros im.
    apply tame_placeImage. }
  destruct (type f); try exact I.
  apply tame_bind; [tame_call|].
  intros sp. apply tame_bind; [tame_call|].
  intros eps. apply tame_forEach. apply tame_placeEmbeddedPage.
Qed.

Lemma processFile_run f level w :
  processFile f level w
  = (fileResult f level,
     Wapp w {| mergedPdf := filePages f level; log := fileEvents f level |}).
Proof.
  destruct (tame_processFile f level) as (F & _).
  rewrite (F w). unfold fileResult, filePages, fileEvents.
  destruct (snd (processFile f level W0)). reflexivity.
Qed.

(** ** The loop *)

Lemma loop_cons_ok level n i f rest w :
  fileResult f level = Ok tt ->
  loop level n i (f :: rest) w
  = loop level n (S i) rest (Wapp w (turn level n i f)).
Proof.
  intros H. simpl. unfold bind at 1. unfold emit at 1.
  unfold bind at 1. unfold try_catch. rewrite processFile_run, H.
  unfold Wapp, turn. simpl. now rewrite <- app_assoc.
Qed.

Lemma loop_cons_fail level n i f rest w e :
  fileResult f level = Throw e ->
  loop level n i (f :: rest) w
  = (Throw (mergeError (name (file f)) e), Wapp w (turn level n i f)).
Proof.
  intros H. simpl. unfold bind at 1. unfold emit at 1.
  unfold bind at 1. unfold try_catch. rewrite processFile_run, H.
  unfold Wapp, turn, throw. simpl. now rewrite <- app_assoc.
Qed.

Lemma loopLog_cons level n i f rest :
  loopLog level n i (f :: rest)
  = log (turn level n i f) ++ loopLog level n (S i) rest.
Proof. reflexivity. Qed.

Lemma loop_ok_run level n files : forall i w,
  Forall (fun f => fileResult f level = Ok tt) files ->
  loop level n i files w
  = (Ok tt, Wapp w {| mergedPdf := List.concat (contributions level files);
                      log := loopLog level n i files |}).
Proof.
  induction files as [|f rest IH]; intros i w H.
  - simpl. unfold ret. now rewrite Wapp_W0_r.
  - inversion H as [|? ? Hf Hrest]; subst.
    rewrite loop_cons_ok by exact Hf. rewrite IH by exact Hrest.
    rewrite <- Wapp_assoc. reflexivity.
Qed.

Lemma loop_fail_run level n pre f post e : forall i w,
  Forall (fun g => fileResult g level = Ok tt) pre ->
  fileResult f level = Throw e ->
  loop level n i (pre ++ f :: post) w
  = (Throw (mergeError (name (file f)) e),
     Wapp w {| mergedPdf := List.concat (contributions level pre) ++ filePages f level;
               log := loopLog level n i pre
                      ++ log (turn level n (i + List.length pre) f) |}).
Proof.
  induction pre as [|g pre IH]; intros i w H Hf.
  - simpl app. erewrite loop_cons_fail by exact Hf.
    rewrite Nat.add_0_r. reflexivity.
  - inversion H as [|? ? Hg Hpre]; subst.
    change ((g :: pre) ++ f :: post) with (g :: (pre ++ f :: post)).
    rewrite loop_cons_ok by exact Hg. rewrite IH by assumption.
    rewrite <- Wapp_assoc. unfold Wapp. simpl.
    rewrite <- !app_assoc. simpl.
    rewrite Nat.add_succ_r. reflexivity.
Qed.

(** Either every input is processed, or there is a first one that is not. *)
Lemma first_failure level (files : list UploadedFile) :
  Forall (fun f => fileResult f level = Ok tt) files
  \/ exists pre f post e,
       files = pre ++ f :: post
       /\ Forall (fun g => fileResult g level = Ok tt) pre
       /\ fileResult f level = Throw e.
Proof.
  induction files as [|f rest IH].
  - left. constructor.
  - destruct (fileResult f level) as [[]|e] eqn:Hf.
    + destruct IH as [IH | (pre & g & post & e & -> & Hpre & Hg)].
      * left. now constructor.
      * right. exists (f :: pre), g, post, e. repeat split; auto.
    + right. exists [], f, rest, e. repeat split; auto.
Qed.

Lemma mergeFiles_all_ok files level w0 :
  Forall (fun f => fileResult f level = Ok tt) files ->
  mergeFiles files level w0
  = (save (List.concat (contributions level files)),
     {| mergedPdf := List.concat (contributions level files);
        log := log w0
               ++ loopLog level (List.length files) 0 files
               ++ [OnProgress finalMessage 100;
                   CallSave (List.concat (contributions level files))] |}).
Proof.
  intros H. unfold mergeFiles. unfold bind at 1.
  rewrite loop_ok_run by exact H. unfold call_save, bind, emit, lift, Wapp. simpl.
  rewrite <- !app_assoc. simpl.
  destruct (save _); reflexivity.
Qed.

Lemma mergeFiles_first_failure pre f post e level w0 :
  Forall (fun g => fileResult g level = Ok tt) pre ->
  fileResult f level = Throw e ->
  mergeFiles (pre ++ f :: post) level w0
  = (Throw (mergeError (name (file f)) e),
     {| mergedPdf := List.concat (contributions level pre) ++ filePages f level;
        log := log w0
               ++ loopLog level (List.length (pre ++ f :: post)) 0 pre
               ++ log (turn level (List.length (pre ++ f :: post))
                         (List.length pre) f) |}).
Proof.
  intros H Hf. unfold mergeFiles. unfold bind at 1.
  erewrite loop_fail_run by eassumption. reflexivity.
Qed.

Lemma mergeFiles_ok_inv files level w0 out w :
  mergeFiles files level w0 = (Ok out, w) ->
  Forall (fun f => fileResult f level = Ok tt) files.
Proof.
  intros H. destruct (first_failure level files)
    as [A | (pre & f & post & e & -> & Hpre & Hf)]; [exact A|].
  erewrite mergeFiles_first_failure in H by eassumption. discriminate.
Qed.

End Assembly.

Section Orchestrator.

Context {E : Env}.

(** ** Helpers on lists and logs *)


Lemma filePages_normalized f level : Forall normalizedPage (filePages f level).
Proof. destruct (tame_processFile f level) as (_ & _ & P). exact P. Qed.

Lemma fileEvents_perFile f level : Forall perFileEvent (fileEvents f level).
Proof. destruct (tame_processFile f level) as (_ & P & _). exact P. Qed.

Lemma contributions_normalized level files :
  Forall normalizedPage (List.concat (contributions level files)).
Proof.
  apply Forall_concat. unfold contributions. apply Forall_map.
  apply Forall_forall. intros f _. apply filePages_normalized.
Qed.

Lemma turn_no_save level n i f :
  Forall (fun ev => isCallSave ev = false) (log (turn level n i f)).
Proof.
  simpl. constructor; [reflexivity|].
  eapply Forall_impl; [|apply fileEvents_perFile]. intros ev [_ H]. exact H.
Qed.

Lemma loopLog_no_save level n files : forall i,
  Forall (fun ev => isCallSave ev = false) (loopLog level n i files).
Proof.
  induction files as [|f rest IH]; intros i.
  - constructor.
  - rewrite loopLog_cons. apply Forall_app. split; [apply turn_no_save | apply IH].
Qed.

Lemma processing_is_not_final i nm p :
  isFinalize (OnProgress (processingMessage i nm) p) = false.
Proof. reflexivity. Qed.



Lemma append_assoc (a b c : string) :
  ((a ++ b) ++ c = a ++ (b ++ c))%string.
Proof. induction a; simpl; [reflexivity | now rewrite IHa]. Qed.

Lemma append_nil_r (a : string) : (a ++ "" = a)%string.
Proof. induction a; simpl; [reflexivity | now rewrite IHa]. Qed.


(** ** Page geometry (C1) *)

(** *** The ratio under rounding *)

Lemma range_constants :
  (0 < tiny)%Q /\ (0 < 1 # (2 ^ 500))%Q
  /\ (tiny * inject_Z (2 ^ 500) <= 1)%Q
  /\ (1000 <= huge * (1 # (2 ^ 500)))%Q
  /\ (2 * tiny <= (1 # (2 ^ 500)) * (1 # (2 ^ 500)))%Q
  /\ (2000 * (inject_Z (2 ^ 500) * inject_Z (2 ^ 500)) <= huge)%Q
  /\ ((1 # (2 ^ 500)) * inject_Z (2 ^ 500) == 1)%Q.
Proof.
  unfold tiny, huge.
  repeat split; unfold Qle, Qlt, Qeq; vm_compute; discriminate || reflexivity.
Qed.

(** The quotient and the product of the geometry rule stay in the range of
    the normal numbers; stated for any bounds that relate as [tiny], [huge]
    and the bounds of [moderate] do. *)
Lemma in_range (tn hg l h t a b c1 : Q) :
  (0 < tn)%Q -> (0 < l)%Q -> (tn * h <= 1)%Q -> (1000 <= hg * l)%Q ->
  (2 * tn <= l * l)%Q -> (2000 * (h * h) <= hg)%Q -> (l * h == 1)%Q ->
  (595 <= t)%Q -> (t <= 596)%Q ->
  (l <= a)%Q -> (a <= h)%Q -> (l <= b)%Q -> (b <= h)%Q ->
  ((1 # 2) * (t / a) <= c1)%Q -> (c1 <= 2 * (t / a))%Q ->
  (tn <= t / a)%Q /\ (t / a <= hg)%Q /\ (tn <= b * c1)%Q /\ (b * c1 <= hg)%Q.
Proof.
  intros Ptn Pl C2 C3 C4 C5 C6 T1 T2 A1 A2 B1 B2 D1 D2.
  assert (Pa : (0 < a)%Q) by lra.
  assert (Ph : (0 < h)%Q) by lra.
  assert (Q1 : (l <= t / a)%Q).
  { apply Qle_shift_div_l; [exact Pa|]. nra. }
  assert (Q2 : (t / a <= 596 * h)%Q).
  { apply Qle_shift_div_r; [exact Pa|]. nra. }
  set (x := (t / a)%Q) in *. clearbody x.
  assert (L1 : (l <= 1)%Q) by nra.
  assert (H1 : (1 <= h)%Q) by nra.
  assert (Pc : (0 < c1)%Q) by lra.
  assert (M1 : (l * l <= l)%Q) by nra.
  assert (M2 : (h <= h * h)%Q) by nra.
  assert (M3 : (l * (l * (1 # 2)) <= b * c1)%Q).
  { apply Qle_trans with (l * c1)%Q; [apply Qmult_le_l; lra|].
    apply Qmult_le_compat_r; lra. }
  assert (M4 : (b * c1 <= h * (2 * (596 * h)))%Q).
  { apply Qle_trans with (h * c1)%Q; [apply Qmult_le_compat_r; lra|].
    apply Qmult_le_l; lra. }
  repeat split; try lra; nra.
Qed.

(** Two roundings, each off by at most [u], keep the ratio within
    [(1 - u)^2] and [(1 + u)^2]. *)
Lemma ratio_bounds (u t a b c1 c : Q) :
  (0 <= u)%Q -> (u <= 1 # 2)%Q -> (0 < t)%Q -> (0 < a)%Q -> (0 < b)%Q ->
  ((1 - u) * (t / a) <= c1)%Q -> (c1 <= (1 + u) * (t / a))%Q ->
  ((1 - u) * (b * c1) <= c)%Q -> (c <= (1 + u) * (b * c1))%Q ->
  ((1 - u) * (1 - u) * (b / a) <= c / t)%Q
  /\ (c / t <= (1 + u) * (1 + u) * (b / a))%Q.
Proof.
  intros U0 U1 Pt Pa Pb D1 D2 E1 E2.
  assert (Hx : (t / a * a == t)%Q) by (field; lra).
  assert (Hy : (b / a * a == b)%Q) by (field; lra).
  assert (Px : (0 < t / a)%Q) by (apply Qlt_shift_div_l; lra).
  assert (Py : (0 < b / a)%Q) by (apply Qlt_shift_div_l; lra).
  set (x := (t / a)%Q) in *. set (y := (b / a)%Q) in *.
  clearbody x y.
  assert (Hxy : (b * x == y * t)%Q) by nra.
  assert (N1 : ((1 - u) * b * ((1 - u) * x) <= (1 - u) * b * c1)%Q).
  { rewrite !(Qmult_comm ((1 - u) * b)).
    apply Qmult_le_compat_r; [exact D1 | nra]. }
  assert (N2 : ((1 + u) * b * c1 <= (1 + u) * b * ((1 + u) * x))%Q).
  { rewrite !(Qmult_comm ((1 + u) * b)).
    apply Qmult_le_compat_r; [exact D2 | nra]. }
  split.
  - apply Qle_shift_div_l; [exact Pt|]. nra.
  - apply Qle_shift_div_r; [exact Pt|]. nra.
Qed.

Lemma normalized_ratio {L : IEEE754} (p : Page) :
  normalizedPage p -> ratioKept p.
Proof.
  intros (d0 & Hd & Hw & Hh & _) d a b Hd' Ha Hb [A1 A2] [B1 B2].
  rewrite Hd in Hd'. injection Hd' as <-.
  destruct (@lit_accurate _ L 595.28%Q) as (t & Ht & T1 & T2);
    [simpl; lia | simpl; lia |].
  assert (U : (0 <= ulp)%Q /\ (ulp <= 1 # 2)%Q)
    by (unfold ulp, Qle; simpl; lia).
  destruct U as (U0 & U1).
  assert (T3 : (595 <= t)%Q) by (unfold ulp in T1; lra).
  assert (T4 : (t <= 596)%Q) by (unfold ulp in T2; lra).
  destruct range_constants as (C0 & C1 & C2 & C3 & C4 & C5 & C6).
  assert (Pa : (0 < a)%Q) by lra.
  assert (Pb : (0 < b)%Q) by lra.
  assert (Px : (0 < t / a)%Q) by (apply Qlt_shift_div_l; lra).
  assert (R0 : (tiny <= t / a)%Q /\ (t / a <= huge)%Q).
  { destruct (@in_range tiny huge (1 # (2 ^ 500)) (inject_Z (2 ^ 500))
                t a b (t / a)) as (X1 & X2 & _); try assumption; lra. }
  destruct R0 as [R1 R2].
  destruct (@divide_accurate _ L (lit 595.28) (Size.width (intrinsicSize d0))
              t a Ht Ha) as (c1 & Hc1 & D1 & D2); try assumption; [lra|].
  assert (Pc1 : (0 < c1)%Q) by nra.
  destruct (@in_range tiny huge (1 # (2 ^ 500)) (inject_Z (2 ^ 500))
              t a b c1) as (_ & _ & X3 & X4); try assumption; try nra.
  destruct (@times_accurate _ L (Size.height (intrinsicSize d0))
              (divide (lit 595.28) (Size.width (intrinsicSize d0)))
              b c1 Hb Hc1) as (c & Hc & E1 & E2); try assumption.
  exists t, c. rewrite Hw, Hh. split; [exact Ht|]. split; [exact Hc|].
  apply ratio_bounds with c1; try assumption; lra.
Qed.

(** C1, as it is worded, in the arithmetic of the code: the one page of a
    US Letter document, 612 by 792 points, becomes a page 595.28 wide and
    [792 * (595.28 / 612)] high, and neither the quotient the code would
    compute from these two numbers nor the quotient of their exact values
    is 792 / 612. *)
Lemma letter_page_ratio_differs :
  exists p c t,
    mergedPdf (snd (@mergeFiles letterEnv [A_pdf] none W0)) = [p]
    /\ fst (pageSize p) = lit 595.28
    /\ snd (pageSize p) = times (ofN 792) (divide (lit 595.28) (ofN 612))
    /\ divide (snd (pageSize p)) (fst (pageSize p)) <> divide (ofN 792) (ofN 612)
    /\ toQ (snd (pageSize p)) = Some c
    /\ toQ (fst (pageSize p)) = Some t
    /\ ~ (c / t == 792 / 612)%Q.
Proof.
  eexists _, _, _. split; [reflexivity|]. cbn [pageSize fst snd].
  split; [reflexivity|]. split; [reflexivity|]. split.
  { intros C.
    apply (f_equal (fun x => PrimFloat.eqb x (@divide Double (ofN 792) (ofN 612))))
      in C.
    vm_compute in C. discriminate C. }
  split; [reflexivity|]. split; [reflexivity|].
  intros C. apply Qeq_bool_iff in C. discriminate C.
Qed.

(** C1, amended. Whatever the inputs and however the run ends, every page
    that [mergeFiles] has appended to the document carries exactly one
    drawing, is [595.28] wide and [intrinsic_height * (595.28 /
    intrinsic_width)] high, in the numbers and the operations of the code,
    where the intrinsic size is that of the embedded page or image drawn on
    it; the drawing is placed at (0, 0) with the width and the height of
    the page; and, in an arithmetic that rounds correctly, for an intrinsic
    size between 2^-500 and 2^500, the height of the page over its width is
    the intrinsic height over the intrinsic width up to the two roundings,
    that is, up to a factor between [(1 - 2^-53)^2] and [(1 + 2^-53)^2]. *)
Theorem mergeFiles_page_geometry
  (files : list UploadedFile) (level : CompressionLevel) (w0 : World) :
  Forall (fun p => normalizedPage p /\ (IEEE754 -> ratioKept p))
         (mergedPdf (snd (mergeFiles files level w0))).
Proof.
  assert (N : Forall normalizedPage (mergedPdf (snd (mergeFiles files level w0)))).
  { destruct (first_failure level files)
      as [A | (pre & f & post & e & -> & Hpre & Hf)].
    - rewrite mergeFiles_all_ok by exact A. simpl.
      apply contributions_normalized.
    - erewrite mergeFiles_first_failure by eassumption. simpl.
      apply Forall_app. split;
        [apply contributions_normalized | apply filePages_normalized]. }
  eapply Forall_impl; [|exact N].
  intros p Hp. split; [exact Hp|]. intros L. now apply normalized_ratio.
Qed.

(** ** Page order (C2) *)


(** ** Failure of one input (C4) *)

(** The three ways an input fails, as [fileResult] sees them. *)

Lemma fileResult_open_error f level e :
  type f = pdf ->
  PDFDocument_load (arrayBuffer (file f)) = Throw e ->
  fileResult f level = Throw e.
Proof.
  intros T L. unfold fileResult, processFile. rewrite T.
  unfold call_load, bind, emit, lift. simpl. now rewrite L.
Qed.

Lemma fileResult_decode_error f level :
  type f <> pdf ->
  generalPath (match convertedBlob f with
               | Some blob => IsUint8Array blob
               | None => IsFile (file f)
               end) level ->
  Image_load (match convertedBlob f with
              | Some blob => blob
              | None => arrayBuffer (file f)
              end) = None ->
  fileResult f level = Throw (JsError "Failed to load image for processing.").
Proof.
  intros T G L. unfold fileResult, processFile.
  assert (R : fst (processImage
                     match convertedBlob f with
                     | Some blob => IsUint8Array blob
                     | None => IsFile (file f)
                     end level W0)
              = Throw (JsError "Failed to load image for processing.")).
  { rewrite (processImage_general G). unfold canvasPath, bind, emit. simpl.
    destruct (convertedBlob f); rewrite L; reflexivity. }
  destruct (type f); try contradiction; unfold bind at 1;
    destruct (processImage _ level W0) as [[r|e] w1]; simpl in R;
    try discriminate; injection R as ->; reflexivity.
Qed.

Lemma fileResult_embed_error f level r w1 e0 e1 e2 :
  type f <> pdf ->
  processImage (match convertedBlob f with
                | Some blob => IsUint8Array blob
                | None => IsFile (file f)
                end) level W0 = (Ok r, w1) ->
  embedWith (reportedCodec (isPng r)) (data r) = Throw e0 ->
  embedJpg (data r) = Throw e1 ->
  embedPng (data r) = Throw e2 ->
  fileResult f level = Throw e2.
Proof.
  intros T P H0 H1 H2. unfold fileResult, processFile.
  assert (R : fst (embedImage (data r) (isPng r) w1) = Throw e2).
  { unfold embedImage, try_catch, call_embedPng, call_embedJpg, bind, emit, lift.
    destruct (isPng r); simpl in *.
    - assert (e0 = e2) by congruence. subst e0.
      repeat (first [rewrite H1 | rewrite H2]; simpl). reflexivity.
    - repeat (first [rewrite H0 | rewrite H2]; simpl). reflexivity. }
  destruct (type f); try contradiction; unfold bind at 1; rewrite P;
    unfold bind at 1;
    destruct (embedImage (data r) (isPng r) w1) as [[im|e] w2]; simpl in R;
    try discriminate; injection R as ->; reflexivity.
Qed.

(** A string that occurs in another is found by [index]. *)
Lemma prefix_app (sub after : string) : prefix sub (sub ++ after) = true.
Proof.
  induction sub as [|c r IH]; simpl; [destruct after; reflexivity|].
  destruct (ascii_dec c c); [exact IH | contradiction].
Qed.

Lemma contains_index (sub s : string) :
  contains sub s -> index 0 sub s <> None.
Proof.
  intros (before & after & ->).
  induction before as [|c r IH].
  - change (("" ++ sub ++ after)%string) with ((sub ++ after)%string).
    pose proof (prefix_app sub after) as P.
    destruct (sub ++ after)%string eqn:S.
    + destruct sub; [discriminate | discriminate S].
    + cbn [index]. rewrite P. discriminate.
  - change ((String c r ++ sub ++ after)%string)
      with (String c (r ++ sub ++ after)).
    cbn [index]. destruct (prefix sub _); [discriminate|].
    destruct (index 0 sub (r ++ sub ++ after)); [discriminate | contradiction].
Qed.

(** C4, as it is worded, in an environment whose codecs reject the image as
    those of pdf-lib do: the last attempt is [embedPng], which throws the
    string [The input is not a PNG file!]; that is what processing the input
    throws, and the message of the error [mergeFiles] raises ends in the
    fixed text for a value that is not an [Error]: the cause is not in it. *)
Lemma thrown_string_is_not_reported :
  @fileResult rejectingEnv B_png none
  = Throw (NotAnError "The input is not a PNG file!")
  /\ fst (@mergeFiles rejectingEnv [B_png] none W0)
     = Throw (JsError "合并文件 B.png 时出错: 未知错误")
  /\ ~ contains (thrownText (NotAnError "The input is not a PNG file!"))
                "合并文件 B.png 时出错: 未知错误".
Proof.
  split; [reflexivity|]. split; [reflexivity|].
  intros C. apply contains_index in C. apply C. reflexivity.
Qed.

(** C4, amended. When the inputs before [f] are processed and processing
    [f] throws [e], [mergeFiles] throws an [Error] whose message is the
    display name of [f] and the text of [e] inside a fixed frame, where the
    text of [e] is its message when [e] is an [Error] and the fixed text
    [未知错误] when it is any other value; it returns no bytes, and the
    serializer is never called, so no page of the inputs processed so far
    reaches any output. *)
Theorem mergeFiles_failure
  (pre : list UploadedFile) (f : UploadedFile) (post : list UploadedFile)
  (level : CompressionLevel) (w0 : World) (e : Thrown) :
  Forall (fun g => fileResult g level = Ok tt) pre ->
  fileResult f level = Throw e ->
  exists msg w evs,
    mergeFiles (pre ++ f :: post) level w0 = (Throw (JsError msg), w)
    /\ msg = ("合并文件 " ++ name (file f) ++ " 时出错: " ++ errorText e)%string
    /\ contains (name (file f)) msg
    /\ contains (errorText e) msg
    /\ (forall cause, e = JsError cause -> errorText e = cause)
    /\ (forall value, e = NotAnError value -> errorText e = "未知错误"%string)
    /\ log w = log w0 ++ evs
    /\ Forall (fun ev => isCallSave ev = false) evs.
Proof.
  intros Hpre Hf.
  eexists _, _, _. split.
  { erewrite mergeFiles_first_failure by eassumption.
    unfold mergeError. reflexivity. }
  split; [reflexivity|]. split; [exists "合并文件 "%string, (" 时出错: " ++ errorText e)%string; reflexivity|].
  split.
  { exists ("合并文件 " ++ name (file f) ++ " 时出错: ")%string, ""%string.
    rewrite append_nil_r, !append_assoc. reflexivity. }
  split; [intros cause ->; reflexivity|].
  split; [intros value ->; reflexivity|].
  split; [reflexivity|].
  apply Forall_app. split; [apply loopLog_no_save | apply turn_no_save].
Qed.

(** ** Progress reports (C9) *)



(** The percent the code reports for the 23rd of 40 inputs is 57: the
    double nearest to 23 / 40, times 100, is 57.49999999999999; in exact
    arithmetic the product is 57.5 and rounds to 58. *)
Example progress_of_23rd_of_40 :
  @progressOf toyEnv 22 40 = 57%Z /\ @progressOf toyEnv64 22 40 = 57%Z
  /\ @progressOf exactEnv 22 40 = 58%Z.
Proof. repeat split; reflexivity. Qed.

(** ** No input (C10) *)

(** C10, as it is worded, in the toy environment, whose serializer writes
    one byte per page after the header: what [mergeFiles] returns for no
    input is the serialization of a document of one page, the blank page
    [save] adds, not that of a document without pages. *)
Lemma empty_merge_has_a_page :
  fst (@mergeFiles toyEnv [] none W0) = @serialize toyEnv [defaultPage]
  /\ @serialize toyEnv [defaultPage] = Ok (toy_magic ++ [x01])
  /\ @serialize toyEnv [] = Ok toy_magic
  /\ fst (@mergeFiles toyEnv [] none W0) <> @serialize toyEnv [].
Proof.
  split; [reflexivity|]. split; [reflexivity|]. split; [reflexivity|].
  discriminate.
Qed.

(** C10, amended. With no input, [mergeFiles] runs no turn of the loop and
    throws nothing of its own: the only events are the finalize progress
    event at 100 followed by the call of [save] on the document without
    pages, and the result is what the serializer gives, bytes or error, for
    the document of the one blank page that [save] adds. *)
Theorem mergeFiles_empty (level : CompressionLevel) (w0 : World) :
  mergeFiles [] level w0
  = (serialize [defaultPage],
     {| mergedPdf := [];
        log := log w0 ++ [OnProgress finalMessage 100; CallSave []] |})
  /\ filter isOnProgress [OnProgress finalMessage 100; CallSave []]
     = [OnProgress finalMessage 100].
Proof.
  split; [|reflexivity].
  rewrite mergeFiles_all_ok by constructor. reflexivity.
Qed.

(** ** Pages per input (C3) *)

Lemma forEach_place_run (eps : list PDFEmbeddedPage) : forall w,
  exists pages,
    List.length pages = List.length eps
    /\ forEach placeEmbeddedPage eps w
       = (Ok tt, {| mergedPdf := mergedPdf w ++ pages; log := log w |}).
Proof.
  induction eps as [|ep eps IH]; intros w.
  - exists []. split; [reflexivity|]. simpl. unfold ret.
    rewrite app_nil_r. destruct w. reflexivity.
  - simpl forEach. unfold bind. rewrite placeEmbeddedPage_run.
    match goal with
    | |- context [forEach placeEmbeddedPage eps ?w1] =>
        destruct (IH w1) as (pages & L & R)
    end.
    eexists (_ :: pages). split; [simpl; now rewrite L|].
    rewrite R. simpl. now rewrite <- app_assoc.
Qed.

Lemma filePages_pdf f level :
  type f = pdf ->
  fileResult f level = Ok tt ->
  exists sourcePdf embeddedPages,
    PDFDocument_load (arrayBuffer (file f)) = Ok sourcePdf
    /\ embedPages (getPages sourcePdf) = Ok embeddedPages
    /\ List.length (filePages f level) = List.length embeddedPages.
Proof.
  unfold fileResult, filePages, processFile. intros -> H.
  unfold call_load, call_embedPages, bind, emit, lift in *. simpl in *.
  destruct (PDFDocument_load (arrayBuffer (file f))) as [sp|e] eqn:HL;
    [|discriminate].
  destruct (embedPages (getPages sp)) as [eps|e] eqn:HE; [|discriminate].
  exists sp, eps. split; [reflexivity|]. split; [exact HE|].
  destruct (forEach_place_run eps
              {| mergedPdf := []; log := [CallLoad (arrayBuffer (file f));
                                          CallEmbedPages (getPages sp)] |})
    as (pages & L & R).
  simpl in R. rewrite R. simpl. exact L.
Qed.

Lemma processImage_pages input level w :
  mergedPdf (snd (processImage input level w)) = mergedPdf w.
Proof.
  unfold processImage, canvasPath, bind, emit, ret, throw.
  destruct level, input; simpl;
    repeat match goal with
           | |- context [match ?x with _ => _ end] => destruct x; simpl
           | |- context [if ?x then _ else _] => destruct x; simpl
           end; reflexivity.
Qed.

Lemma embedImage_pages b isPng_ w :
  mergedPdf (snd (embedImage b isPng_ w)) = mergedPdf w.
Proof.
  unfold embedImage, try_catch, call_embedPng, call_embedJpg, bind, emit, lift.
  destruct isPng_; simpl;
    destruct (embedPng b), (embedJpg b); reflexivity.
Qed.

Lemma filePages_image f level :
  type f <> pdf ->
  fileResult f level = Ok tt ->
  List.length (filePages f level) = 1.
Proof.
  unfold fileResult, filePages, processFile. intros T H.
  set (input := match convertedBlob f with
                | Some blob => IsUint8Array blob
                | None => IsFile (file f)
                end) in *.
  assert (G : fst ((r <- processImage input level ;;
                    image <- embedImage (data r) (isPng r) ;;
                    placeImage image)%js W0) = Ok tt
              -> List.length
                   (mergedPdf (snd ((r <- processImage input level ;;
                                     image <- embedImage (data r) (isPng r) ;;
                                     placeImage image)%js W0))) = 1).
  { clear. unfold bind at 1 3.
    pose proof (processImage_pages input level W0) as P1.
    destruct (processImage input level W0) as [[r|e] w1]; [|discriminate].
    simpl in P1. unfold bind.
    pose proof (embedImage_pages (data r) (isPng r) w1) as P2.
    destruct (embedImage (data r) (isPng r) w1) as [[im|e] w2]; [|discriminate].
    simpl in P2. rewrite placeImage_run. simpl. rewrite P2, P1. reflexivity. }
  destruct (type f); try (exact (G H)). contradiction.
Qed.

(** C3, as it is worded, in the toy environment: a PDF without pages is
    merged without error and contributes no page. *)
Lemma empty_pdf_is_skipped :
  isOk (fst (@mergeFiles toyEnv [empty_pdf] none W0)) = true
  /\ @filePages toyEnv empty_pdf none = []
  /\ ~ (1 <= List.length (@filePages toyEnv empty_pdf none)).
Proof.
  split; [reflexivity|]. split; [reflexivity|]. simpl. lia.
Qed.

(** C3, amended. When [mergeFiles] returns bytes, every input that is not a
    PDF has contributed exactly one page, and every PDF input has
    contributed one page per page that [embedPages] returned for it, which
    may be none: no page count is checked. *)
Theorem mergeFiles_contribution_counts
  (files : list UploadedFile) (level : CompressionLevel) (w0 : World)
  (out : bytes) (w : World) :
  mergeFiles files level w0 = (Ok out, w) ->
  Forall (fun f =>
            match type f with
            | pdf =>
                exists sourcePdf embeddedPages,
                  PDFDocument_load (arrayBuffer (file f)) = Ok sourcePdf
                  /\ embedPages (getPages sourcePdf) = Ok embeddedPages
                  /\ List.length (filePages f level)
                     = List.length embeddedPages
            | _ => List.length (filePages f level) = 1
            end) files.
Proof.
  intros H. pose proof (mergeFiles_ok_inv _ _ _ H) as A.
  eapply Forall_impl; [|exact A]. intros f Hf. simpl in Hf.
  destruct (type f) eqn:T.
  - now apply filePages_pdf.
  - apply filePages_image; [congruence | exact Hf].
  - apply filePages_image; [congruence | exact Hf].
  - apply filePages_image; [congruence | exact Hf].
Qed.

(** ** Embedding retries (C7) *)

(** C7, as it is worded, in the toy environment, on bytes neither codec
    accepts: after the reported codec and the opposite codec have failed, a
    third attempt is made; and when JPEG was reported, the first retry is
    JPEG again. *)
Lemma embedImage_third_attempt :
  isOk (@embedWith toyEnv image_png [x00]) = false
  /\ embedCalls (log (snd (@embedImage toyEnv [x00] true W0)))
     = [image_png; image_jpeg; image_png]
  /\ embedCalls (log (snd (@embedImage toyEnv [x00] true W0)))
     <> [image_png; image_jpeg]
  /\ embedCalls (log (snd (@embedImage toyEnv [x00] false W0)))
     = [image_jpeg; image_jpeg; image_png].
Proof.
  split; [reflexivity|]. split; [reflexivity|]. split; [discriminate|].
  reflexivity.
Qed.

(** C7, amended. When embedding under the reported codec fails, [embedJpg]
    is attempted and, if it fails, [embedPng], whatever codec was reported.
    With PNG reported the attempts are PNG, JPEG and, when JPEG failed, PNG
    again; with JPEG reported they are JPEG, JPEG, PNG.  The opposite codec
    is attempted exactly once, and the result is the image of the first
    retry that succeeds, or else what the last [embedPng] threw. *)
Theorem embedImage_retry
  (imageBytes : bytes) (isPng_ : bool) (w : World) (e0 : Thrown) :
  embedWith (reportedCodec isPng_) imageBytes = Throw e0 ->
  exists evs,
    embedImage imageBytes isPng_ w
    = (match embedJpg imageBytes with
       | Ok im => Ok im
       | Throw _ => embedPng imageBytes
       end,
       {| mergedPdf := mergedPdf w; log := log w ++ evs |})
    /\ evs = callEmbed (reportedCodec isPng_) imageBytes
             :: CallEmbedJpg imageBytes
             :: match embedJpg imageBytes with
                | Ok _ => []
                | Throw _ => [CallEmbedPng imageBytes]
                end
    /\ embedCalls evs
       = (if isPng_
          then match embedJpg imageBytes with
               | Ok _ => [image_png; image_jpeg]
               | Throw _ => [image_png; image_jpeg; image_png]
               end
          else [image_jpeg; image_jpeg; image_png])
    /\ List.length
         (filter (MimeType_eqb (opposite (reportedCodec isPng_)))
                 (embedCalls evs)) = 1.
Proof.
  intros H. eexists. split; [|split; [reflexivity|]].
  - unfold embedImage, try_catch, call_embedPng, call_embedJpg, bind, emit, lift.
    destruct isPng_; simpl in *; rewrite H; simpl;
      destruct (embedJpg imageBytes); simpl;
      rewrite <- ?app_assoc; try reflexivity; discriminate.
  - destruct isPng_; simpl in *.
    + destruct (embedJpg imageBytes); split; reflexivity.
    + rewrite H. split; reflexivity.
Qed.

End Orchestrator.

(** * Runs in the toy environments *)

Section ToyRuns.

#[local] Existing Instance toyEnv.

(** The end-to-end scenario: [A.pdf] (one page, 300 by 300) and [B.png]
    (600 by 300) under policy [none] give two pages, 595.28 by 595.28 and
    595.28 by 297.64, and the progress reports 50, 100, 100. *)
Example end_to_end_scenario :
  let r := mergeFiles [A_pdf; B_png] none W0 in
  isOk (fst r) = true
  /\ map (fun p => pageSize p) (mergedPdf (snd r))
     = [(lit 595.28, lit 595.28); (lit 595.28, lit 297.64)]
  /\ filter isOnProgress (log (snd r))
     = [OnProgress "正在处理第 1 个文件: A.pdf..." 50;
        OnProgress "正在处理第 2 个文件: B.png..." 100;
        OnProgress "正在打包生成最终文件..." 100].
Proof.
  repeat split; reflexivity.
Qed.

Lemma mergeFiles_page_geometry_witness :
  Forall (fun p => normalizedPage p /\ ratioKept p)
         (mergedPdf (snd (@mergeFiles letterEnv64 [A_pdf; B_png] none W0))).
Proof.
  eapply Forall_impl;
    [|exact (@mergeFiles_page_geometry letterEnv64 [A_pdf; B_png] none W0)].
  intros p [N R]. split; [exact N | exact (R Binary64_IEEE754)].
Defined.


Lemma mergeFiles_contribution_counts_witness :
  mergeFiles [A_pdf; B_png] none W0 = (Ok toy_out, snd toy_run)
  /\ List.length (filePages B_png none) = 1.
Proof.
  split; [reflexivity|].
  pose proof (@mergeFiles_contribution_counts toyEnv [A_pdf; B_png] none W0
                toy_out (snd toy_run) eq_refl) as F.
  inversion F as [|? ? _ F']. inversion F' as [|? ? One _]. exact One.
Defined.

Lemma mergeFiles_failure_witness :
  fileResult A_pdf none = Ok tt
  /\ fileResult broken_img none
     = Throw (JsError "Failed to load image for processing.")
  /\ exists w,
       mergeFiles ([A_pdf] ++ broken_img :: [B_png]) none W0
       = (Throw (JsError
            "合并文件 broken.gif 时出错: Failed to load image for processing."),
          w).
Proof.
  split; [reflexivity|]. split; [reflexivity|].
  destruct (@mergeFiles_failure toyEnv [A_pdf] broken_img [B_png] none W0
              (JsError "Failed to load image for processing."))
    as (msg & w & evs & R & M & _);
    [constructor; [reflexivity | constructor] | reflexivity |].
  exists w. rewrite R, M. reflexivity.
Defined.

Lemma processImage_fast_path_witness :
  detectImageType (arrayBuffer (file B_png)) = png
  /\ exists r,
       processImage (IsFile (file B_png)) none W0 = (Ok r, W0)
       /\ data r = arrayBuffer (file B_png)
       /\ isPng r = true.
Proof.
  split; [reflexivity|].
  destruct (@processImage_fast_path toyEnv (file B_png) W0)
    as (r & R & D & P & _); [discriminate|].
  exists r. split; [exact R|]. split; [exact D|]. apply P. reflexivity.
Defined.

Lemma processImage_general_path_witness :
  @Image_load stripEnv64 (arrayBuffer big_bmp) = Some (Pixels.mk 3000 62)
  /\ @fitted stripEnv64 1500 (Pixels.mk 3000 62) = Pixels.mk 1500 30
  /\ exists canvas,
       @processImage stripEnv64 (IsFile big_bmp) high W0
       = (Ok {| data := [xff; xd8; xff; xe0; x0f; x00]; isPng := false |},
          {| mergedPdf := [];
             log := [CallImageLoad (arrayBuffer big_bmp);
                     CallToBlob canvas image_jpeg (lit 0.5)] |})
       /\ (N.max (Pixels.width canvas) (Pixels.height canvas) <= 1500)%N
       /\ canvas = @fitted stripEnv64 1500 (Pixels.mk 3000 62).
Proof.
  split; [reflexivity|]. split; [reflexivity|].
  destruct (@processImage_general_path stripEnv64 Binary64_IEEE754 (IsFile big_bmp) high
              (Pixels.mk 3000 62) [xff; xd8; xff; xe0; x0f; x00] W0)
    as (canvas & mime & q & png_ & R & (-> & -> & -> & C) & F);
    [left; discriminate | reflexivity | reflexivity | reflexivity
     | reflexivity | reflexivity |].
  exists canvas. split; [exact R|]. split; [exact C|].
  apply (F 1500%N); [left; split; reflexivity | reflexivity].
Defined.

Lemma embedImage_retry_witness :
  embedWith image_png [x00] = Throw (JsError "The input is not a PNG file!")
  /\ exists evs,
       embedImage [x00] true W0
       = (Throw (JsError "The input is not a PNG file!"),
          {| mergedPdf := []; log := evs |})
       /\ embedCalls evs = [image_png; image_jpeg; image_png].
Proof.
  split; [reflexivity|].
  destruct (@embedImage_retry toyEnv [x00] true W0
              (JsError "The input is not a PNG file!") eq_refl)
    as (evs & R & _ & C & _).
  exists evs. split; [exact R | exact C].
Defined.


Lemma mergeFiles_empty_witness :
  mergeFiles [] high W0
  = (Ok (toy_magic ++ [x01]),
     {| mergedPdf := [];
        log := [OnProgress finalMessage 100; CallSave []] |}).
Proof.
  exact (proj1 (@mergeFiles_empty toyEnv high W0)).
Defined.

Lemma detectImageType_spec_witness :
  detectImageType [xff; xd8] = unknown.
Proof.
  apply (detectImageType_spec [xff; xd8]). simpl. lia.
Defined.

End ToyRuns.

(** * Further properties of the pipeline *)

Section PipelineMore.

Context {E : Env}.

(** ** Sniffer and resize *)

Lemma detectImageType_firstn (b : bytes) :
  detectImageType (firstn 4 b) = detectImageType b.
Proof.
  destruct b as [|b0 [|b1 [|b2 [|b3 r]]]]; reflexivity.
Qed.

(** X1. The class is decided by the first four bytes alone: inputs that
    agree on them get the same class, whatever follows. *)
Theorem detectImageType_first_four (b b' : bytes) :
  firstn 4 b = firstn 4 b' -> detectImageType b = detectImageType b'.
Proof.
  intros F. rewrite <- (detectImageType_firstn b), <- (detectImageType_firstn b').
  now rewrite F.
Qed.

(** X2. Resizing is idempotent: the canvas [canvasSize] gives is a size
    it leaves alone, so normalizing an already normalized raster under the
    same policy does not shrink it again.  Sizes are below 2^32, as those of
    an image are, and the arithmetic rounds correctly. *)
Theorem canvasSize_idempotent {L : IEEE754}
  (level : CompressionLevel) (img : Pixels.t) :
  small (Pixels.width img) -> small (Pixels.height img) ->
  canvasSize level (canvasSize level img) = canvasSize level img.
Proof.
  intros Sw Sh.
  destruct (N.eq_dec (maxDimension level) 0) as [Z|NZ].
  - destruct level; try discriminate Z.
    rewrite !(@canvasSize_none _ L img Sw Sh). reflexivity.
  - pose proof (@canvasSize_cap _ L level img Sw Sh) as C.
    assert (Hm : (0 < maxDimension level)%N) by lia.
    specialize (C Hm). pose proof (small_cap level) as Sm.
    apply canvasSize_within; try lia;
      apply small_le with (maxDimension level); try assumption; lia.
Qed.

(** ** Progress *)

(** X3. Over [n] inputs, fewer than 2^32 as the elements of an array are,
    in an arithmetic that rounds correctly, the percentages reported for the
    inputs lie between 0 and 100, never decrease from one input to the
    next, and the one of the last input is 100. *)
Theorem progressOf_bounds {L : IEEE754} (i j n : nat) :
  i <= j -> j < n -> small (N.of_nat n) ->
  (0 <= progressOf i n <= progressOf j n)%Z
  /\ (progressOf j n <= 100)%Z
  /\ progressOf (n - 1) n = 100%Z.
Proof.
  intros Hij Hjn Sn.
  assert (S100 : small 100) by reflexivity.
  assert (Q : forall k, k < n ->
            small (N.of_nat (k + 1))
            /\ leqb (ofN 0) (divide (ofN (N.of_nat (k + 1))) (ofN (N.of_nat n))) = true
            /\ leqb (divide (ofN (N.of_nat (k + 1))) (ofN (N.of_nat n))) (ofN 1) = true).
  { intros k Hk.
    assert (Sk : small (N.of_nat (k + 1))) by (unfold small in *; lia).
    split; [exact Sk|]. apply quotient_in_unit; try assumption; lia. }
  assert (P : forall k, k < n ->
            leqb (ofN 0)
                 (times (divide (ofN (N.of_nat (k + 1))) (ofN (N.of_nat n))) (ofN 100))
            = true
            /\ leqb (times (divide (ofN (N.of_nat (k + 1))) (ofN (N.of_nat n))) (ofN 100))
                    (ofN 100) = true).
  { intros k Hk. destruct (Q k Hk) as (_ & Q0 & Q1). split.
    - rewrite <- (@times_ofN _ L 0 100) at 1 by reflexivity.
      apply times_mono; [exact S100 | reflexivity | exact Q0].
    - rewrite <- (@times_ofN _ L 1 100) at 2 by reflexivity.
      apply times_mono; [exact S100 | reflexivity | exact Q1]. }
  destruct (P i ltac:(lia)) as (Pi0 & Pi1).
  destruct (P j Hjn) as (Pj0 & Pj1).
  assert (M : leqb (times (divide (ofN (N.of_nat (i + 1))) (ofN (N.of_nat n))) (ofN 100))
                   (times (divide (ofN (N.of_nat (j + 1))) (ofN (N.of_nat n))) (ofN 100))
              = true).
  { apply times_mono; [exact S100 | reflexivity|].
    destruct (Q i ltac:(lia)) as (Si & _). destruct (Q j Hjn) as (Sj & _).
    apply divide_mono; try assumption; lia. }
  assert (R0 : Math_round (ofN 0) = 0%Z) by apply (@round_ofN _ L 0 small_0).
  assert (R100 : Math_round (ofN 100) = 100%Z) by apply (@round_ofN _ L 100 S100).
  unfold progressOf. split; [split|split].
  - rewrite <- R0.
    apply (@round_mono _ L _ _ 100 S100); try assumption.
    apply leqb_refl_ofN, small_0.
  - now apply (@round_mono _ L _ _ 100 S100).
  - rewrite <- R100.
    apply (@round_mono _ L _ _ 100 S100); try assumption.
    now apply leqb_refl_ofN.
  - replace (n - 1 + 1) with n by lia.
    rewrite (@divide_self _ L (N.of_nat n)) by (try assumption; lia).
    rewrite (@times_ofN _ L 1 100) by reflexivity.
    exact R100.
Qed.

(** ** Embedding *)

(** X4. Embedding an image succeeds exactly when at least one of the two
    codecs accepts the bytes, whichever codec was reported; and when the
    reported codec accepts them, it is the only one called. *)
Theorem embedImage_succeeds_iff (imageBytes : bytes) (isPng_ : bool) (w : World) :
  isOk (fst (embedImage imageBytes isPng_ w))
  = isOk (embedPng imageBytes) || isOk (embedJpg imageBytes)
  /\ (isOk (embedWith (reportedCodec isPng_) imageBytes) = true ->
      embedImage imageBytes isPng_ w
      = (embedWith (reportedCodec isPng_) imageBytes,
         {| mergedPdf := mergedPdf w;
            log := log w ++ [callEmbed (reportedCodec isPng_) imageBytes] |})).
Proof.
  unfold embedImage, try_catch, call_embedPng, call_embedJpg, bind, emit, lift.
  destruct isPng_; simpl;
    destruct (embedPng imageBytes), (embedJpg imageBytes); simpl;
    split; try reflexivity; discriminate.
Qed.

(** ** One input *)

Lemma bind_log_extends {A B} (m : M A) (k : A -> M B) (w : World) :
  (forall a, tame (k a)) ->
  exists extra, log (snd (bind m k w)) = log (snd (m w)) ++ extra.
Proof.
  intros Hk. unfold bind. destruct (m w) as [[a|e] w1]; simpl.
  - destruct (Hk a) as (F & _). rewrite (F w1). simpl. eauto.
  - exists []. now rewrite app_nil_r.
Qed.

Lemma canvasPath_log_head input level w :
  exists extra,
    log (snd (canvasPath input level w))
    = log w ++ CallImageLoad (sourceOf input) :: extra.
Proof.
  unfold canvasPath, bind, emit, ret, throw. fold (sourceOf input). simpl.
  destruct (Image_load (sourceOf input)); simpl; [|eauto].
  destruct getContext_2d; simpl; [|eauto].
  destruct (toBlob _ _ _ _ _); simpl; rewrite <- app_assoc; simpl; eauto.
Qed.

Lemma forEach_place_log (eps : list PDFEmbeddedPage) (w : World) :
  log (snd (forEach placeEmbeddedPage eps w)) = log w.
Proof.
  destruct (forEach_place_run eps w) as (pages & _ & R). now rewrite R.
Qed.

(** X5. A PDF input is processed the same way under every compression
    policy, and processing it calls nothing but [PDFDocument.load] and
    [embedPages]: no decoder, no encoder, no image embedding. *)
Theorem pdf_ignores_policy (f : UploadedFile) :
  type f = pdf ->
  (forall l1 l2 w, processFile f l1 w = processFile f l2 w)
  /\ (forall level, Forall (fun e => isPdfCall e = true) (fileEvents f level)).
Proof.
  intros T. split.
  - intros l1 l2 w. unfold processFile. now rewrite T.
  - intros level. unfold fileEvents, processFile. rewrite T.
    unfold call_load, call_embedPages, bind, emit, lift. simpl.
    destruct (PDFDocument_load (arrayBuffer (file f))) as [sp|e]; simpl;
      [|repeat constructor].
    destruct (embedPages (getPages sp)) as [eps|e]; simpl;
      [|repeat constructor].
    rewrite forEach_place_log. simpl. repeat constructor.
Qed.

(** X6. Inputs that are not PDFs are all processed alike: the declared
    kind ([image], [docx], [xlsx]) makes no difference, only the file and the
    converted bytes do.  In particular an office document without converted
    bytes is handled as an image and raises no error of its own. *)
Theorem kind_is_irrelevant (f g : UploadedFile) (level : CompressionLevel)
  (w : World) :
  type f <> pdf -> type g <> pdf ->
  file f = file g -> convertedBlob f = convertedBlob g ->
  processFile f level w = processFile g level w.
Proof.
  intros Tf Tg Ef Eb. unfold processFile. rewrite Ef, Eb.
  destruct (type f), (type g); try contradiction; reflexivity.
Qed.

(** X7. When converted bytes are present, the bytes of the original file
    are never read: two inputs with the same converted bytes are processed
    alike; and the converted bytes are always decoded first, under every
    policy, whatever their signature. *)
Theorem converted_bytes_are_decoded (f g : UploadedFile) (b : bytes)
  (level : CompressionLevel) (w : World) :
  type f <> pdf -> type g <> pdf ->
  convertedBlob f = Some b -> convertedBlob g = Some b ->
  processFile f level w = processFile g level w
  /\ exists extra, fileEvents f level = CallImageLoad b :: extra.
Proof.
  intros Tf Tg Bf Bg. split.
  - unfold processFile. rewrite Bf, Bg.
    destruct (type f), (type g); try contradiction; reflexivity.
  - assert (G : generalPath (IsUint8Array b) level) by (right; left; eauto).
    assert (X : exists extra,
               log (snd ((r <- processImage (IsUint8Array b) level ;;
                          image <- embedImage (data r) (isPng r) ;;
                          placeImage image)%js W0))
               = CallImageLoad b :: extra).
    { edestruct (@bind_log_extends _ _ (processImage (IsUint8Array b) level)
                   (fun r => (image <- embedImage (data r) (isPng r) ;;
                              placeImage image)%js) W0) as (x1 & X1).
      { intros r. apply tame_bind; [apply tame_embedImage|].
        intros im. apply tame_placeImage. }
      rewrite X1, (processImage_general G).
      destruct (canvasPath_log_head (IsUint8Array b) level W0) as (x2 & X2).
      rewrite X2. simpl. eauto. }
    unfold fileEvents, processFile. rewrite Bf.
    destruct (type f); try contradiction; exact X.
Qed.

(** X8. Under policy [none], an original upload whose bytes sniff as PNG or
    JPEG reaches the document byte for byte: the only call is the embedding
    of the file's own bytes under the sniffed codec, and when it succeeds the
    input contributes the one page composed for that image. *)
Theorem original_upload_embedded_verbatim (f : UploadedFile)
  (im : PDFImage) (w : World) :
  type f <> pdf ->
  convertedBlob f = None ->
  detectImageType (arrayBuffer (file f)) <> unknown ->
  embedWith (reportedCodec (ImageType_eqb (detectImageType (arrayBuffer (file f))) png))
            (arrayBuffer (file f)) = Ok im ->
  processFile f none w
  = (Ok tt,
     {| mergedPdf := mergedPdf w ++ [imagePage im];
        log := log w
               ++ [callEmbed
                     (reportedCodec
                        (ImageType_eqb (detectImageType (arrayBuffer (file f))) png))
                     (arrayBuffer (file f))] |}).
Proof.
  intros T B D Em.
  assert (X : (r <- processImage (IsFile (file f)) none ;;
               image <- embedImage (data r) (isPng r) ;;
               placeImage image)%js w
              = (Ok tt,
                 {| mergedPdf := mergedPdf w ++ [imagePage im];
                    log := log w
                           ++ [callEmbed
                                 (reportedCodec
                                    (ImageType_eqb
                                       (detectImageType (arrayBuffer (file f))) png))
                                 (arrayBuffer (file f))] |})).
  { unfold bind at 1. simpl processImage.
    destruct (detectImageType (arrayBuffer (file f))) eqn:DT; try congruence;
      simpl in *; unfold ret; unfold bind at 1;
      unfold embedImage, try_catch, call_embedPng, call_embedJpg, bind, emit, lift;
      simpl; rewrite Em; simpl; rewrite placeImage_run; reflexivity. }
  unfold processFile. rewrite B.
  destruct (type f); try contradiction; exact X.
Qed.

(** ** The whole merge *)

(** X9. [mergeFiles] returns bytes exactly when every input is processed
    without error and the serializer returns those bytes for the
    concatenation of the contributions. *)
Theorem mergeFiles_succeeds_iff (files : list UploadedFile)
  (level : CompressionLevel) (w0 : World) (out : bytes) :
  (exists w, mergeFiles files level w0 = (Ok out, w))
  <-> Forall (fun f => fileResult f level = Ok tt) files
      /\ save (List.concat (contributions level files)) = Ok out.
Proof.
  split.
  - intros (w & R). pose proof (mergeFiles_ok_inv _ _ _ R) as A.
    split; [exact A|]. rewrite mergeFiles_all_ok in R by exact A.
    now injection R as R _.
  - intros (A & S). eexists. rewrite mergeFiles_all_ok by exact A.
    rewrite S. reflexivity.
Qed.

(** X10. When every input is processed but the serializer throws, the
    error reaches the caller as it is, without any file name around it, after
    all pages have been assembled and the progress report at 100 has been
    made. *)
Theorem mergeFiles_save_error (files : list UploadedFile)
  (level : CompressionLevel) (w0 : World) (e : Thrown) :
  Forall (fun f => fileResult f level = Ok tt) files ->
  save (List.concat (contributions level files)) = Throw e ->
  exists before,
    mergeFiles files level w0
    = (Throw e,
       {| mergedPdf := List.concat (contributions level files);
          log := log w0 ++ before
                 ++ [OnProgress finalMessage 100;
                     CallSave (List.concat (contributions level files))] |}).
Proof.
  intros A S. eexists. rewrite mergeFiles_all_ok by exact A.
  rewrite S. reflexivity.
Qed.

(** X11. The inputs after the first one that fails are never touched: the
    run, its error and its log are the same whatever those inputs are, as
    long as there are as many of them. *)
Theorem failure_skips_the_rest (pre : list UploadedFile) (f : UploadedFile)
  (post post' : list UploadedFile) (level : CompressionLevel) (w0 : World)
  (e : Thrown) :
  Forall (fun g => fileResult g level = Ok tt) pre ->
  fileResult f level = Throw e ->
  List.length post = List.length post' ->
  mergeFiles (pre ++ f :: post) level w0
  = mergeFiles (pre ++ f :: post') level w0.
Proof.
  intros A F L.
  erewrite !mergeFiles_first_failure by eassumption.
  rewrite !length_app. simpl. now rewrite L.
Qed.

End PipelineMore.

(** * Properties of the history log *)

Section HistoryProps.

Context {HE : HistoryEnv}.

Lemma getHistory_store (s : Storage) (value : Json) :
  JSON_stringify value <> ""%string ->
  JSON_parse (JSON_stringify value) = Ok value ->
  getHistory (store s STORAGE_KEY (JSON_stringify value)) = value.
Proof.
  intros N R. unfold getHistory, getItem, store.
  rewrite String.eqb_refl.
  destruct (String.eqb_spec (JSON_stringify value) ""); [contradiction|].
  now rewrite R.
Qed.

Lemma store_other (s : Storage) (key value k : string) :
  k <> key -> store s key value k = s k.
Proof.
  intros N. unfold store. now destruct (String.eqb_spec k key).
Qed.

Lemma idDiffers_not_null (id : string) (item : Json) :
  item <> JNull -> idDiffers id item = Ok (negb (hasId id item)).
Proof.
  intros N. destruct item as [| | | | |properties]; try reflexivity;
    [contradiction|].
  unfold idDiffers, hasId, idOf.
  destruct (property "id" properties) as [[| | |v| |]|]; reflexivity.
Qed.

Lemma filterItems_ok (id : string) (elements : list Json) :
  Forall (fun item => item <> JNull) elements ->
  filterItems id elements
  = Ok (filter (fun item => negb (hasId id item)) elements).
Proof.
  induction 1 as [|item rest Hi _ IH]; [reflexivity|].
  simpl. rewrite (idDiffers_not_null id Hi), IH.
  destruct (negb (hasId id item)); reflexivity.
Qed.

Lemma filterItems_null (id : string) (elements : list Json) :
  In JNull elements -> filterItems id elements = Throw (TypeError JNull).
Proof.
  induction elements as [|item rest IH]; [contradiction|].
  intros [->|I]; [reflexivity|]. simpl.
  destruct (idDiffers id item) as [keep|e] eqn:D.
  - now rewrite (IH I).
  - destruct item; try discriminate D. injection D as <-. reflexivity.
Qed.

(** X12. When the stored value can be spread (it is an array, as every
    value this module stores is), the new list can be stored and JSON gives
    it back as it was, [addHistoryItem] returns the new item followed by the
    49 first earlier elements, at most 50 in all; reading the history
    afterwards gives that same list; no other key of the storage is touched.
    When the stored text parses to a value that cannot be spread ([null], a
    number, a boolean, an object), [addHistoryItem] returns the empty list
    and stores nothing. *)
Theorem addHistoryItem_then_getHistory (item : HistoryItem.t) (s : Storage) :
  (forall elements,
     spread (getHistory s) = Ok elements ->
     let updated := JArray (itemJson item :: firstn 49 elements) in
     setItem_throws s STORAGE_KEY (JSON_stringify updated) = None ->
     JSON_stringify updated <> ""%string ->
     JSON_parse (JSON_stringify updated) = Ok updated ->
     fst (addHistoryItem item s) = updated
     /\ getHistory (snd (addHistoryItem item s)) = updated
     /\ List.length (itemJson item :: firstn 49 elements) <= 50
     /\ (forall k, k <> STORAGE_KEY -> snd (addHistoryItem item s) k = s k))
  /\ (forall elements,
        getHistory s = JArray elements -> spread (getHistory s) = Ok elements)
  /\ (iterable (getHistory s) = false ->
      addHistoryItem item s = (JArray [], s)).
Proof.
  split; [|split].
  - intros elements Sp updated Q N R. unfold addHistoryItem, setItem.
    rewrite Sp.
    change (firstn MAX_HISTORY_ITEMS (itemJson item :: elements))
      with (itemJson item :: firstn 49 elements).
    fold updated. rewrite Q. cbn [fst snd].
    split; [reflexivity|]. split; [now apply getHistory_store|].
    split.
    + change (List.length (itemJson item :: firstn 49 elements))
        with (S (List.length (firstn 49 elements))).
      rewrite length_firstn. lia.
    + intros k Hk. now apply store_other.
  - intros elements ->. reflexivity.
  - intros I. unfold addHistoryItem.
    destruct (getHistory s); try discriminate I; reflexivity.
Qed.

(** X13. A failure to store is handled in two ways.  [addHistoryItem]
    catches it and returns the empty list, not the current history;
    [deleteHistoryItem] does not catch it and throws what [setItem] threw.
    In both cases the storage keeps what it held, so the history read back
    afterwards is the one from before. *)
Theorem history_storage_error (item : HistoryItem.t) (id : string)
  (s : Storage) (e : Thrown) :
  (forall elements,
     spread (getHistory s) = Ok elements ->
     setItem_throws s STORAGE_KEY
       (JSON_stringify (JArray (itemJson item :: firstn 49 elements))) = Some e ->
     addHistoryItem item s = (JArray [], s))
  /\ (forall kept,
        filterById id (getHistory s) = Ok kept ->
        setItem_throws s STORAGE_KEY (JSON_stringify (JArray kept)) = Some e ->
        deleteHistoryItem id s = (Throw e, s)).
Proof.
  split.
  - intros elements Sp Q. unfold addHistoryItem, setItem. rewrite Sp.
    change (firstn MAX_HISTORY_ITEMS (itemJson item :: elements))
      with (itemJson item :: firstn 49 elements).
    now rewrite Q.
  - intros kept F Q. unfold deleteHistoryItem, setItem. rewrite F.
    now rewrite Q.
Qed.

(** X14. When the stored text cannot be parsed, the history reads as empty,
    and the next [addHistoryItem] replaces the stored text by a history of
    that one item. *)
Theorem corrupt_history_is_replaced (item : HistoryItem.t) (s : Storage)
  (json : string) (e : Thrown) :
  s STORAGE_KEY = Some json ->
  JSON_parse json = Throw e ->
  setItem_throws s STORAGE_KEY (JSON_stringify (JArray [itemJson item])) = None ->
  getHistory s = JArray []
  /\ addHistoryItem item s
     = (JArray [itemJson item],
        store s STORAGE_KEY (JSON_stringify (JArray [itemJson item]))).
Proof.
  intros S P Q.
  assert (G : getHistory s = JArray []).
  { unfold getHistory, getItem. rewrite S, P. now destruct (String.eqb json ""). }
  split; [exact G|].
  unfold addHistoryItem, setItem. rewrite G.
  cbn [spread firstn MAX_HISTORY_ITEMS]. rewrite Q. reflexivity.
Qed.

(** X15. When the stored value is an array without [null] among its
    elements, the filtered list can be stored and JSON gives it back,
    [deleteHistoryItem] returns the elements whose id is not the given one,
    in their order: no returned element has that id, every other element is
    kept, an id that does not occur removes nothing; and the history read
    back afterwards is the returned list.  When the stored text parses to a
    value that is not an array, or to an array with a [null] element,
    [deleteHistoryItem] throws a [TypeError] and stores nothing. *)
Theorem deleteHistoryItem_spec (id : string) (s : Storage) :
  (forall elements,
     getHistory s = JArray elements ->
     Forall (fun item => item <> JNull) elements ->
     let updated := filter (fun item => negb (hasId id item)) elements in
     setItem_throws s STORAGE_KEY (JSON_stringify (JArray updated)) = None ->
     JSON_stringify (JArray updated) <> ""%string ->
     JSON_parse (JSON_stringify (JArray updated)) = Ok (JArray updated) ->
     fst (deleteHistoryItem id s) = Ok (JArray updated)
     /\ getHistory (snd (deleteHistoryItem id s)) = JArray updated
     /\ (forall item, In item updated
                      <-> In item elements /\ idOf item <> Some id)
     /\ (Forall (fun item => idOf item <> Some id) elements ->
         updated = elements)
     /\ (forall k, k <> STORAGE_KEY -> snd (deleteHistoryItem id s) k = s k))
  /\ (isArray (getHistory s) = false ->
      deleteHistoryItem id s = (Throw (TypeError (getHistory s)), s))
  /\ (forall elements,
        getHistory s = JArray elements -> In JNull elements ->
        deleteHistoryItem id s = (Throw (TypeError JNull), s)).
Proof.
  assert (X : forall item, negb (hasId id item) = true <-> idOf item <> Some id).
  { intros item. unfold hasId. destruct (idOf item) as [i|].
    - rewrite negb_true_iff, String.eqb_neq. split; congruence.
    - split; [discriminate | reflexivity]. }
  split; [|split].
  - intros elements G NN updated Q N R. unfold deleteHistoryItem, setItem.
    rewrite G. cbn [filterById]. rewrite (filterItems_ok id NN).
    fold updated. rewrite Q. cbn [fst snd].
    split; [reflexivity|]. split; [now apply getHistory_store|].
    split; [|split].
    + intros item. unfold updated. rewrite filter_In, X. reflexivity.
    + intros F. unfold updated. clear -F X.
      induction F as [|item l Hi _ IH]; [reflexivity|].
      simpl. apply X in Hi. rewrite Hi. now rewrite IH.
    + intros k Hk. now apply store_other.
  - intros A. unfold deleteHistoryItem.
    destruct (getHistory s); try discriminate A; reflexivity.
  - intros elements G I. unfold deleteHistoryItem. rewrite G.
    cbn [filterById]. now rewrite (filterItems_null id _ I).
Qed.

(** X16. After [clearHistory] the history reads as empty, the other keys
    are as before, and an [addHistoryItem] that can store starts a history of
    one item. *)
Theorem clearHistory_then (item : HistoryItem.t) (s : Storage) :
  setItem_throws (clearHistory s) STORAGE_KEY
    (JSON_stringify (JArray [itemJson item])) = None ->
  getHistory (clearHistory s) = JArray []
  /\ (forall k, k <> STORAGE_KEY -> clearHistory s k = s k)
  /\ fst (addHistoryItem item (clearHistory s)) = JArray [itemJson item].
Proof.
  intros Q.
  assert (G : getHistory (clearHistory s) = JArray []).
  { unfold getHistory, getItem, clearHistory, removeItem.
    now rewrite String.eqb_refl. }
  split; [exact G|]. split.
  - intros k Hk. unfold clearHistory, removeItem.
    now destruct (String.eqb_spec k STORAGE_KEY).
  - unfold addHistoryItem, setItem. rewrite G.
    cbn [spread firstn MAX_HISTORY_ITEMS]. now rewrite Q.
Qed.

End HistoryProps.

(** * Properties of the application *)

Section Classification.

(** ** Splitting a name at its dots *)

Lemma last_cons_nonempty {A} (x : A) (l : list A) (d : A) :
  l <> [] -> last (x :: l) d = last l d.
Proof. destruct l; [contradiction | reflexivity]. Qed.

Lemma split_dot_nonempty (s : string) : App.split_dot s <> [].
Proof.
  induction s as [|c r IH]; simpl; [discriminate|].
  destruct (App.isDot c); [discriminate|].
  destruct (App.split_dot r); discriminate.
Qed.

Lemma split_dot_no_dot (s : string) : hasDot s = false -> App.split_dot s = [s].
Proof.
  induction s as [|c r IH]; simpl; [reflexivity|].
  intros Hd. apply orb_false_iff in Hd as [Hc Hr].
  rewrite Hc, (IH Hr). reflexivity.
Qed.

Lemma split_dot_tail (stem ext : string) :
  exists seg segs,
    App.split_dot (stem ++ "." ++ ext) = seg :: segs
    /\ segs <> []
    /\ last segs EmptyString = last (App.split_dot ext) EmptyString.
Proof.
  induction stem as [|c r (seg & segs & S & N & L)]; simpl.
  - exists EmptyString, (App.split_dot ext).
    split; [reflexivity|]. split; [apply split_dot_nonempty | reflexivity].
  - simpl in S. destruct (App.isDot c).
    + exists EmptyString, (seg :: segs). rewrite S.
      split; [reflexivity|]. split; [discriminate|].
      now rewrite last_cons_nonempty.
    + rewrite S. exists (String c seg), segs. auto.
Qed.

Lemma typeStrOf_extension (stem ext : string) :
  hasDot ext = false ->
  App.typeStrOf (stem ++ "." ++ ext) = Some (App.toLowerCase ext)
  /\ App.typeStrOf ext = Some (App.toLowerCase ext).
Proof.
  intros Hd. unfold App.typeStrOf, App.pop.
  destruct (split_dot_tail stem ext) as (seg & segs & S & N & L).
  rewrite S, (split_dot_no_dot _ Hd).
  rewrite last_cons_nonempty, L, (split_dot_no_dot _ Hd) by exact N.
  split; reflexivity.
Qed.

(** ** Lower case *)

Lemma lowerChar_dot (c : ascii) : App.isDot (App.lowerChar c) = App.isDot c.
Proof. destruct c as [[] [] [] [] [] [] [] []]; reflexivity. Qed.

Lemma lowerChar_idempotent (c : ascii) :
  App.lowerChar (App.lowerChar c) = App.lowerChar c.
Proof. destruct c as [[] [] [] [] [] [] [] []]; reflexivity. Qed.

Lemma toLowerCase_idempotent (s : string) :
  App.toLowerCase (App.toLowerCase s) = App.toLowerCase s.
Proof.
  induction s as [|c r IH]; simpl; [reflexivity|].
  now rewrite lowerChar_idempotent, IH.
Qed.

Lemma split_dot_toLowerCase (s : string) :
  App.split_dot (App.toLowerCase s) = map App.toLowerCase (App.split_dot s).
Proof.
  induction s as [|c r IH]; simpl; [reflexivity|].
  rewrite lowerChar_dot, IH.
  destruct (App.isDot c); [reflexivity|].
  destruct (App.split_dot r); reflexivity.
Qed.

Lemma last_map_toLowerCase (l : list string) :
  last (map App.toLowerCase l) EmptyString
  = App.toLowerCase (last l EmptyString).
Proof.
  induction l as [|x l IH]; [reflexivity|].
  destruct l; [reflexivity|]. exact IH.
Qed.

Lemma typeStrOf_toLowerCase (name : string) :
  App.typeStrOf (App.toLowerCase name) = App.typeStrOf name.
Proof.
  unfold App.typeStrOf, App.pop. rewrite split_dot_toLowerCase.
  pose proof (split_dot_nonempty name) as N.
  destruct (App.split_dot name) as [|x l] eqn:S; [contradiction|].
  change (map App.toLowerCase (x :: l))
    with (App.toLowerCase x :: map App.toLowerCase l).
  cbn [option_map]. f_equal.
  change (App.toLowerCase x :: map App.toLowerCase l)
    with (map App.toLowerCase (x :: l)).
  now rewrite last_map_toLowerCase, toLowerCase_idempotent.
Qed.

(** The classification reads the name through [typeStrOf] only. *)
Lemma processFile_typeStr (id1 id2 : string) (f1 f2 : File) (mime : string) :
  App.typeStrOf (name f1) = App.typeStrOf (name f2) ->
  type (App.uploaded (App.processFile id1 f1 mime))
  = type (App.uploaded (App.processFile id2 f2 mime))
  /\ App.isConverting (App.processFile id1 f1 mime)
     = App.isConverting (App.processFile id2 f2 mime).
Proof.
  intros T. unfold App.processFile. rewrite T.
  destruct (String.eqb mime "application/pdf" || App.typeIs _ "pdf");
    [split; reflexivity|].
  destruct (App.typeIs _ "docx" || App.typeIs _ "doc"); [split; reflexivity|].
  destruct (App.typeIs _ "xlsx" || App.typeIs _ "xls"); [split; reflexivity|].
  destruct (App.typeIs _ "heic" || App.typeIs _ "heif"
            || String.eqb mime "image/heic" || String.eqb mime "image/heif");
    split; reflexivity.
Qed.

(** X17. Only the text after the last dot of the name is looked at: a file
    named [stem.ext] is classified like a file named [ext] without any dot,
    that is, a name without a dot is taken whole as its extension. *)
Theorem processFile_by_extension (id1 id2 : string) (f1 f2 : File)
  (mime stem ext : string) :
  hasDot ext = false ->
  name f1 = (stem ++ "." ++ ext)%string ->
  name f2 = ext ->
  type (App.uploaded (App.processFile id1 f1 mime))
  = type (App.uploaded (App.processFile id2 f2 mime))
  /\ App.isConverting (App.processFile id1 f1 mime)
     = App.isConverting (App.processFile id2 f2 mime).
Proof.
  intros Hd N1 N2. apply processFile_typeStr. rewrite N1, N2.
  destruct (typeStrOf_extension stem ext Hd) as [-> ->]. reflexivity.
Qed.

(** X18. The classification does not depend on the case of the letters A to
    Z in the name. *)
Theorem processFile_case_insensitive (id1 id2 : string) (f1 f2 : File)
  (mime : string) :
  name f2 = App.toLowerCase (name f1) ->
  type (App.uploaded (App.processFile id1 f1 mime))
  = type (App.uploaded (App.processFile id2 f2 mime))
  /\ App.isConverting (App.processFile id1 f1 mime)
     = App.isConverting (App.processFile id2 f2 mime).
Proof.
  intros N. apply processFile_typeStr. rewrite N.
  symmetry. apply typeStrOf_toLowerCase.
Qed.

(** X19. What [processFile] produces: a PDF is never marked for conversion
    and the MIME type [application/pdf] makes a PDF whatever the name; an
    office document is always marked for conversion; a preview exists
    exactly for an image that needs no conversion; there are no converted
    bytes yet. *)
Theorem processFile_invariants (newId : string) (f : File) (mime : string) :
  let a := App.processFile newId f mime in
  (type (App.uploaded a) = pdf -> App.isConverting a = false)
  /\ (mime = "application/pdf"%string -> type (App.uploaded a) = pdf)
  /\ (type (App.uploaded a) = docx \/ type (App.uploaded a) = xlsx ->
      App.isConverting a = true)
  /\ (App.previewUrl a <> None
      <-> type (App.uploaded a) = image /\ App.isConverting a = false)
  /\ convertedBlob (App.uploaded a) = None
  /\ file (App.uploaded a) = f.
Proof.
  unfold App.processFile.
  destruct (String.eqb_spec mime "application/pdf") as [M|M]; simpl.
  - repeat split; try discriminate; try reflexivity;
      try (intros [D|D]; discriminate); try (intros [D _]; discriminate);
      congruence.
  - destruct (App.typeIs _ "pdf"); simpl;
      [repeat split; try discriminate; try reflexivity;
       try (intros [D|D]; discriminate); try (intros [D _]; discriminate);
       congruence|].
    destruct (App.typeIs _ "docx" || App.typeIs _ "doc"); simpl;
      [repeat split; try discriminate; try reflexivity;
       try (intros [D _]; discriminate); congruence|].
    destruct (App.typeIs _ "xlsx" || App.typeIs _ "xls"); simpl;
      [repeat split; try discriminate; try reflexivity;
       try (intros [D _]; discriminate); congruence|].
    destruct (App.typeIs _ "heic" || App.typeIs _ "heif"
              || String.eqb mime "image/heic" || String.eqb mime "image/heif");
      simpl; repeat split; try discriminate; try reflexivity;
      try (intros [D|D]; discriminate); try (intros [_ D]; discriminate);
      congruence.
Qed.

End Classification.

Section Reordering.

Variable A : Type.

Implicit Types (l prev : list A) (x : A).

Lemma firstn_at_middle l1 l2 : firstn (List.length l1) (l1 ++ l2) = l1.
Proof.
  rewrite firstn_app, Nat.sub_diag, firstn_all. simpl. apply app_nil_r.
Qed.

Lemma skipn_at_middle l1 l2 : skipn (List.length l1) (l1 ++ l2) = l2.
Proof.
  rewrite skipn_app, Nat.sub_diag, skipn_all. reflexivity.
Qed.

Lemma skipn_past_middle l1 x l2 :
  skipn (S (List.length l1)) (l1 ++ x :: l2) = l2.
Proof.
  rewrite skipn_app, skipn_all2 by lia.
  replace (S (List.length l1) - List.length l1) with 1 by lia. reflexivity.
Qed.

Lemma nth_error_middle l1 x l2 :
  nth_error (l1 ++ x :: l2) (List.length l1) = Some x.
Proof. rewrite nth_error_app2, Nat.sub_diag by lia. reflexivity. Qed.

(** The move, on a list seen around the element that moves. *)
Lemma handleReorder_middle l1 x l2 (toIndex : nat) :
  App.handleReorder (List.length l1) toIndex (l1 ++ x :: l2)
  = map Some (firstn toIndex (l1 ++ l2) ++ x :: skipn toIndex (l1 ++ l2)).
Proof.
  unfold App.handleReorder.
  rewrite nth_error_middle, firstn_at_middle, skipn_past_middle.
  now rewrite map_app.
Qed.

Lemma map_Some_inj l l' : map (@Some A) l = map (@Some A) l' -> l = l'.
Proof.
  revert l'. induction l as [|a l IH]; intros [|b l'] H; try discriminate.
  - reflexivity.
  - simpl in H. injection H as -> H. f_equal. now apply IH.
Qed.

(** X20. For a source index inside the list, [handleReorder] returns the
    same files in another order: a permutation of the list, without any
    undefined entry, in which the moved file sits at the target index (at the
    end when the target index is past the end). *)
Theorem handleReorder_permutes (fromIndex toIndex : nat) prev :
  fromIndex < List.length prev ->
  exists l',
    App.handleReorder fromIndex toIndex prev = map Some l'
    /\ Permutation prev l'
    /\ List.length l' = List.length prev
    /\ nth_error l' (Nat.min toIndex (List.length prev - 1))
       = nth_error prev fromIndex.
Proof.
  intros Hf.
  destruct (nth_error prev fromIndex) as [x|] eqn:Hx;
    [|apply nth_error_None in Hx; lia].
  destruct (nth_error_split _ _ Hx) as (l1 & l2 & -> & <-).
  rewrite handleReorder_middle. eexists. split; [reflexivity|].
  assert (P : Permutation (l1 ++ x :: l2)
                (firstn toIndex (l1 ++ l2) ++ x :: skipn toIndex (l1 ++ l2))).
  { etransitivity; [symmetry; apply Permutation_middle|].
    etransitivity; [|apply Permutation_middle].
    now rewrite firstn_skipn. }
  split; [exact P|]. split; [symmetry; now apply Permutation_length|].
  assert (I : Nat.min toIndex (List.length (l1 ++ x :: l2) - 1)
              = List.length (firstn toIndex (l1 ++ l2))).
  { rewrite length_firstn, !length_app. simpl. lia. }
  rewrite I. apply nth_error_middle.
Qed.

(** X21. Moving a file from one index to another and then back restores the
    list, both indices being inside the list. *)
Theorem handleReorder_back (fromIndex toIndex : nat) prev l' :
  fromIndex < List.length prev ->
  toIndex < List.length prev ->
  App.handleReorder fromIndex toIndex prev = map Some l' ->
  App.handleReorder toIndex fromIndex l' = map Some prev.
Proof.
  intros Hf Ht R.
  destruct (nth_error prev fromIndex) as [x|] eqn:Hx;
    [|apply nth_error_None in Hx; lia].
  destruct (nth_error_split _ _ Hx) as (l1 & l2 & -> & <-).
  rewrite handleReorder_middle in R. apply map_Some_inj in R. subst l'.
  assert (L : List.length (firstn toIndex (l1 ++ l2)) = toIndex).
  { rewrite length_firstn. rewrite length_app in *. simpl in Ht. lia. }
  rewrite <- L at 1. rewrite handleReorder_middle, firstn_skipn.
  now rewrite firstn_at_middle, skipn_at_middle.
Qed.

(** X22. For a source index past the end nothing is removed and an
    undefined entry is inserted: the result is one longer than the list. *)
Theorem handleReorder_out_of_range (fromIndex toIndex : nat) prev :
  List.length prev <= fromIndex ->
  App.handleReorder fromIndex toIndex prev
  = map Some (firstn toIndex prev) ++ None :: map Some (skipn toIndex prev)
  /\ List.length (App.handleReorder fromIndex toIndex prev)
     = S (List.length prev).
Proof.
  intros Hf. unfold App.handleReorder.
  rewrite (proj2 (nth_error_None prev fromIndex) Hf).
  rewrite (@firstn_all2 _ fromIndex prev Hf).
  rewrite (@skipn_all2 _ (S fromIndex) prev) by lia.
  rewrite app_nil_r.
  split; [reflexivity|].
  rewrite length_app. simpl. rewrite !length_map.
  rewrite <- (firstn_skipn toIndex prev) at 3. rewrite length_app. lia.
Qed.

End Reordering.

Section Names.

Lemma lastIndexOf_dot_none (s : string) :
  App.lastIndexOf_dot s = None <-> hasDot s = false.
Proof.
  induction s as [|c r IH]; simpl; [tauto|].
  destruct (App.lastIndexOf_dot r) as [j|].
  - split; [discriminate|]. intros Hd. apply orb_false_iff in Hd as [_ Hr].
    apply IH in Hr. discriminate.
  - destruct (App.isDot c); simpl; [split; discriminate|].
    split; intros _; [now apply IH | reflexivity].
Qed.

Lemma split_dot_two (s : string) (j : nat) :
  App.lastIndexOf_dot s = Some j ->
  exists seg segs, App.split_dot s = seg :: segs /\ segs <> [].
Proof.
  revert j. induction s as [|c r IH]; simpl; intros j Hj; [discriminate|].
  destruct (App.isDot c) eqn:Dc.
  - exists EmptyString, (App.split_dot r).
    split; [reflexivity | apply split_dot_nonempty].
  - destruct (App.lastIndexOf_dot r) as [k|]; [|discriminate].
    destruct (IH k eq_refl) as (seg & segs & -> & N).
    exists (String c seg), segs. auto.
Qed.

Lemma name_around_last_dot (s : string) : forall i,
  App.lastIndexOf_dot s = Some i ->
  s = (substring 0 i s ++ "." ++ last (App.split_dot s) EmptyString)%string
  /\ hasDot (last (App.split_dot s) EmptyString) = false.
Proof.
  induction s as [|c r IH]; simpl; intros i Hi; [discriminate|].
  destruct (App.lastIndexOf_dot r) as [j|] eqn:Lr.
  - injection Hi as <-. destruct (IH j eq_refl) as (Er & Hd).
    destruct (split_dot_two r Lr) as (seg & segs & S & N).
    assert (L : last (if App.isDot c then EmptyString :: App.split_dot r
                      else match App.split_dot r with
                           | seg0 :: segs0 => String c seg0 :: segs0
                           | [] => [String c EmptyString]
                           end) EmptyString
                = last (App.split_dot r) EmptyString).
    { rewrite S. destruct (App.isDot c);
        rewrite !last_cons_nonempty by (try discriminate; exact N);
        reflexivity. }
    rewrite L. split; [|exact Hd]. simpl. simpl in Er. congruence.
  - destruct (App.isDot c) eqn:Dc; [|discriminate]. injection Hi as <-.
    apply lastIndexOf_dot_none in Lr.
    rewrite last_cons_nonempty by apply split_dot_nonempty.
    rewrite (split_dot_no_dot _ Lr). simpl.
    apply Ascii.eqb_eq in Dc. subst c. split; [reflexivity | exact Lr].
Qed.

(** X23. The two ways the component reads a file name agree.  When the
    name has a dot, the name is the text before its last dot, a dot, and the
    extension [split('.').pop()] gives, which has no dot; the base name used
    for the output is that text before the last dot unless it is empty (a
    name that starts with its only dot), in which case, as for a name
    without any dot, it is the whole name. *)
Theorem baseName_and_extension (name : string) :
  match App.lastIndexOf_dot name with
  | Some i =>
      exists ext,
        App.pop (App.split_dot name) = Some ext
        /\ hasDot ext = false
        /\ name = (substring 0 i name ++ "." ++ ext)%string
        /\ (i <> 0 -> name = (App.baseNameOf name ++ "." ++ ext)%string)
        /\ (i = 0 -> App.baseNameOf name = name)
  | None =>
      App.baseNameOf name = name
      /\ App.pop (App.split_dot name) = Some name
  end.
Proof.
  destruct (App.lastIndexOf_dot name) as [i|] eqn:L.
  - destruct (name_around_last_dot name L) as (En & Hd).
    exists (last (App.split_dot name) EmptyString).
    split.
    { unfold App.pop. pose proof (split_dot_nonempty name).
      destruct (App.split_dot name); [contradiction | reflexivity]. }
    split; [exact Hd|]. split; [exact En|].
    unfold App.baseNameOf. rewrite L. split.
    + intros Ni. destruct name as [|c r]; [discriminate|].
      destruct i as [|i]; [contradiction|]. simpl substring. simpl String.eqb.
      exact En.
    + intros ->. destruct name; reflexivity.
  - unfold App.baseNameOf. rewrite L. simpl. split; [reflexivity|].
    apply lastIndexOf_dot_none in L.
    now rewrite (split_dot_no_dot _ L).
Qed.

End Names.

Section ConversionProps.

Context {CE : App.ConvertEnv}.

(** X24. [processConversions] keeps the list as it is apart from the
    conversion fields: same length and order, same id, file and kind at every
    position; it never marks a file for conversion; and a file that is not
    marked, or already has converted bytes, is left untouched. *)
Theorem processConversions_keeps_list (fileList : list App.AppFile) :
  map App.id (App.processConversions fileList) = map App.id fileList
  /\ map (fun f => file (App.uploaded f)) (App.processConversions fileList)
     = map (fun f => file (App.uploaded f)) fileList
  /\ map (fun f => type (App.uploaded f)) (App.processConversions fileList)
     = map (fun f => type (App.uploaded f)) fileList
  /\ (forall f, App.isConverting (App.convertOne f) = true ->
                App.isConverting f = true)
  /\ (forall f, App.isConverting f = false \/ convertedBlob (App.uploaded f) <> None ->
                App.convertOne f = f).
Proof.
  assert (K : forall f,
             App.id (App.convertOne f) = App.id f
             /\ file (App.uploaded (App.convertOne f)) = file (App.uploaded f)
             /\ type (App.uploaded (App.convertOne f)) = type (App.uploaded f)).
  { intros f. unfold App.convertOne.
    destruct (App.isConverting f), (convertedBlob (App.uploaded f));
      try (repeat split; reflexivity).
    destruct (App.convertedBytes f) as [[blob|]|e]; repeat split; reflexivity. }
  unfold App.processConversions. rewrite !map_map.
  split; [apply map_ext; intros f; apply K|].
  split; [apply map_ext; intros f; apply K|].
  split; [apply map_ext; intros f; apply K|].
  split.
  - intros f. unfold App.convertOne.
    destruct (App.isConverting f) eqn:Cf; [reflexivity|].
    destruct (convertedBlob (App.uploaded f)); intros C; congruence.
  - intros f [C|C]; unfold App.convertOne.
    + rewrite C. reflexivity.
    + destruct (App.isConverting f); [|reflexivity].
      destruct (convertedBlob (App.uploaded f)); [reflexivity | contradiction].
Qed.

(** X25. An office document waiting for conversion is no longer marked
    after its turn, whether the converter returned or threw; it has converted
    bytes exactly when the converter returned them, and then its preview is
    made from those bytes as [image/png]. *)
Theorem convertOne_office (f : App.AppFile) :
  type (App.uploaded f) = docx \/ type (App.uploaded f) = xlsx ->
  App.isConverting f = true ->
  convertedBlob (App.uploaded f) = None ->
  let converted :=
    match type (App.uploaded f) with
    | docx => App.convertDocxToImage (file (App.uploaded f))
    | _ => App.convertXlsxToImage (file (App.uploaded f))
    end in
  App.isConverting (App.convertOne f) = false
  /\ match converted with
     | Ok blob =>
         convertedBlob (App.uploaded (App.convertOne f)) = Some blob
         /\ (App.typeIs (App.typeStrOf (name (file (App.uploaded f)))) "heic" = false ->
             App.typeIs (App.typeStrOf (name (file (App.uploaded f)))) "heif" = false ->
             App.previewUrl (App.convertOne f)
             = Some (App.PreviewOfBlob blob "image/png"))
     | Throw _ =>
         convertedBlob (App.uploaded (App.convertOne f)) = None
         /\ App.previewUrl (App.convertOne f) = App.previewUrl f
     end.
Proof.
  intros T C B. unfold App.convertOne, App.convertedBytes. rewrite C, B.
  destruct T as [T|T]; rewrite T; simpl.
  - destruct (App.convertDocxToImage _); simpl; repeat split; auto.
    intros H1 H2. now rewrite H1, H2.
  - destruct (App.convertXlsxToImage _); simpl; repeat split; auto.
    intros H1 H2. now rewrite H1, H2.
Qed.

Lemma convertOne_fixed (f : App.AppFile) :
  type (App.uploaded f) <> docx ->
  type (App.uploaded f) <> xlsx ->
  (App.typeIs (App.typeStrOf (name (file (App.uploaded f)))) "heic"
   || App.typeIs (App.typeStrOf (name (file (App.uploaded f)))) "heif" = false)
  \/ isOk (App.heic2any (file (App.uploaded f))) = false ->
  App.convertOne f = f.
Proof.
  intros Td Tx S. unfold App.convertOne, App.convertedBytes.
  destruct (App.isConverting f); [|reflexivity].
  destruct (convertedBlob (App.uploaded f)); [reflexivity|].
  destruct (type (App.uploaded f)); try contradiction;
    destruct S as [S|S]; try rewrite S; try reflexivity;
    destruct (App.typeIs _ "heic" || App.typeIs _ "heif"); try reflexivity;
    destruct (App.heic2any _); try discriminate; reflexivity.
Qed.

(** X26. An image waiting for conversion stays exactly as it is, still
    marked, when its extension is neither [heic] nor [heif] (it was marked
    for its MIME type only), and also when the HEIC codec throws. *)
Theorem convertOne_heic_stuck (f : App.AppFile) :
  type (App.uploaded f) <> docx ->
  type (App.uploaded f) <> xlsx ->
  App.isConverting f = true ->
  (App.typeIs (App.typeStrOf (name (file (App.uploaded f)))) "heic"
   || App.typeIs (App.typeStrOf (name (file (App.uploaded f)))) "heif" = false)
  \/ isOk (App.heic2any (file (App.uploaded f))) = false ->
  App.convertOne f = f /\ App.isConverting (App.convertOne f) = true.
Proof.
  intros Td Tx C S.
  rewrite (convertOne_fixed f Td Tx S). split; [reflexivity | exact C].
Qed.

End ConversionProps.

Section MergingProps.

Context {E : Env} {HE : HistoryEnv} {AE : App.AppEnv}.

Lemma existsb_converting (l : list App.AppFile) :
  existsb App.isConverting l = false
  <-> Forall (fun f => App.isConverting f = false) l.
Proof.
  induction l as [|f l IH]; simpl.
  - split; [constructor | reflexivity].
  - rewrite orb_false_iff, IH. split.
    + intros [A B]. now constructor.
    + intros F. inversion F. auto.
Qed.

Lemma total_size (l : list App.AppFile) (acc : Z) :
  fold_left (fun a f => (a + App.size (file (App.uploaded f)))%Z) l acc
  = (acc + Z.of_nat
             (List.length
                (List.concat (map (fun f => arrayBuffer (file (App.uploaded f))) l))))%Z.
Proof.
  revert acc. induction l as [|f l IH]; intros acc; simpl; [lia|].
  rewrite IH, length_app. unfold App.size. lia.
Qed.

Lemma handleMerge_blocked (st : App.State) (nowId nowTs : nat)
  (s : Storage) (w : World) (f : App.AppFile) :
  In f (App.files st) -> App.isConverting f = true ->
  App.state (App.handleMerge st nowId nowTs s w) = st
  /\ App.storage (App.handleMerge st nowId nowTs s w) = s
  /\ App.world (App.handleMerge st nowId nowTs s w) = w.
Proof.
  intros I C. unfold App.handleMerge.
  assert (X : existsb App.isConverting (App.files st) = true)
    by (apply existsb_exists; eauto).
  rewrite X. destruct (App.files st); repeat split.
Qed.

(** X27. Without any file, or while some file is still marked for
    conversion, [handleMerge] leaves the state, the storage and the world of
    the pipeline as they are: [mergeFiles] is not called, so it is never
    called on an empty list. *)
Theorem handleMerge_guard (st : App.State) (nowId nowTs : nat)
  (s : Storage) (w : World) :
  App.files st = [] \/ (exists f, In f (App.files st) /\ App.isConverting f = true) ->
  App.state (App.handleMerge st nowId nowTs s w) = st
  /\ App.storage (App.handleMerge st nowId nowTs s w) = s
  /\ App.world (App.handleMerge st nowId nowTs s w) = w.
Proof.
  intros [N | (f & I & C)].
  - unfold App.handleMerge. rewrite N. repeat split.
  - now apply handleMerge_blocked with f.
Qed.

(** X28. When there are files, none is marked for conversion and
    [mergeFiles] returns bytes, [handleMerge] keeps those bytes, shows
    success at 100 without alert, and hands [addHistoryItem] one item that
    counts the files, lists their names in order, carries the formatted total
    number of bytes of the files and the output name; the output name becomes
    the base name of the first file followed by [_merged] when it still was
    the default, and is kept otherwise. *)
Theorem handleMerge_success (st : App.State) (nowId nowTs : nat)
  (s : Storage) (w w' : World) (pdfBytes : bytes)
  (first : App.AppFile) (rest : list App.AppFile) :
  App.files st = first :: rest ->
  Forall (fun f => App.isConverting f = false) (App.files st) ->
  mergeFiles (map App.uploaded (App.files st)) (App.compressionLevel st) w
  = (Ok pdfBytes, w') ->
  let o := App.handleMerge st nowId nowTs s w in
  App.status (App.state o)
  = {| App.isProcessing := false; App.message := "合并成功！"; App.progress := 100 |}
  /\ App.mergedBlob (App.state o) = Some pdfBytes
  /\ App.files (App.state o) = App.files st
  /\ App.world o = w'
  /\ App.alerts o = []
  /\ (App.outputFilename (App.state o)
      = if String.eqb (App.outputFilename st) "merged-document"
        then (App.baseNameOf (name (file (App.uploaded first))) ++ "_merged")%string
        else App.outputFilename st)
  /\ exists item,
       (App.history (App.state o), App.storage o) = addHistoryItem item s
       /\ HistoryItem.fileCount item = List.length (App.files st)
       /\ HistoryItem.fileNames item
          = map (fun f => name (file (App.uploaded f))) (App.files st)
       /\ HistoryItem.outputFilename item = App.outputFilename (App.state o)
       /\ HistoryItem.totalSize item
          = App.formatSize
              (Z.of_nat
                 (List.length
                    (List.concat
                       (map (fun f => arrayBuffer (file (App.uploaded f)))
                            (App.files st))))).
Proof.
  intros F C R o. apply existsb_converting in C.
  unfold o, App.handleMerge. rewrite F in *. rewrite C, R.
  destruct (addHistoryItem _ s) as [updatedHistory s'] eqn:Ad. cbn [App.state App.storage App.world App.alerts App.status App.mergedBlob App.files App.outputFilename App.history].
  repeat (split; [reflexivity|]).
  eexists. split; [symmetry; exact Ad|].
  cbn [HistoryItem.fileCount HistoryItem.fileNames HistoryItem.outputFilename
       HistoryItem.totalSize].
  repeat (split; [reflexivity|]).
  now rewrite total_size.
Qed.

(** X29. When there are files, none is marked for conversion, and the
    first input that fails throws [e], [handleMerge] shows the failure with
    the name of that file and the text of [e], back at 0, raises one alert
    with the same text, keeps no merged bytes, and leaves the history, the
    storage, the output name and the files as they were. *)
Theorem handleMerge_failure (st : App.State) (nowId nowTs : nat)
  (s : Storage) (w : World)
  (pre : list UploadedFile) (f : UploadedFile) (post : list UploadedFile)
  (e : Thrown) :
  Forall (fun a => App.isConverting a = false) (App.files st) ->
  map App.uploaded (App.files st) = pre ++ f :: post ->
  Forall (fun g => fileResult g (App.compressionLevel st) = Ok tt) pre ->
  fileResult f (App.compressionLevel st) = Throw e ->
  let o := App.handleMerge st nowId nowTs s w in
  let text := ("合并文件 " ++ name (file f) ++ " 时出错: " ++ errorText e)%string in
  App.status (App.state o)
  = {| App.isProcessing := false;
       App.message := ("失败: " ++ text)%string;
       App.progress := 0 |}
  /\ App.alerts o = [("合并失败: " ++ text)%string]
  /\ App.mergedBlob (App.state o) = None
  /\ App.history (App.state o) = App.history st
  /\ App.outputFilename (App.state o) = App.outputFilename st
  /\ App.files (App.state o) = App.files st
  /\ App.storage o = s.
Proof.
  intros C M P F o text. apply existsb_converting in C.
  unfold o, App.handleMerge. rewrite C, M.
  erewrite mergeFiles_first_failure by eassumption.
  destruct (App.files st) as [|a l]; [destruct pre; discriminate|].
  repeat split.
Qed.

(** X30. A file that is an HEIC image by its MIME type only, with an
    extension the component does not know, is marked for conversion when it
    is added, is left as it is by every run of [processConversions], whatever
    the converters do, and from then on blocks [handleMerge], which changes
    nothing while the file is in the list. *)
Theorem mime_only_heic_blocks_merge (newId : string) (f : File) (mime : string) :
  mime = "image/heic"%string \/ mime = "image/heif"%string ->
  Forall (fun literal => App.typeIs (App.typeStrOf (name f)) literal = false)
         knownExtensions ->
  let a := App.processFile newId f mime in
  App.isConverting a = true
  /\ type (App.uploaded a) = image
  /\ (forall (CE : App.ConvertEnv) fileList,
        In a fileList -> In a (App.processConversions fileList))
  /\ (forall st nowId nowTs s w,
        In a (App.files st) ->
        App.state (App.handleMerge st nowId nowTs s w) = st
        /\ App.storage (App.handleMerge st nowId nowTs s w) = s
        /\ App.world (App.handleMerge st nowId nowTs s w) = w).
Proof.
  intros M K a.
  pose proof (proj1 (Forall_forall _ _) K) as Kall.
  assert (Kpdf := Kall "pdf"%string). assert (Kdocx := Kall "docx"%string).
  assert (Kdoc := Kall "doc"%string). assert (Kxlsx := Kall "xlsx"%string).
  assert (Kxls := Kall "xls"%string). assert (Kheic := Kall "heic"%string).
  assert (Kheif := Kall "heif"%string).
  unfold knownExtensions in *. simpl In in *.
  specialize (Kpdf ltac:(tauto)). specialize (Kdocx ltac:(tauto)).
  specialize (Kdoc ltac:(tauto)). specialize (Kxlsx ltac:(tauto)).
  specialize (Kxls ltac:(tauto)). specialize (Kheic ltac:(tauto)).
  specialize (Kheif ltac:(tauto)).
  assert (P : App.isConverting a = true /\ type (App.uploaded a) = image
              /\ file (App.uploaded a) = f).
  { unfold a, App.processFile.
    rewrite Kpdf, Kdocx, Kdoc, Kxlsx, Kxls, Kheic, Kheif.
    destruct M as [-> | ->]; repeat split. }
  destruct P as (C & T & Fa).
  split; [exact C|]. split; [exact T|]. split.
  - intros CE fileList I. unfold App.processConversions.
    apply in_map_iff. exists a. split; [|exact I].
    apply convertOne_fixed; try congruence.
    left. rewrite Fa, Kheic, Kheif. reflexivity.
  - intros st nowId nowTs s w I. now apply handleMerge_blocked with a.
Qed.

End MergingProps.

(** * More runs in the concrete environments *)

Section MoreRuns.

#[local] Existing Instance toyEnv.
#[local] Existing Instance toyHistoryEnv.
#[local] Existing Instance toyConvertEnv.
#[local] Existing Instance toyAppEnv.

Lemma detectImageType_first_four_witness :
  detectImageType [x89; x50; x4e; x47; x01]
  = detectImageType [x89; x50; x4e; x47; x02; x03].
Proof.
  apply (detectImageType_first_four
           [x89; x50; x4e; x47; x01] [x89; x50; x4e; x47; x02; x03]).
  reflexivity.
Defined.

Lemma canvasSize_idempotent_witness :
  @canvasSize toyEnv64 high (Pixels.mk 3000 62) = Pixels.mk 1500 30
  /\ @canvasSize toyEnv64 high (@canvasSize toyEnv64 high (Pixels.mk 3000 62))
     = @canvasSize toyEnv64 high (Pixels.mk 3000 62).
Proof.
  split; [reflexivity|].
  apply (@canvasSize_idempotent toyEnv64 Binary64_IEEE754 high (Pixels.mk 3000 62));
    reflexivity.
Defined.

Lemma progressOf_bounds_witness :
  @progressOf toyEnv64 21 40 = 55%Z /\ @progressOf toyEnv64 22 40 = 57%Z
  /\ (0 <= @progressOf toyEnv64 21 40 <= @progressOf toyEnv64 22 40)%Z.
Proof.
  split; [reflexivity|]. split; [reflexivity|].
  apply (@progressOf_bounds toyEnv64 Binary64_IEEE754 21 22 40); [lia | lia | reflexivity].
Defined.

Lemma pdf_ignores_policy_witness :
  processFile A_pdf none W0 = processFile A_pdf high W0.
Proof.
  apply (proj1 (@pdf_ignores_policy toyEnv A_pdf eq_refl)).
Defined.

Lemma kind_is_irrelevant_witness :
  processFile B_png high W0 = processFile B_as_docx high W0.
Proof.
  apply (@kind_is_irrelevant toyEnv B_png B_as_docx high W0);
    try discriminate; reflexivity.
Defined.

Lemma converted_bytes_are_decoded_witness :
  processFile converted_1 none W0 = processFile converted_2 none W0.
Proof.
  apply (@converted_bytes_are_decoded toyEnv converted_1 converted_2
           [x89; x50; x4e; x47; x02; x03] none W0);
    try discriminate; reflexivity.
Defined.

Lemma original_upload_embedded_verbatim_witness :
  fileEvents B_png none = [CallEmbedPng (arrayBuffer (file B_png))].
Proof.
  pose proof (@original_upload_embedded_verbatim toyEnv B_png
                (@toy_image Double (arrayBuffer (file B_png))) W0) as V.
  unfold fileEvents. rewrite V; try discriminate; reflexivity.
Defined.

Lemma mergeFiles_succeeds_iff_witness :
  exists w, mergeFiles [A_pdf; B_png] none W0 = (Ok toy_out, w).
Proof.
  apply (@mergeFiles_succeeds_iff toyEnv [A_pdf; B_png] none W0 toy_out).
  split; [repeat constructor | reflexivity].
Defined.

Lemma mergeFiles_save_error_witness :
  fst (@mergeFiles toyEnvFailingSave [A_pdf; B_png] none W0)
  = Throw (JsError "Out of memory").
Proof.
  destruct (@mergeFiles_save_error toyEnvFailingSave [A_pdf; B_png] none W0
              (JsError "Out of memory")) as (before & R);
    [repeat constructor | reflexivity |].
  rewrite R. reflexivity.
Defined.

Lemma failure_skips_the_rest_witness :
  mergeFiles ([A_pdf] ++ broken_img :: [B_png]) none W0
  = mergeFiles ([A_pdf] ++ broken_img :: [empty_pdf]) none W0.
Proof.
  apply (@failure_skips_the_rest toyEnv [A_pdf] broken_img [B_png] [empty_pdf]
           none W0 (JsError "Failed to load image for processing."));
    [repeat constructor | reflexivity | reflexivity].
Defined.

Lemma addHistoryItem_then_getHistory_witness :
  getHistory storage_a = JArray [itemJson item_a]
  /\ getHistory (snd (addHistoryItem item_b storage_a))
     = JArray [itemJson item_b; itemJson item_a]
  /\ getHistory storage_object = JObject []
  /\ addHistoryItem item_b storage_object = (JArray [], storage_object).
Proof.
  destruct (@addHistoryItem_then_getHistory toyHistoryEnv item_b storage_a)
    as (M & _ & _).
  destruct (@addHistoryItem_then_getHistory toyHistoryEnv item_b storage_object)
    as (_ & _ & NI).
  split; [reflexivity|]. split.
  - apply (M [itemJson item_a]);
      [reflexivity | reflexivity | discriminate | reflexivity].
  - split; [reflexivity|]. apply NI. reflexivity.
Defined.

Lemma history_storage_error_witness :
  addHistoryItem item_b storage_full = (JArray [], storage_full)
  /\ getHistory storage_full = JArray [itemJson item_a].
Proof.
  split; [|reflexivity].
  apply (proj1 (@history_storage_error toyHistoryEnv item_b "a" storage_full
                  (JsError "QuotaExceededError")) [itemJson item_a]);
    reflexivity.
Defined.

Lemma corrupt_history_is_replaced_witness :
  getHistory storage_corrupt = JArray []
  /\ fst (addHistoryItem item_a storage_corrupt) = JArray [itemJson item_a].
Proof.
  destruct (@corrupt_history_is_replaced toyHistoryEnv item_a storage_corrupt
              "{oops" (JsError "Unexpected token in JSON")) as (G & R);
    [reflexivity | reflexivity | reflexivity |].
  split; [exact G | now rewrite R].
Defined.

Lemma deleteHistoryItem_spec_witness :
  getHistory storage_ba = JArray [itemJson item_b; itemJson item_a]
  /\ fst (deleteHistoryItem "b" storage_ba) = Ok (JArray [itemJson item_a])
  /\ deleteHistoryItem "b" storage_object
     = (Throw (JsError "current is not iterable"), storage_object)
  /\ deleteHistoryItem "b" storage_null_item
     = (Throw (JsError "current is not iterable"), storage_null_item).
Proof.
  destruct (@deleteHistoryItem_spec toyHistoryEnv "b" storage_ba) as (M & _ & _).
  destruct (@deleteHistoryItem_spec toyHistoryEnv "b" storage_object)
    as (_ & NA & _).
  destruct (@deleteHistoryItem_spec toyHistoryEnv "b" storage_null_item)
    as (_ & _ & NU).
  split; [reflexivity|]. split; [|split].
  - apply (M [itemJson item_b; itemJson item_a]);
      [reflexivity | repeat constructor; discriminate | reflexivity
       | discriminate | reflexivity].
  - apply NA. reflexivity.
  - apply (NU [JNull]); [reflexivity | left; reflexivity].
Defined.

Lemma clearHistory_then_witness :
  getHistory (clearHistory storage_ba) = JArray []
  /\ fst (addHistoryItem item_a (clearHistory storage_ba))
     = JArray [itemJson item_a].
Proof.
  destruct (@clearHistory_then toyHistoryEnv item_a storage_ba) as (G & _ & R);
    [reflexivity|].
  split; [exact G | exact R].
Defined.

Lemma processFile_by_extension_witness :
  type (App.uploaded
          (App.processFile "1" {| name := "report.final.PDF"; arrayBuffer := [] |} ""))
  = pdf
  /\ type (App.uploaded
             (App.processFile "2" {| name := "PDF"; arrayBuffer := [] |} ""))
     = pdf.
Proof.
  split; [reflexivity|].
  rewrite <- (proj1 (@processFile_by_extension "1" "2"
                       {| name := "report.final.PDF"; arrayBuffer := [] |}
                       {| name := "PDF"; arrayBuffer := [] |}
                       "" "report.final" "PDF" eq_refl eq_refl eq_refl)).
  reflexivity.
Defined.

Lemma processFile_case_insensitive_witness :
  type (App.uploaded (App.processFile "1" docx_file "")) = docx
  /\ type (App.uploaded
             (App.processFile "2" {| name := "report.docx"; arrayBuffer := [] |} ""))
     = docx.
Proof.
  split; [reflexivity|].
  rewrite <- (proj1 (@processFile_case_insensitive "1" "2" docx_file
                       {| name := "report.docx"; arrayBuffer := [] |}
                       "" eq_refl)).
  reflexivity.
Defined.

Lemma handleReorder_permutes_witness :
  App.handleReorder 0 2 [1; 2; 3] = [Some 2; Some 3; Some 1]
  /\ exists l', App.handleReorder 0 2 [1; 2; 3] = map Some l'
                /\ Permutation [1; 2; 3] l'.
Proof.
  split; [reflexivity|].
  destruct (@handleReorder_permutes nat 0 2 [1; 2; 3]) as (l' & R & P & _);
    [simpl; lia|].
  exists l'. split; assumption.
Defined.

Lemma handleReorder_back_witness :
  App.handleReorder 2 0 [2; 3; 1] = [Some 1; Some 2; Some 3].
Proof.
  apply (@handleReorder_back nat 0 2 [1; 2; 3] [2; 3; 1]);
    [simpl; lia | simpl; lia | reflexivity].
Defined.

Lemma handleReorder_out_of_range_witness :
  App.handleReorder 5 1 [1; 2; 3] = [Some 1; None; Some 2; Some 3].
Proof.
  apply (@handleReorder_out_of_range nat 5 1 [1; 2; 3]). simpl. lia.
Defined.

Lemma convertOne_office_witness :
  App.isConverting (App.processFile "1" docx_file "") = true
  /\ App.isConverting (App.convertOne (App.processFile "1" docx_file "")) = false
  /\ App.isConverting
       (App.convertOne (App.processFile "2" empty_docx_file "")) = false.
Proof.
  split; [reflexivity|]. split.
  - apply (@convertOne_office toyConvertEnv (App.processFile "1" docx_file ""));
      [left; reflexivity | reflexivity | reflexivity].
  - apply (@convertOne_office toyConvertEnv
             (App.processFile "2" empty_docx_file ""));
      [left; reflexivity | reflexivity | reflexivity].
Defined.

Lemma convertOne_heic_stuck_witness :
  App.isConverting
    (App.convertOne (App.processFile "1" heic_file "image/heic")) = true.
Proof.
  apply (@convertOne_heic_stuck toyConvertEnv
           (App.processFile "1" heic_file "image/heic"));
    [discriminate | discriminate | reflexivity | right; reflexivity].
Defined.

Lemma handleMerge_guard_witness :
  App.state (App.handleMerge (toy_state [] "merged-document") 1 1 noStorage W0)
  = toy_state [] "merged-document".
Proof.
  apply (@handleMerge_guard toyEnv toyHistoryEnv toyAppEnv
           (toy_state [] "merged-document") 1 1 noStorage W0).
  left. reflexivity.
Defined.

Lemma handleMerge_success_witness :
  let o := App.handleMerge (toy_state [app_A; app_B] "merged-document")
             17 18 noStorage W0 in
  App.mergedBlob (App.state o) = Some toy_out
  /\ App.outputFilename (App.state o) = "A_merged"%string.
Proof.
  destruct (@handleMerge_success toyEnv toyHistoryEnv toyAppEnv
              (toy_state [app_A; app_B] "merged-document")
              17 18 noStorage W0 (snd toy_run) toy_out
              app_A [app_B])
    as (_ & B & _ & _ & _ & N & _);
    [reflexivity | repeat constructor | reflexivity |].
  split; [exact B | exact N].
Defined.

Lemma handleMerge_failure_witness :
  App.message
    (App.status
       (App.state
          (App.handleMerge (toy_state [app_A; app_broken; app_B] "out")
             1 1 storage_a W0)))
  = "失败: 合并文件 broken.gif 时出错: Failed to load image for processing."%string.
Proof.
  destruct (@handleMerge_failure toyEnv toyHistoryEnv toyAppEnv
              (toy_state [app_A; app_broken; app_B] "out") 1 1 storage_a W0
              [A_pdf] broken_img [B_png]
              (JsError "Failed to load image for processing."))
    as (S & _);
    [repeat constructor | reflexivity | repeat constructor | reflexivity |].
  rewrite S. reflexivity.
Defined.

Lemma mime_only_heic_blocks_merge_witness :
  App.isConverting (App.processFile "1" heic_by_mime "image/heic") = true
  /\ In (App.processFile "1" heic_by_mime "image/heic")
        (App.processConversions
           [app_A; App.processFile "1" heic_by_mime "image/heic"]).
Proof.
  destruct (@mime_only_heic_blocks_merge toyEnv toyHistoryEnv toyAppEnv
              "1" heic_by_mime "image/heic") as (C & _ & P & _);
    [left; reflexivity | repeat constructor |].
  split; [exact C|]. apply P. right. left. reflexivity.
Defined.

End MoreRuns.
